(** * Presolve engine of [PresolveComillas] (models/utils_models/presolve_class.py)

    A shallow embedding of the LP state and of the ten reduction rules, with
    the orchestrator that drives them.

    Conventions of the embedding.
    - Python floats are exact rationals ([Q]); every arithmetic result is
      reduced with [Qred], comparisons go through [Qeq_bool]/[Qle_bool].
      Rounding, NaN and the IEEE infinities are outside the model.
    - [self.A] (a [csr_matrix], rebuilt from a dense array after every
      deletion) is a list of dense rows together with its column count;
      [nnz] counts the nonzero entries.
    - Python lists are [list]; [self.lb]/[self.ub] carry a tag telling
      whether the object is a Python list or a NumPy array, because
      [del v[i]] works on the first and raises on the second.
    - A rule is a function [lp_state -> result lp_state]; [Raise] is an
      uncaught exception, [OutOfFuel] a [while] loop that has not finished
      within the given number of passes.
    - [warnings.warn] appends to the [warnings] log of the state. *)

From Stdlib Require Import String ZArith QArith Qreduction Bool Arith Lia List.
Import ListNotations.

Set Warnings "-register-all".
Close Scope Q_scope.

(** ** Exceptions and results *)

Inductive exn := IndexError | ValueError.

Inductive result (T : Type) : Type :=
| Ok (t : T)
| Raise (e : exn)
| OutOfFuel.

Arguments Ok {T} t.
Arguments Raise {T} e.
Arguments OutOfFuel {T}.

Definition bind {T U : Type} (m : result T) (f : T -> result U) : result U :=
  match m with
  | Ok t => f t
  | Raise e => Raise e
  | OutOfFuel => OutOfFuel
  end.

Notation "x <- m ;; k" := (bind m (fun x => k))
  (at level 61, m at next level, right associativity).
Notation "' p <- m ;; k" := (bind m (fun p => k))
  (at level 61, p pattern, m at next level, right associativity).

(** [for x in l: acc = body(x, acc)] *)
Fixpoint for_each {T St : Type} (l : list T) (body : T -> St -> result St)
  (acc : St) : result St :=
  match l with
  | [] => Ok acc
  | x :: t => acc' <- body x acc ;; for_each t body acc'
  end.

(** ** Numbers *)

Definition qzero (x : Q) : bool := Qeq_bool x 0.
Definition qnonzero (x : Q) : bool := negb (Qeq_bool x 0).
Definition qeqb (x y : Q) : bool := Qeq_bool x y.
Definition qleb (x y : Q) : bool := Qle_bool x y.
Definition qltb (x y : Q) : bool := negb (Qle_bool y x).
Definition qadd (x y : Q) : Q := Qred (x + y).
Definition qsub (x y : Q) : Q := Qred (x - y).
Definition qmul (x y : Q) : Q := Qred (x * y).
Definition qdiv (x y : Q) : Q := Qred (x / y).
Definition qneg (x : Q) : Q := Qred (- x).

Arguments qadd : simpl never.
Arguments qsub : simpl never.
Arguments qmul : simpl never.
Arguments qdiv : simpl never.
Arguments qneg : simpl never.

(** ** Python lists *)

(** [l[i]] *)
Definition getitem {T : Type} (l : list T) (i : nat) : result T :=
  match nth_error l i with
  | Some x => Ok x
  | None => Raise IndexError
  end.

(** [del l[i]] *)
Fixpoint py_del {T : Type} (i : nat) (l : list T) : result (list T) :=
  match l, i with
  | [], _ => Raise IndexError
  | _ :: t, O => Ok t
  | x :: t, S j => t' <- py_del j t ;; Ok (x :: t')
  end.

(** [l[i] = v] *)
Fixpoint setitem {T : Type} (i : nat) (v : T) (l : list T) : result (list T) :=
  match l, i with
  | [], _ => Raise IndexError
  | _ :: t, O => Ok (v :: t)
  | x :: t, S j => t' <- setitem j v t ;; Ok (x :: t')
  end.

(** [sorted(l, reverse=True)] *)
Fixpoint insert_desc (x : nat) (l : list nat) : list nat :=
  match l with
  | [] => [x]
  | y :: t => if y <=? x then x :: l else y :: insert_desc x t
  end.

Definition sorted_desc (l : list nat) : list nat := fold_right insert_desc [] l.

(** [i in l] *)
Definition in_idx (i : nat) (idxs : list nat) : bool := existsb (Nat.eqb i) idxs.

(** ** NumPy deletion *)

(** The elements of [l] whose position (counted from [pos]) is not in
    [idxs]: the boolean mask [np.delete] builds, so that an index given
    twice is removed once. *)
Fixpoint drop_from {T : Type} (pos : nat) (idxs : list nat) (l : list T) : list T :=
  match l with
  | [] => []
  | x :: t =>
      if in_idx pos idxs then drop_from (S pos) idxs t
      else x :: drop_from (S pos) idxs t
  end.

(** [np.delete(l, idxs)]: an index out of bounds raises. *)
Definition np_delete {T : Type} (idxs : list nat) (l : list T) : result (list T) :=
  if forallb (fun i => i <? length l) idxs then Ok (drop_from 0 idxs l)
  else Raise IndexError.

(** ** The sparse matrix *)

Record matrix := mkMatrix { mrows : list (list Q); ncols : nat }.

Definition nrows (M : matrix) : nat := length (mrows M).

(** [np.count_nonzero(row)] *)
Definition count_nonzero (r : list Q) : nat := length (filter qnonzero r).

(** [M.nnz] *)
Definition nnz (M : matrix) : nat := list_sum (map count_nonzero (mrows M)).

(** [csr_matrix(np.delete(M.toarray(), idxs, axis=0))] *)
Definition np_delete_rows (idxs : list nat) (M : matrix) : result matrix :=
  rows <- np_delete idxs (mrows M) ;; Ok (mkMatrix rows (ncols M)).

(** [csr_matrix(np.delete(M.toarray(), idxs, axis=1))] *)
Definition np_delete_cols (idxs : list nat) (M : matrix) : result matrix :=
  if forallb (fun i => i <? ncols M) idxs
  then Ok (mkMatrix (map (drop_from 0 idxs) (mrows M))
                    (length (drop_from 0 idxs (seq 0 (ncols M)))))
  else Raise IndexError.

(** [M.A[:, j]] *)
Definition column (j : nat) (M : matrix) : list Q :=
  map (fun r => nth j r 0%Q) (mrows M).

(** [np.nonzero(r)[0]] *)
Fixpoint nonzero_from (pos : nat) (r : list Q) : list nat :=
  match r with
  | [] => []
  | x :: t => if qnonzero x then pos :: nonzero_from (S pos) t
              else nonzero_from (S pos) t
  end.

Definition np_nonzero (r : list Q) : list nat := nonzero_from 0 r.

(** [np.nonzero(r)[0][0]] *)
Definition first_nonzero (r : list Q) : result nat := getitem (np_nonzero r) 0.

(** [np.nonzero(r)[0][-1]] *)
Definition last_nonzero (r : list Q) : result nat :=
  match rev (np_nonzero r) with
  | k :: _ => Ok k
  | [] => Raise IndexError
  end.

(** ** Bound vectors: a Python list or a NumPy array *)

Inductive bounds := PyList (l : list Q) | NdArray (l : list Q).

Definition items (v : bounds) : list Q :=
  match v with PyList l => l | NdArray l => l end.

(** [v = np.delete(v, idxs)]: the result is always an array. *)
Definition bounds_np_delete (idxs : list nat) (v : bounds) : result bounds :=
  l <- np_delete idxs (items v) ;; Ok (NdArray l).

(** [del v[i]]: NumPy refuses to delete array elements. *)
Definition bounds_del (i : nat) (v : bounds) : result bounds :=
  match v with
  | PyList l => l' <- py_del i l ;; Ok (PyList l')
  | NdArray _ => Raise ValueError
  end.

(** ** Python dictionaries and the change journal *)

Fixpoint dict_set {V : Type} (k : string) (v : V) (d : list (string * V))
  : list (string * V) :=
  match d with
  | [] => [(k, v)]
  | (k', v') :: t => if String.eqb k k' then (k, v) :: t
                     else (k', v') :: dict_set k v t
  end.

Fixpoint dict_get {V : Type} (k : string) (d : list (string * V)) : option V :=
  match d with
  | [] => None
  | (k', v') :: t => if String.eqb k k' then Some v' else dict_get k t
  end.

(** Values stored in [change_dictionary].  [JExpr lhs rhs] is the k-ton
    record [{"lhs": ..., "rhs": ..., "variables": self.variable_names}]: its
    third component is the live [variable_names] list of the state itself,
    not a copy, so it is not stored a second time. *)
Inductive jvalue :=
| JInt (n : nat)
| JList (l : list nat)
| JNum (q : Q)
| JExpr (lhs : list Q) (rhs : Q)
| JDict (d : list (string * jvalue)).

Definition journal := list (string * jvalue).

(** [d[k1][k2]...[kn] = v] on a [defaultdict(nested_dict)]: missing
    intermediate dictionaries are created on the way. *)
Fixpoint journal_set (path : list string) (v : jvalue) (d : journal) : journal :=
  match path with
  | [] => d
  | [k] => dict_set k v d
  | k :: rest =>
      let sub := match dict_get k d with
                 | Some (JDict d') => d'
                 | _ => []
                 end in
      dict_set k (JDict (journal_set rest v sub)) d
  end.

Fixpoint journal_get (path : list string) (d : journal) : option jvalue :=
  match path with
  | [] => None
  | [k] => dict_get k d
  | k :: rest =>
      match dict_get k d with
      | Some (JDict d') => journal_get rest d'
      | _ => None
      end
  end.

(** ** The LP state *)

Inductive objective_sense := Minimize | Maximize.
Inductive constraint_sense := SenseLe | SenseGe | SenseEq.
Inductive warning := Infeasibility | Unboundedness.

(** One line of [operation_table]: label, rows, columns, nonzeros. *)
Definition operation := (string * nat * nat * nat)%type.

Record lp_state := mkState {
  A : matrix;
  b : list Q;
  c : list Q;
  co : Q;
  lb : bounds;
  ub : bounds;
  of_sense : objective_sense;
  cons_senses : list constraint_sense;
  variable_names : list string;
  original_row_index : list nat;
  original_column_index : list nat;
  change_dictionary : journal;
  operation_table : list operation;
  warnings : list warning
}.

Definition set_A (v : matrix) (s : lp_state) : lp_state :=
  mkState v (b s) (c s) (co s) (lb s) (ub s) (of_sense s) (cons_senses s)
    (variable_names s) (original_row_index s) (original_column_index s)
    (change_dictionary s) (operation_table s) (warnings s).

Definition set_b (v : list Q) (s : lp_state) : lp_state :=
  mkState (A s) v (c s) (co s) (lb s) (ub s) (of_sense s) (cons_senses s)
    (variable_names s) (original_row_index s) (original_column_index s)
    (change_dictionary s) (operation_table s) (warnings s).

Definition set_c (v : list Q) (s : lp_state) : lp_state :=
  mkState (A s) (b s) v (co s) (lb s) (ub s) (of_sense s) (cons_senses s)
    (variable_names s) (original_row_index s) (original_column_index s)
    (change_dictionary s) (operation_table s) (warnings s).

Definition set_co (v : Q) (s : lp_state) : lp_state :=
  mkState (A s) (b s) (c s) v (lb s) (ub s) (of_sense s) (cons_senses s)
    (variable_names s) (original_row_index s) (original_column_index s)
    (change_dictionary s) (operation_table s) (warnings s).

Definition set_lb (v : bounds) (s : lp_state) : lp_state :=
  mkState (A s) (b s) (c s) (co s) v (ub s) (of_sense s) (cons_senses s)
    (variable_names s) (original_row_index s) (original_column_index s)
    (change_dictionary s) (operation_table s) (warnings s).

Definition set_ub (v : bounds) (s : lp_state) : lp_state :=
  mkState (A s) (b s) (c s) (co s) (lb s) v (of_sense s) (cons_senses s)
    (variable_names s) (original_row_index s) (original_column_index s)
    (change_dictionary s) (operation_table s) (warnings s).

Definition set_cons_senses (v : list constraint_sense) (s : lp_state) : lp_state :=
  mkState (A s) (b s) (c s) (co s) (lb s) (ub s) (of_sense s) v
    (variable_names s) (original_row_index s) (original_column_index s)
    (change_dictionary s) (operation_table s) (warnings s).

Definition set_variable_names (v : list string) (s : lp_state) : lp_state :=
  mkState (A s) (b s) (c s) (co s) (lb s) (ub s) (of_sense s) (cons_senses s)
    v (original_row_index s) (original_column_index s)
    (change_dictionary s) (operation_table s) (warnings s).

Definition set_original_row_index (v : list nat) (s : lp_state) : lp_state :=
  mkState (A s) (b s) (c s) (co s) (lb s) (ub s) (of_sense s) (cons_senses s)
    (variable_names s) v (original_column_index s)
    (change_dictionary s) (operation_table s) (warnings s).

Definition set_original_column_index (v : list nat) (s : lp_state) : lp_state :=
  mkState (A s) (b s) (c s) (co s) (lb s) (ub s) (of_sense s) (cons_senses s)
    (variable_names s) (original_row_index s) v
    (change_dictionary s) (operation_table s) (warnings s).

Definition set_change_dictionary (v : journal) (s : lp_state) : lp_state :=
  mkState (A s) (b s) (c s) (co s) (lb s) (ub s) (of_sense s) (cons_senses s)
    (variable_names s) (original_row_index s) (original_column_index s)
    v (operation_table s) (warnings s).

Definition set_operation_table (v : list operation) (s : lp_state) : lp_state :=
  mkState (A s) (b s) (c s) (co s) (lb s) (ub s) (of_sense s) (cons_senses s)
    (variable_names s) (original_row_index s) (original_column_index s)
    (change_dictionary s) v (warnings s).

Definition set_warnings (v : list warning) (s : lp_state) : lp_state :=
  mkState (A s) (b s) (c s) (co s) (lb s) (ub s) (of_sense s) (cons_senses s)
    (variable_names s) (original_row_index s) (original_column_index s)
    (change_dictionary s) (operation_table s) v.

(** [warnings.warn(..., RuntimeWarning)] *)
Definition warn (w : warning) (s : lp_state) : lp_state :=
  set_warnings (warnings s ++ [w]) s.

Definition warn_all (ws : list warning) (s : lp_state) : lp_state :=
  set_warnings (warnings s ++ ws) s.

(** The keys [[k1][k2]] and [[k1][k2][k3]] of a journal entry *)
Definition path2 (k1 k2 : string) : list string := [k1; k2].
Definition path3 (k1 k2 k3 : string) : list string := [k1; k2; k3].

(** [self.change_dictionary[k1]...[kn] = v] *)
Definition record_change (path : list string) (v : jvalue) (s : lp_state) : lp_state :=
  set_change_dictionary (journal_set path v (change_dictionary s)) s.

(** [self.operation_table.append((label, len(self.cons_senses),
    len(self.variable_names), self.A.nnz))] *)
Definition record_operation (label : string) (s : lp_state) : lp_state :=
  set_operation_table
    (operation_table s ++
       [(label, length (cons_senses s), length (variable_names s), nnz (A s))]) s.

(** The loop every row-deleting rule ends with:
    [for index in sorted(to_delete, reverse=True): del self.b[index];
     del self.cons_senses[index]; del self.original_row_index[index]]. *)
Definition del_row_entries (to_delete : list nat) (s : lp_state) : result lp_state :=
  for_each (sorted_desc to_delete)
    (fun index s =>
       b' <- py_del index (b s) ;;
       cs' <- py_del index (cons_senses s) ;;
       o' <- py_del index (original_row_index s) ;;
       Ok (set_original_row_index o' (set_cons_senses cs' (set_b b' s))))
    s.

(** ** Negative counterparts *)

(** [r2 == -r1] and [b2 == -b1] *)
Definition negated_row (r1 : list Q) (b1 : Q) (r2 : list Q) (b2 : Q) : bool :=
  (length r1 =? length r2)
  && forallb (fun p => qeqb (snd p) (- fst p)) (combine r1 r2)
  && qeqb b2 (- b1).

Definition find_mate (rb : list (list Q * Q)) (i : nat) (ri : list Q) (bi : Q)
  : option nat :=
  find (fun j => negb (j =? i)
                 && match nth_error rb j with
                    | Some (rj, bj) => negated_row ri bi rj bj
                    | None => false
                    end)
       (seq 0 (length rb)).

Definition is_some {T : Type} (o : option T) : bool :=
  match o with Some _ => true | None => false end.

(** Modelled from the spec: [find_corresponding_negative_rows_with_indices]
    lives in [utils_functions], which is not part of the sources at hand.
    Section 4.3: [has_pair[i]] iff some row [j <> i] has [A[j,:] == -A[i,:]]
    and [b[j] == -b[i]]; [mate[i]] is such a [j] (here: the first one), and
    is undefined ([None]) when there is none. *)
Definition find_corresponding_negative_rows_with_indices (M : matrix) (bv : list Q)
  : list bool * list (option nat) :=
  let rb := combine (mrows M) bv in
  let mates := map (fun p => find_mate rb (fst p) (fst (snd p)) (snd (snd p)))
                   (combine (seq 0 (length rb)) rb) in
  (map is_some mates, mates).

(** [indices_list[i]] for a row that has a counterpart *)
Definition get_mate (indices_list : list (option nat)) (i : nat) : result nat :=
  o <- getitem indices_list i ;;
  match o with
  | Some j => Ok j
  | None => Raise IndexError
  end.

(** [np.logical_and(x, y)] *)
Definition logical_and (x y : list bool) : list bool :=
  map (fun p => fst p && snd p) (combine x y).

(** [np.where(v)[0][0] if np.any(v) else None] *)
Fixpoint first_true_from (pos : nat) (v : list bool) : option nat :=
  match v with
  | [] => None
  | true :: _ => Some pos
  | false :: t => first_true_from (S pos) t
  end.

Definition first_true (v : list bool) : option nat := first_true_from 0 v.

(** [x - y * k] on vectors; NumPy refuses to broadcast different lengths. *)
Definition vec_sub_scaled (x y : list Q) (k : Q) : result (list Q) :=
  if length x =? length y
  then Ok (map (fun p => qsub (fst p) (qmul (snd p) k)) (combine x y))
  else Raise ValueError.

(** ** Rule: zero rows *)

(** The [for i in range(num_rows)] loop of [eliminate_zero_rows]:
    accumulates [to_delete], [to_delete_original] and the warnings. *)
Definition zero_rows_scan (s : lp_state)
  : result (list nat * list nat * list warning) :=
  for_each (seq 0 (nrows (A s)))
    (fun i acc =>
       let '(to_delete, to_delete_original, ws) := acc in
       row_values <- getitem (mrows (A s)) i ;;
       if forallb qzero row_values then
         b_i <- getitem (b s) i ;;
         if qleb b_i 0 then
           o <- getitem (original_row_index s) i ;;
           Ok (to_delete ++ [i], to_delete_original ++ [o], ws)
         else Ok (to_delete, to_delete_original, ws ++ [Infeasibility])
       else Ok acc)
    ([], [], []).

Definition eliminate_zero_rows (s : lp_state) : result lp_state :=
  '(to_delete, to_delete_original, ws) <- zero_rows_scan s ;;
  let s := warn_all ws s in
  A' <- np_delete_rows to_delete (A s) ;;
  let s := set_A A' s in
  s <- del_row_entries to_delete s ;;
  let s := record_change (path2 "eliminate_zero_rows" "deleted_rows_indices")
             (JList to_delete_original) s in
  Ok (record_operation "Eliminate Zero Rows" s).

(** ** Rule: zero columns *)

Definition zero_columns_scan (s : lp_state)
  : result (list nat * list nat * list (string * jvalue) * list warning) :=
  for_each (seq 0 (ncols (A s)))
    (fun j acc =>
       let '(to_delete, to_delete_original, solution, ws) := acc in
       let col := column j (A s) in
       if forallb qzero col then
         c_j <- getitem (c s) j ;;
         if qleb 0 c_j then
           o <- getitem (original_column_index s) j ;;
           var_to_del <- getitem (variable_names s) j ;;
           Ok (to_delete ++ [j], to_delete_original ++ [o],
               dict_set var_to_del (JInt 0) solution, ws)
         else Ok (to_delete, to_delete_original, solution, ws ++ [Unboundedness])
       else Ok acc)
    ([], [], [], []).

Definition eliminate_zero_columns (s : lp_state) : result lp_state :=
  '(to_delete, to_delete_original, solution, ws) <- zero_columns_scan s ;;
  let s := warn_all ws s in
  A' <- np_delete_cols to_delete (A s) ;;
  let s := set_A A' s in
  s <- for_each (sorted_desc to_delete)
         (fun index s =>
            c' <- py_del index (c s) ;;
            n' <- py_del index (variable_names s) ;;
            lb' <- bounds_np_delete [index] (lb s) ;;
            ub' <- bounds_np_delete [index] (ub s) ;;
            o' <- py_del index (original_column_index s) ;;
            Ok (set_original_column_index o'
                  (set_ub ub' (set_lb lb' (set_variable_names n' (set_c c' s))))))
         s ;;
  let s := record_change (path2 "eliminate_zero_columns" "deleted_columns")
             (JList to_delete_original) s in
  let s := record_change (path2 "eliminate_zero_columns" "solution")
             (JDict solution) s in
  Ok (record_operation "Eliminate Zero Columns" s).

(** ** Rule: singleton equalities *)

(** Rows with exactly [k] nonzeros that have a negative counterpart, and the
    mates: [np.logical_and(nonzero_count_per_row == k, has_negative_counterpart)]. *)
Definition equality_rows (k : nat) (s : lp_state) : list bool * list (option nat) :=
  let nonzero_count_per_row := map count_nonzero (mrows (A s)) in
  let k_nonzero := map (fun n => n =? k) nonzero_count_per_row in
  let '(has_negative_counterpart, indices_list) :=
    find_corresponding_negative_rows_with_indices (A s) (b s) in
  (logical_and k_nonzero has_negative_counterpart, indices_list).

(** One pass of the [while found_singleton] loop; the boolean is
    [found_singleton] at the end of the pass. *)
Definition singleton_equalities_pass (solution : list (string * jvalue)) (s : lp_state)
  : result (bool * list (string * jvalue) * lp_state) :=
  let '(valid_rows, indices_list) := equality_rows 1 s in
  match first_true valid_rows with
  | None => Ok (false, solution, s)
  | Some first_singleton_index =>
      singleton_row <- getitem (mrows (A s)) first_singleton_index ;;
      k_index <- first_nonzero singleton_row ;;
      b_i <- getitem (b s) first_singleton_index ;;
      a_ik <- getitem singleton_row k_index ;;
      let x_k := qdiv b_i a_ik in
      if qleb 0 x_k then
        mate <- get_mate indices_list first_singleton_index ;;
        let index_rows_to_delete := [first_singleton_index; mate] in
        o1 <- getitem (original_row_index s) first_singleton_index ;;
        o2 <- getitem (original_row_index s) mate ;;
        let index_original_rows_to_delete := [o1; o2] in
        index_original_columns_to_delete <- getitem (original_column_index s) k_index ;;
        var_to_del <- getitem (variable_names s) k_index ;;
        let solution := dict_set var_to_del (JNum x_k) solution in
        b' <- vec_sub_scaled (b s) (column k_index (A s)) x_k ;;
        let s := set_b b' s in
        s <- del_row_entries index_rows_to_delete s ;;
        c_k <- getitem (c s) k_index ;;
        let s := if qnonzero c_k then set_co (qsub (co s) (qmul c_k x_k)) s else s in
        A1 <- np_delete_rows index_rows_to_delete (A s) ;;
        A2 <- np_delete_cols [k_index] A1 ;;
        let s := set_A A2 s in
        c' <- py_del k_index (c s) ;;
        lb' <- bounds_np_delete [k_index] (lb s) ;;
        ub' <- bounds_np_delete [k_index] (ub s) ;;
        n' <- py_del k_index (variable_names s) ;;
        o' <- py_del k_index (original_column_index s) ;;
        let s := set_original_column_index o'
                   (set_variable_names n' (set_ub ub' (set_lb lb' (set_c c' s)))) in
        let s := record_change
                   (path3 "eliminate_singleton_equalities" var_to_del "deleted_variables_indices")
                   (JInt index_original_columns_to_delete) s in
        let s := record_change
                   (path3 "eliminate_singleton_equalities" var_to_del "deleted_rows_indices")
                   (JList index_original_rows_to_delete) s in
        Ok (true, solution, s)
      else
        Ok (true, solution, warn Infeasibility s)
  end.

(** [while found_singleton: ...] *)
Fixpoint singleton_equalities_loop (fuel : nat) (solution : list (string * jvalue))
  (s : lp_state) : result (list (string * jvalue) * lp_state) :=
  match fuel with
  | O => OutOfFuel
  | S fuel' =>
      '(found_singleton, solution, s) <- singleton_equalities_pass solution s ;;
      if (found_singleton : bool) then singleton_equalities_loop fuel' solution s
      else Ok (solution, s)
  end.

Definition eliminate_singleton_equalities (fuel : nat) (s : lp_state) : result lp_state :=
  '(solution, s) <- singleton_equalities_loop fuel [] s ;;
  let s := record_change (path2 "eliminate_singleton_equalities" "solutions")
             (JDict solution) s in
  Ok (record_operation "Eliminate Singleton Equalities" s).

(** ** Rule: k-ton equalities *)

(** Body of [for i in range(self.A.A.shape[0])] for a row [i] other than the
    k-ton row: [self.b[i] -= A[i,k] * b[first]] and
    [self.A[i,:] -= A[i,k] * A[first,:]]. *)
Definition kton_eliminate_row (first_kton_index kton_column i : nat) (s : lp_state)
  : result lp_state :=
  row_i <- getitem (mrows (A s)) i ;;
  a_ik <- getitem row_i kton_column ;;
  b_first <- getitem (b s) first_kton_index ;;
  b_i <- getitem (b s) i ;;
  b' <- setitem i (qsub b_i (qmul a_ik b_first)) (b s) ;;
  let s := set_b b' s in
  row_first <- getitem (mrows (A s)) first_kton_index ;;
  row_i' <- vec_sub_scaled row_i row_first a_ik ;;
  rows' <- setitem i row_i' (mrows (A s)) ;;
  Ok (set_A (mkMatrix rows' (ncols (A s))) s).

(** One pass of the [while found_kton] loop. *)
Definition kton_equalities_pass (k : nat) (solution : list (string * jvalue))
  (s : lp_state) : result (bool * list (string * jvalue) * lp_state) :=
  let '(valid_rows, indices_list) := equality_rows k s in
  match first_true valid_rows with
  | None => Ok (false, solution, s)
  | Some first_kton_index =>
      kton_row <- getitem (mrows (A s)) first_kton_index ;;
      mate <- get_mate indices_list first_kton_index ;;
      o1 <- getitem (original_row_index s) first_kton_index ;;
      o2 <- getitem (original_row_index s) mate ;;
      let index_original_rows_to_delete := [o1; o2] in
      kton_column <- last_nonzero kton_row ;;
      index_original_columns_to_delete <- getitem (original_column_index s) kton_column ;;
      var_to_del <- getitem (variable_names s) kton_column ;;
      b_first <- getitem (b s) first_kton_index ;;
      let solution := dict_set var_to_del (JExpr kton_row b_first) solution in
      pivot <- getitem kton_row kton_column ;;
      b' <- setitem first_kton_index (qdiv b_first pivot) (b s) ;;
      let s := set_b b' s in
      rows' <- setitem first_kton_index (map (fun x => qdiv x pivot) kton_row)
                 (mrows (A s)) ;;
      let s := set_A (mkMatrix rows' (ncols (A s))) s in
      s <- for_each (seq 0 (nrows (A s)))
             (fun i s => if i =? first_kton_index then Ok s
                         else kton_eliminate_row first_kton_index kton_column i s)
             s ;;
      c_k <- getitem (c s) kton_column ;;
      b_first <- getitem (b s) first_kton_index ;;
      let s := set_co (qadd (co s) (qmul c_k b_first)) s in
      row_first <- getitem (mrows (A s)) first_kton_index ;;
      c' <- vec_sub_scaled (c s) row_first c_k ;;
      let s := set_c c' s in
      A' <- np_delete_cols [kton_column] (A s) ;;
      let s := set_A A' s in
      c' <- py_del kton_column (c s) ;;
      lb' <- bounds_np_delete [kton_column] (lb s) ;;
      ub' <- bounds_np_delete [kton_column] (ub s) ;;
      n' <- py_del kton_column (variable_names s) ;;
      o' <- py_del kton_column (original_column_index s) ;;
      let s := set_original_column_index o'
                 (set_variable_names n' (set_ub ub' (set_lb lb' (set_c c' s)))) in
      row_first <- getitem (mrows (A s)) first_kton_index ;;
      rows' <- setitem first_kton_index (map (qmul (-1)) row_first) (mrows (A s)) ;;
      let s := set_A (mkMatrix rows' (ncols (A s))) s in
      b_first <- getitem (b s) first_kton_index ;;
      b' <- setitem first_kton_index (qmul (-1) b_first) (b s) ;;
      let s := set_b b' s in
      A' <- np_delete_rows [mate] (A s) ;;
      let s := set_A A' s in
      b' <- py_del mate (b s) ;;
      cs' <- py_del mate (cons_senses s) ;;
      o' <- py_del mate (original_row_index s) ;;
      let s := set_original_row_index o' (set_cons_senses cs' (set_b b' s)) in
      let s := record_change
                 (path3 "eliminate_kton_equalities" var_to_del "deleted_variables_indices")
                 (JInt index_original_columns_to_delete) s in
      let s := record_change
                 (path3 "eliminate_kton_equalities" var_to_del "deleted_rows_indices")
                 (JList index_original_rows_to_delete) s in
      let s := record_change (path2 "eliminate_kton_equalities" "solutions")
                 (JDict solution) s in
      Ok (true, solution, s)
  end.

(** [while found_kton: ...] *)
Fixpoint kton_equalities_loop (fuel k : nat) (solution : list (string * jvalue))
  (s : lp_state) : result lp_state :=
  match fuel with
  | O => OutOfFuel
  | S fuel' =>
      '(found_kton, solution, s) <- kton_equalities_pass k solution s ;;
      if (found_kton : bool) then kton_equalities_loop fuel' k solution s
      else Ok s
  end.

Definition eliminate_kton_equalities (fuel k : nat) (s : lp_state) : result lp_state :=
  s <- kton_equalities_loop fuel k [] s ;;
  Ok (record_operation "Eliminate Kton Equalities" s).

(** ** Rules: singleton inequalities, dual singletons, redundant columns *)

(** The four lists these rules build, and the warnings they emit. *)
Record marks := mkMarks {
  to_delete_constraint : list nat;
  to_delete_variable : list nat;
  to_delete_constraint_original : list nat;
  to_delete_variable_original : list nat;
  emitted : list warning
}.

Definition no_marks : marks := mkMarks [] [] [] [] [].

Definition mark_constraint (i : nat) (m : marks) : marks :=
  mkMarks (to_delete_constraint m ++ [i]) (to_delete_variable m)
    (to_delete_constraint_original m) (to_delete_variable_original m) (emitted m).

Definition mark_constraint_original (o : nat) (m : marks) : marks :=
  mkMarks (to_delete_constraint m) (to_delete_variable m)
    (to_delete_constraint_original m ++ [o]) (to_delete_variable_original m) (emitted m).

Definition mark_variable (j : nat) (m : marks) : marks :=
  mkMarks (to_delete_constraint m) (to_delete_variable m ++ [j])
    (to_delete_constraint_original m) (to_delete_variable_original m) (emitted m).

Definition mark_variable_original (o : nat) (m : marks) : marks :=
  mkMarks (to_delete_constraint m) (to_delete_variable m)
    (to_delete_constraint_original m) (to_delete_variable_original m ++ [o]) (emitted m).

Definition mark_warning (w : warning) (m : marks) : marks :=
  mkMarks (to_delete_constraint m) (to_delete_variable m)
    (to_delete_constraint_original m) (to_delete_variable_original m) (emitted m ++ [w]).

Definition singleton_inequalities_scan (s : lp_state) : result marks :=
  let nonzero_count_per_row := map count_nonzero (mrows (A s)) in
  let single_nonzero := map (fun n => n =? 1) nonzero_count_per_row in
  let '(has_negative_counterpart, indices_list) :=
    find_corresponding_negative_rows_with_indices (A s) (b s) in
  let negated_list := map negb has_negative_counterpart in
  let valid_rows := logical_and single_nonzero negated_list in
  for_each (seq 0 (nrows (A s)))
    (fun i m =>
       valid <- getitem valid_rows i ;;
       if (valid : bool) then
         singleton_row <- getitem (mrows (A s)) i ;;
         k_index <- first_nonzero singleton_row ;;
         A_ik <- getitem singleton_row k_index ;;
         b_i <- getitem (b s) i ;;
         if qltb 0 A_ik && qltb b_i 0 then
           o <- getitem (original_row_index s) i ;;
           Ok (mark_constraint_original o (mark_constraint i m))
         else if qltb A_ik 0 && qltb 0 b_i then
           Ok (mark_warning Infeasibility m)
         else if qltb 0 A_ik && qeqb b_i 0 then
           Ok (mark_constraint i m)
         else if qltb A_ik 0 && qeqb b_i 0 then
           o <- getitem (original_row_index s) i ;;
           oc <- getitem (original_column_index s) k_index ;;
           Ok (mark_variable_original oc (mark_variable k_index
                 (mark_constraint_original o (mark_constraint i m))))
         else Ok m
       else Ok m)
    no_marks.

Definition eliminate_singleton_inequalities (s : lp_state) : result lp_state :=
  m <- singleton_inequalities_scan s ;;
  let s := warn_all (emitted m) s in
  A1 <- np_delete_rows (to_delete_constraint m) (A s) ;;
  A2 <- np_delete_cols (to_delete_variable m) A1 ;;
  let s := set_A A2 s in
  s <- del_row_entries (to_delete_constraint m) s ;;
  s <- for_each (sorted_desc (to_delete_variable m))
         (fun index s =>
            c' <- py_del index (c s) ;;
            lb' <- bounds_del index (lb s) ;;
            ub' <- bounds_del index (ub s) ;;
            n' <- py_del index (variable_names s) ;;
            o' <- py_del index (original_column_index s) ;;
            Ok (set_original_column_index o'
                  (set_variable_names n' (set_ub ub' (set_lb lb' (set_c c' s))))))
         s ;;
  let s := record_change
             (path2 "eliminate_singleton_inequalities" "deleted_variables_indices")
             (JList (to_delete_variable_original m)) s in
  let s := record_change
             (path2 "eliminate_singleton_inequalities" "deleted_rows_indices")
             (JList (to_delete_constraint_original m)) s in
  Ok (record_operation "Eliminate Singleton Inequalities" s).

Definition dual_singleton_inequalities_scan (s : lp_state) : result marks :=
  let nonzero_count_per_column :=
    map (fun j => count_nonzero (column j (A s))) (seq 0 (ncols (A s))) in
  let valid_columns := map (fun n => n =? 1) nonzero_count_per_column in
  for_each (seq 0 (ncols (A s)))
    (fun j m =>
       valid <- getitem valid_columns j ;;
       if (valid : bool) then
         let singleton_column := column j (A s) in
         r_index <- first_nonzero singleton_column ;;
         A_ik <- getitem singleton_column r_index ;;
         c_j <- getitem (c s) j ;;
         if qltb 0 A_ik && qltb c_j 0 then
           Ok (mark_warning Infeasibility m)
         else if qltb A_ik 0 && qltb 0 c_j then
           oc <- getitem (original_column_index s) j ;;
           Ok (mark_variable_original oc (mark_variable j m))
         else if qltb 0 A_ik && qeqb c_j 0 then
           oc <- getitem (original_column_index s) j ;;
           o <- getitem (original_row_index s) r_index ;;
           Ok (mark_constraint_original o (mark_constraint r_index
                 (mark_variable_original oc (mark_variable j m))))
         else if qltb A_ik 0 && qeqb c_j 0 then
           oc <- getitem (original_column_index s) j ;;
           Ok (mark_variable_original oc (mark_variable j m))
         else Ok m
       else Ok m)
    no_marks.

(** [for index in sorted(to_delete_variable, reverse=True): del self.c[index];
     del self.variable_names[index]; del self.original_column_index[index]] *)
Definition del_column_entries (to_delete : list nat) (s : lp_state) : result lp_state :=
  for_each (sorted_desc to_delete)
    (fun index s =>
       c' <- py_del index (c s) ;;
       n' <- py_del index (variable_names s) ;;
       o' <- py_del index (original_column_index s) ;;
       Ok (set_original_column_index o' (set_variable_names n' (set_c c' s))))
    s.

Definition eliminate_dual_singleton_inequalities (s : lp_state) : result lp_state :=
  m <- dual_singleton_inequalities_scan s ;;
  let s := warn_all (emitted m) s in
  A1 <- np_delete_rows (to_delete_constraint m) (A s) ;;
  A2 <- np_delete_cols (to_delete_variable m) A1 ;;
  let s := set_A A2 s in
  s <- del_row_entries (to_delete_constraint m) s ;;
  s <- del_column_entries (to_delete_variable m) s ;;
  lb' <- bounds_np_delete (to_delete_variable m) (lb s) ;;
  ub' <- bounds_np_delete (to_delete_variable m) (ub s) ;;
  let s := set_ub ub' (set_lb lb' s) in
  let s := record_change
             (path2 "eliminate_dual_singleton_inequalities" "deleted_variables_indices")
             (JList (to_delete_variable_original m)) s in
  let s := record_change
             (path2 "eliminate_dual_singleton_inequalities" "deleted_rows_indices")
             (JList (to_delete_constraint_original m)) s in
  Ok (record_operation "Eliminate Dual Singleton Inequalities" s).

Definition redundant_columns_scan (s : lp_state) : result marks :=
  let b_zero := map qzero (b s) in
  let non_negative_elements := map (forallb (fun x => qleb 0 x)) (mrows (A s)) in
  let non_positive_elements := map (forallb (fun x => qleb x 0)) (mrows (A s)) in
  let '(has_negative_counterpart, indices_list) :=
    find_corresponding_negative_rows_with_indices (A s) (b s) in
  let combined_condition :=
    logical_and (logical_and b_zero has_negative_counterpart)
      (map (fun p => fst p || snd p)
           (combine non_negative_elements non_positive_elements)) in
  for_each (seq 0 (nrows (A s)))
    (fun i m =>
       cond <- getitem combined_condition i ;;
       if (cond : bool) then
         m <- (if in_idx i (to_delete_constraint m) then Ok m
               else o <- getitem (original_row_index s) i ;;
                    Ok (mark_constraint_original o (mark_constraint i m))) ;;
         row_i <- getitem (mrows (A s)) i ;;
         for_each (np_nonzero row_i)
           (fun index m =>
              if in_idx index (to_delete_variable m) then Ok m
              else oc <- getitem (original_column_index s) index ;;
                   Ok (mark_variable_original oc (mark_variable index m)))
           m
       else Ok m)
    no_marks.

Definition eliminate_redundant_columns (s : lp_state) : result lp_state :=
  m <- redundant_columns_scan s ;;
  A1 <- np_delete_rows (to_delete_constraint m) (A s) ;;
  A2 <- np_delete_cols (to_delete_variable m) A1 ;;
  let s := set_A A2 s in
  s <- del_row_entries (to_delete_constraint m) s ;;
  lb' <- bounds_np_delete (to_delete_variable m) (lb s) ;;
  ub' <- bounds_np_delete (to_delete_variable m) (ub s) ;;
  let s := set_ub ub' (set_lb lb' s) in
  s <- del_column_entries (to_delete_variable m) s ;;
  let s := record_change
             (path2 "eliminate_redundant_columns" "deleted_variables_indices")
             (JList (to_delete_variable_original m)) s in
  let s := record_change
             (path2 "eliminate_redundant_columns" "deleted_rows_indices")
             (JList (to_delete_constraint_original m)) s in
  Ok (record_operation "Eliminate Redundant Columns" s).

(** ** Row activities and implied bounds *)

(** The inner [for j in range(num_cols)] loop of [get_row_activities] on
    one row: support, minimal and maximal activity. *)
Definition row_activity (row : list Q) (num_cols : nat) (s : lp_state)
  : result (list nat * Q * Q) :=
  for_each (seq 0 num_cols)
    (fun j acc =>
       let '(support, min_activity, max_activity) := acc in
       a_ij <- getitem row j ;;
       l_j <- getitem (items (lb s)) j ;;
       u_j <- getitem (items (ub s)) j ;;
       if qnonzero a_ij then
         if qltb 0 a_ij then
           Ok (support ++ [j], qadd min_activity (qmul a_ij l_j),
               qadd max_activity (qmul a_ij u_j))
         else
           Ok (support ++ [j], qadd min_activity (qmul a_ij u_j),
               qadd max_activity (qmul a_ij l_j))
       else Ok acc)
    ([], 0%Q, 0%Q).

Definition get_row_activities (s : lp_state)
  : result (list (list nat) * list Q * list Q) :=
  for_each (mrows (A s))
    (fun row acc =>
       let '(SUPP, INF, SUP) := acc in
       '(support, min_activity, max_activity) <- row_activity row (ncols (A s)) s ;;
       Ok (SUPP ++ [support], INF ++ [min_activity], SUP ++ [max_activity]))
    ([], [], []).

Definition default_feasibility_tolerance : Q := 1 # 1000000.
Definition default_infinity : Q := inject_Z (10 ^ 30).

Definition implied_bounds_scan (feasibility_tolerance infinity : Q) (s : lp_state)
  : result marks :=
  '(SUPP, INF, SUP) <- get_row_activities s ;;
  for_each (seq 0 (nrows (A s)))
    (fun i m =>
       b_i <- getitem (b s) i ;;
       m <- (if qleb infinity b_i then
               o <- getitem (original_row_index s) i ;;
               Ok (mark_constraint_original o (mark_constraint i m))
             else Ok m) ;;
       INF_i <- getitem INF i ;;
       m <- (if qltb (qadd b_i feasibility_tolerance) INF_i then
               o <- getitem (original_row_index s) i ;;
               Ok (mark_constraint_original o (mark_constraint i m))
             else Ok m) ;;
       SUP_i <- getitem SUP i ;;
       if qltb SUP_i (qadd b_i feasibility_tolerance)
       then Ok (mark_warning Infeasibility m)
       else Ok m)
    no_marks.

Definition eliminate_implied_bounds_with (feasibility_tolerance infinity : Q)
  (s : lp_state) : result lp_state :=
  m <- implied_bounds_scan feasibility_tolerance infinity s ;;
  let s := warn_all (emitted m) s in
  A' <- np_delete_rows (to_delete_constraint m) (A s) ;;
  let s := set_A A' s in
  s <- del_row_entries (to_delete_constraint m) s ;;
  let s := record_change (path2 "eliminate_implied_bounds" "deleted_rows_indices")
             (JList (to_delete_constraint_original m)) s in
  Ok (record_operation "Eliminate Implied Bounds" s).

(** The orchestrator calls the rule with its default arguments. *)
Definition eliminate_implied_bounds : lp_state -> result lp_state :=
  eliminate_implied_bounds_with default_feasibility_tolerance default_infinity.

(** ** The instance and its configuration *)

(** What [get_model_matrices(self.model)] returns, in its order. *)
Record model_matrices := mkModel {
  model_A : matrix;
  model_b : list Q;
  model_c : list Q;
  model_co : Q;
  model_lb : bounds;
  model_ub : bounds;
  model_of_sense : objective_sense;
  model_cons_senses : list constraint_sense;
  model_variable_names : list string
}.

(** The arguments of [PresolveComillas.__init__]. *)
Record PresolveComillas := mkPresolve {
  model : option model_matrices;
  perform_eliminate_zero_rows : bool;
  perform_eliminate_zero_columns : bool;
  perform_eliminate_singleton_equalities : bool;
  perform_eliminate_kton_equalities : bool;
  k : nat;
  perform_eliminate_singleton_inequalities : bool;
  perform_eliminate_dual_singleton_inequalities : bool;
  perform_eliminate_redundant_columns : bool;
  perform_eliminate_implied_bounds : bool;
  perform_eliminate_redundant_rows : bool;
  perform_reduction_small_coefficients : bool
}.

(** [load_model_matrices] on an instance as [__init__] leaves it: empty
    journal, empty operation table. *)
Definition load_model_matrices (p : PresolveComillas) : result lp_state :=
  match model p with
  | None => Raise ValueError
  | Some m =>
      let s := mkState (model_A m) (model_b m) (model_c m) (model_co m)
                 (model_lb m) (model_ub m) (model_of_sense m)
                 (model_cons_senses m) (model_variable_names m)
                 (seq 0 (nrows (model_A m))) (seq 0 (ncols (model_A m)))
                 [] [] [] in
      Ok (record_operation "Initial" s)
  end.

(** What [orchestrator_presolve_operations] returns:
    [(A, b, c, lb, ub, of_sense, cons_senses, co, variable_names,
      change_dictionary, operation_table)]. *)
Definition presolve_output : Type :=
  (matrix * list Q * list Q * bounds * bounds * objective_sense
   * list constraint_sense * Q * list string * journal * list operation)%type.

Definition output_of (s : lp_state) : presolve_output :=
  (A s, b s, c s, lb s, ub s, of_sense s, cons_senses s, co s,
   variable_names s, change_dictionary s, operation_table s).

(** [if flag: rule()] *)
Definition when (flag : bool) (rule : lp_state -> result lp_state) (s : lp_state)
  : result lp_state :=
  if flag then rule s else Ok s.

Section Engine.

(** The helpers of [utils_functions] whose code is not at hand, taken as
    parameters: the dependency detector and the two halves of the
    sparsification. *)
Variable linear_dependency : matrix -> list Q -> list (list nat) * list bool.
Variable normalize_features : matrix -> list Q -> matrix.
Variable matrix_sparsification : Q -> matrix -> matrix -> matrix.

(** ** Rule: redundant rows *)

Definition redundant_rows_scan (s : lp_state) : result (list nat * list nat) :=
  let '(dependent_rows, has_linear_dependency) := linear_dependency (A s) (b s) in
  let '(has_negative_counterpart, indices_list) :=
    find_corresponding_negative_rows_with_indices (A s) (b s) in
  for_each (seq 0 (nrows (A s)))
    (fun i acc =>
       if in_idx i (fst acc) then Ok acc
       else
         dep <- getitem has_linear_dependency i ;;
         if (dep : bool) then
           list_of_dependencies <- getitem dependent_rows i ;;
           negative_counterpart_index <- getitem indices_list i ;;
           for_each list_of_dependencies
             (fun j acc =>
                let '(to_delete, to_delete_original) := acc in
                let is_mate := match negative_counterpart_index with
                               | Some m => j =? m
                               | None => false
                               end in
                if negb is_mate then
                  if in_idx j to_delete then Ok acc
                  else o <- getitem (original_row_index s) j ;;
                       Ok (to_delete ++ [j], to_delete_original ++ [o])
                else Ok acc)
             acc
         else Ok acc)
    ([], []).

Definition eliminate_redundant_rows (s : lp_state) : result lp_state :=
  '(to_delete_constraint, to_delete_constraint_original) <- redundant_rows_scan s ;;
  A' <- np_delete_rows to_delete_constraint (A s) ;;
  let s := set_A A' s in
  s <- del_row_entries to_delete_constraint s ;;
  let s := record_change (path2 "eliminate_redundant_rows" "deleted_rows_indices")
             (JList to_delete_constraint_original) s in
  Ok (record_operation "Eliminate Redundant Rows" s).

(** ** Rule: small coefficients *)

(** [threshold=5*10e-2], that is 0.5 *)
Definition default_threshold : Q := 1 # 2.

Definition reduction_small_coefficients (s : lp_state) : result lp_state :=
  let A_norm := normalize_features (A s) (b s) in
  let s := set_A (matrix_sparsification default_threshold A_norm (A s)) s in
  Ok (record_operation "reduction Small Coefficients" s).

(** ** The orchestrator *)

(** [fuel] bounds the passes of each of the two [while] loops. *)
Definition orchestrator_presolve_operations (fuel : nat) (p : PresolveComillas)
  : result presolve_output :=
  s <- load_model_matrices p ;;
  s <- when (perform_reduction_small_coefficients p) reduction_small_coefficients s ;;
  s <- when (perform_eliminate_implied_bounds p) eliminate_implied_bounds s ;;
  s <- when (perform_eliminate_redundant_rows p) eliminate_redundant_rows s ;;
  s <- when (perform_eliminate_kton_equalities p)
         (eliminate_kton_equalities fuel (k p)) s ;;
  s <- when (perform_eliminate_singleton_equalities p)
         (eliminate_singleton_equalities fuel) s ;;
  s <- when (perform_eliminate_singleton_inequalities p)
         eliminate_singleton_inequalities s ;;
  s <- when (perform_eliminate_dual_singleton_inequalities p)
         eliminate_dual_singleton_inequalities s ;;
  s <- when (perform_eliminate_redundant_columns p) eliminate_redundant_columns s ;;
  s <- when (perform_eliminate_zero_rows p) eliminate_zero_rows s ;;
  s <- when (perform_eliminate_zero_columns p) eliminate_zero_columns s ;;
  Ok (output_of s).

End Engine.

(** ** Rule order, as a table *)

Inductive rule :=
| SmallCoefficients | ImpliedBounds | RedundantRows | KtonEqualities
| SingletonEqualities | SingletonInequalities | DualSingletonInequalities
| RedundantColumns | ZeroRows | ZeroColumns.

(** The fixed order of section 4.1 of the specification. *)
Definition rule_order : list rule :=
  [SmallCoefficients; ImpliedBounds; RedundantRows; KtonEqualities;
   SingletonEqualities; SingletonInequalities; DualSingletonInequalities;
   RedundantColumns; ZeroRows; ZeroColumns].

Definition enabled (p : PresolveComillas) (r : rule) : bool :=
  match r with
  | SmallCoefficients => perform_reduction_small_coefficients p
  | ImpliedBounds => perform_eliminate_implied_bounds p
  | RedundantRows => perform_eliminate_redundant_rows p
  | KtonEqualities => perform_eliminate_kton_equalities p
  | SingletonEqualities => perform_eliminate_singleton_equalities p
  | SingletonInequalities => perform_eliminate_singleton_inequalities p
  | DualSingletonInequalities => perform_eliminate_dual_singleton_inequalities p
  | RedundantColumns => perform_eliminate_redundant_columns p
  | ZeroRows => perform_eliminate_zero_rows p
  | ZeroColumns => perform_eliminate_zero_columns p
  end.

(** The label a rule writes into the operation table. *)
Definition rule_label (r : rule) : string :=
  match r with
  | SmallCoefficients => "reduction Small Coefficients"
  | ImpliedBounds => "Eliminate Implied Bounds"
  | RedundantRows => "Eliminate Redundant Rows"
  | KtonEqualities => "Eliminate Kton Equalities"
  | SingletonEqualities => "Eliminate Singleton Equalities"
  | SingletonInequalities => "Eliminate Singleton Inequalities"
  | DualSingletonInequalities => "Eliminate Dual Singleton Inequalities"
  | RedundantColumns => "Eliminate Redundant Columns"
  | ZeroRows => "Eliminate Zero Rows"
  | ZeroColumns => "Eliminate Zero Columns"
  end.

Definition operation_label (e : operation) : string := fst (fst (fst e)).
Definition operation_rows (e : operation) : nat := snd (fst (fst e)).
Definition operation_cols (e : operation) : nat := snd (fst e).
Definition operation_nnz (e : operation) : nat := snd e.

Section Pipeline.

Variable linear_dependency : matrix -> list Q -> list (list nat) * list bool.
Variable normalize_features : matrix -> list Q -> matrix.
Variable matrix_sparsification : Q -> matrix -> matrix -> matrix.

Definition apply_rule (fuel : nat) (p : PresolveComillas) (r : rule)
  : lp_state -> result lp_state :=
  match r with
  | SmallCoefficients =>
      reduction_small_coefficients normalize_features matrix_sparsification
  | ImpliedBounds => eliminate_implied_bounds
  | RedundantRows => eliminate_redundant_rows linear_dependency
  | KtonEqualities => eliminate_kton_equalities fuel (k p)
  | SingletonEqualities => eliminate_singleton_equalities fuel
  | SingletonInequalities => eliminate_singleton_inequalities
  | DualSingletonInequalities => eliminate_dual_singleton_inequalities
  | RedundantColumns => eliminate_redundant_columns
  | ZeroRows => eliminate_zero_rows
  | ZeroColumns => eliminate_zero_columns
  end.

(** The orchestrator in the specification's words: load, then apply the
    enabled rules of [rule_order] one after the other, then return. *)
Definition orchestrator_by_rule_order (fuel : nat) (p : PresolveComillas)
  : result presolve_output :=
  s <- load_model_matrices p ;;
  s <- for_each (filter (enabled p) rule_order) (apply_rule fuel p) s ;;
  Ok (output_of s).

End Pipeline.

(** ** Concrete inputs *)

(** Stand-ins for the three helper parameters, for runs in which redundant-row
    elimination and sparsification are switched off and so never call them. *)
Definition no_linear_dependency (M : matrix) (bv : list Q)
  : list (list nat) * list bool :=
  (map (fun _ => []) (mrows M), map (fun _ => false) (mrows M)).
Definition normalize_nothing (M : matrix) (bv : list Q) : matrix := M.
Definition sparsify_nothing (threshold : Q) (M_norm M : matrix) : matrix := M.

Definition run_presolve : nat -> PresolveComillas -> result presolve_output :=
  orchestrator_presolve_operations no_linear_dependency normalize_nothing
    sparsify_nothing.

(** A state as [load_model_matrices] builds it, before the first entry of
    the operation table: all rows [<=], nonnegative variables named
    [x0, x1, ...] by the caller. *)
Definition initial_state (rows : list (list Q)) (n : nat) (bv cv : list Q)
  (l u : bounds) (names : list string) : lp_state :=
  mkState (mkMatrix rows n) bv cv 0 l u Minimize (map (fun _ => SenseLe) bv)
    names (seq 0 (length rows)) (seq 0 n) [] [] [].

Definition x0 : string := "x0".
Definition x1 : string := "x1".
Definition x2 : string := "x2".

(** [x0 = -1] written as the pair [x0 <= -1], [-x0 <= 1]. *)
Definition negative_singleton_state : lp_state :=
  initial_state [[1]; [-1]]%Q 1 [-1; 1]%Q [1]%Q
    (NdArray [0]%Q) (NdArray [10]%Q) [x0].

(** Scenario 2 of the specification: a zero row with right-hand side 3. *)
Definition zero_row_infeasible_state : lp_state :=
  initial_state [[0; 0]; [1; 1]]%Q 2 [3; 2]%Q [1; 1]%Q
    (NdArray [0; 0]%Q) (NdArray [100; 100]%Q) [x0; x1].

(** Row 0 has [b >= 1e30] and, with [lb[0] = 2e30], [INF > b + 1e-6]. *)
Definition doubly_marked_state : lp_state :=
  initial_state [[1; 0]; [0; 1]]%Q 2 [inject_Z (10 ^ 30); 5]%Q [1; 1]%Q
    (NdArray [inject_Z (2 * 10 ^ 30); 0]%Q)
    (NdArray [inject_Z (3 * 10 ^ 30); 10]%Q) [x0; x1].

(** Two singleton rows [-x0 <= 0] and [-2 x0 <= 0] on the same variable. *)
Definition shared_singleton_state : lp_state :=
  initial_state [[-1; 0]; [-2; 0]; [0; 1]]%Q 2 [0; 0; 5]%Q [1; 1]%Q
    (PyList [0; 0]%Q) (PyList [10; 10]%Q) [x0; x1].

(** One singleton row [-x0 <= 0], the bounds held in NumPy arrays. *)
Definition array_bounds_state : lp_state :=
  initial_state [[-1; 0]; [1; 1]]%Q 2 [0; 5]%Q [1; 1]%Q
    (NdArray [0; 0]%Q) (NdArray [10; 10]%Q) [x0; x1].

(** The singleton row [x0 <= 0]. *)
Definition positive_singleton_zero_rhs_state : lp_state :=
  initial_state [[1]]%Q 1 [0]%Q [1]%Q (PyList [0]%Q) (PyList [10]%Q) [x0].

(** Scenario 3 of the specification: column 0 is empty and costs 5. *)
Definition zero_column_state : lp_state :=
  initial_state [[0; 1]; [0; 1]]%Q 2 [1; 1]%Q [5; 2]%Q
    (NdArray [0; 0]%Q) (NdArray [100; 100]%Q) [x0; x1].

(** Scenario 6 of the specification. *)
Definition kton_scenario_state : lp_state :=
  initial_state [[1; 2; 0]; [-1; -2; 0]; [0; 1; 1]]%Q 3 [4; -4; 5]%Q [1; 1; 1]%Q
    (NdArray [0; 0; 0]%Q) (NdArray [100; 100; 100]%Q) [x0; x1; x2].

Definition only_kton (kk : nat) (m : model_matrices) : PresolveComillas :=
  mkPresolve (Some m) false false false true kk false false false false false false.

Definition only_singleton_inequalities (m : model_matrices) : PresolveComillas :=
  mkPresolve (Some m) false false false false 5 true false false false false false.

(** [x0 + x1 + x2 = 1] as a pair of rows, and five rows [x2 <= b]. *)
Definition fill_in_model : model_matrices :=
  mkModel
    (mkMatrix [[1; 1; 1]; [-1; -1; -1]; [0; 0; 1]; [0; 0; 1]; [0; 0; 1];
               [0; 0; 1]; [0; 0; 1]]%Q 3)
    [1; -1; 1; 2; 3; 4; 5]%Q [1; 1; 1]%Q 0
    (NdArray [0; 0; 0]%Q) (NdArray [100; 100; 100]%Q) Minimize
    [SenseLe; SenseLe; SenseLe; SenseLe; SenseLe; SenseLe; SenseLe]
    [x0; x1; x2].

(** [-x0 <= 0] and [x0 + x1 <= -1]. *)
Definition exposed_singleton_model : model_matrices :=
  mkModel (mkMatrix [[-1; 0]; [1; 1]]%Q 2) [0; -1]%Q [1; 1]%Q 0
    (PyList [0; 0]%Q) (PyList [10; 10]%Q) Minimize [SenseLe; SenseLe] [x0; x1].

(** The model a caller builds from the orchestrator's output to run it again. *)
Definition model_of_output (out : presolve_output) : model_matrices :=
  let '(A', b', c', lb', ub', of_sense', cons_senses', co', names', _, _) := out in
  mkModel A' b' c' co' lb' ub' of_sense' cons_senses' names'.

Definition with_model (m : model_matrices) (p : PresolveComillas) : PresolveComillas :=
  mkPresolve (Some m) (perform_eliminate_zero_rows p)
    (perform_eliminate_zero_columns p) (perform_eliminate_singleton_equalities p)
    (perform_eliminate_kton_equalities p) (k p)
    (perform_eliminate_singleton_inequalities p)
    (perform_eliminate_dual_singleton_inequalities p)
    (perform_eliminate_redundant_columns p) (perform_eliminate_implied_bounds p)
    (perform_eliminate_redundant_rows p) (perform_reduction_small_coefficients p).

Definition output_journal (out : presolve_output) : journal := snd (fst out).
Definition output_table (out : presolve_output) : list operation := snd out.
Definition output_dimensions (out : presolve_output) : nat * nat :=
  let '(A', _, _, _, _, _, _, _, _, _, _) := out in (nrows A', ncols A').

(** A journal value with no content: every list of deleted indices is empty
    and no variable has been fixed. *)
Fixpoint jvalue_empty (v : jvalue) : bool :=
  match v with
  | JList l => match l with [] => true | _ => false end
  | JDict d =>
      (fix all_empty (d : list (string * jvalue)) : bool :=
         match d with
         | [] => true
         | (_, v') :: t => jvalue_empty v' && all_empty t
         end) d
  | _ => false
  end.

Definition journal_empty (j : journal) : bool := jvalue_empty (JDict j).

(** Monotonicity of the operation table: rows and columns never increase
    from one entry to the next, nor does nnz unless the later entry carries
    an exempt label. *)
Definition operation_step_ok (exempt : string -> bool) (e1 e2 : operation) : bool :=
  (operation_rows e2 <=? operation_rows e1)
  && (operation_cols e2 <=? operation_cols e1)
  && (exempt (operation_label e2) || (operation_nnz e2 <=? operation_nnz e1)).

Fixpoint table_monotone (exempt : string -> bool) (t : list operation) : bool :=
  match t with
  | e1 :: rest =>
      match rest with
      | e2 :: _ => operation_step_ok exempt e1 e2 && table_monotone exempt rest
      | [] => true
      end
  | [] => true
  end.

Definition sparsification_only (label : string) : bool :=
  String.eqb label "reduction Small Coefficients".

Definition sparsification_or_kton (label : string) : bool :=
  String.eqb label "reduction Small Coefficients"
  || String.eqb label "Eliminate Kton Equalities".

(** The model with another sense vector. *)
Definition model_with_senses (cs : list constraint_sense) (m : model_matrices)
  : model_matrices :=
  mkModel (model_A m) (model_b m) (model_c m) (model_co m) (model_lb m)
    (model_ub m) (model_of_sense m) cs (model_variable_names m).

(** Two outputs that agree on every component except the sense vector,
    which has the same length in both. *)
Definition same_output_but_senses (o1 o2 : presolve_output) : Prop :=
  let '(A1, b1, c1, lb1, ub1, os1, cs1, co1, names1, j1, t1) := o1 in
  let '(A2, b2, c2, lb2, ub2, os2, cs2, co2, names2, j2, t2) := o2 in
  (A1, b1, c1, lb1, ub1, os1, length cs1, co1, names1, j1, t1)
  = (A2, b2, c2, lb2, ub2, os2, length cs2, co2, names2, j2, t2).

(** The dimensional invariant of section 3 of the specification:
    [rows(A) = |b| = |cons_senses| = |original_row_index|] and
    [cols(A) = |c| = |lb| = |ub| = |variable_names| = |original_column_index|]. *)
Definition dimensions_consistent (s : lp_state) : bool :=
  (length (b s) =? nrows (A s))
  && (length (cons_senses s) =? nrows (A s))
  && (length (original_row_index s) =? nrows (A s))
  && (length (c s) =? ncols (A s))
  && (length (items (lb s)) =? ncols (A s))
  && (length (items (ub s)) =? ncols (A s))
  && (length (variable_names s) =? ncols (A s))
  && (length (original_column_index s) =? ncols (A s))
  && forallb (fun r => length r =? ncols (A s)) (mrows (A s)).

(** ** What the zero-row and zero-column rules look for *)

(** Row [i] is all zeros and [b[i] <= 0]. *)
Definition redundant_zero_row (s : lp_state) (i : nat) : bool :=
  forallb qzero (nth i (mrows (A s)) []) && qleb (nth i (b s) 0%Q) 0.

(** Row [i] is all zeros and [b[i] > 0]. *)
Definition infeasible_zero_row (s : lp_state) (i : nat) : bool :=
  forallb qzero (nth i (mrows (A s)) []) && negb (qleb (nth i (b s) 0%Q) 0).

Definition zero_rows_to_delete (s : lp_state) : list nat :=
  filter (redundant_zero_row s) (seq 0 (nrows (A s))).

(** Column [j] is all zeros and [c[j] >= 0]. *)
Definition redundant_zero_column (s : lp_state) (j : nat) : bool :=
  forallb qzero (column j (A s)) && qleb 0 (nth j (c s) 0%Q).

(** Column [j] is all zeros and [c[j] < 0]. *)
Definition unbounded_zero_column (s : lp_state) (j : nat) : bool :=
  forallb qzero (column j (A s)) && negb (qleb 0 (nth j (c s) 0%Q)).

Definition zero_columns_to_delete (s : lp_state) : list nat :=
  filter (redundant_zero_column s) (seq 0 (ncols (A s))).

(** The original indices carried by the positions [idxs]. *)
Definition originals (index : list nat) (idxs : list nat) : list nat :=
  map (fun i => nth i index 0) idxs.

(** The [solution] dictionary after the variables at [idxs] have been
    fixed at zero, in that order. *)
Definition fixed_at_zero (names : list string) (idxs : list nat)
  (solution : list (string * jvalue)) : list (string * jvalue) :=
  fold_left (fun d j => dict_set (nth j names EmptyString) (JInt 0) d) idxs solution.

(** A bound vector after [np.delete] has run once per index of [idxs]:
    untouched when there is none, an array otherwise. *)
Definition bounds_after_delete (idxs : list nat) (v : bounds) : bounds :=
  match idxs with
  | [] => v
  | _ :: _ => NdArray (drop_from 0 idxs (items v))
  end.

(** ** The k-ton substitution, in the specification's words *)

(** [f] applied to every element together with its position. *)
Definition imap {T U : Type} (f : nat -> T -> U) (l : list T) : list U :=
  map (fun p => f (fst p) (snd p)) (combine (seq 0 (length l)) l).

(** [l] with position [i] replaced by [v]. *)
Fixpoint update {T : Type} (i : nat) (v : T) (l : list T) : list T :=
  match l, i with
  | [], _ => []
  | _ :: t, O => v :: t
  | x :: t, S j => x :: update j v t
  end.

(** [x - k * y], entry by entry. *)
Definition vec_sub (x y : list Q) (k : Q) : list Q :=
  map (fun p => qsub (fst p) (qmul (snd p) k)) (combine x y).

(** Section 4.7, steps 3 to 8, for the k-ton row [i], its mate and the
    pivot column [p]: scale row [i] by the pivot; subtract from every other
    row [r] the multiple [A[r,p]] of the scaled row, and the same on [b];
    move the objective; delete column [p]; negate row [i]; delete the
    mate. *)
Definition kton_substitution (i mate p : nat) (s : lp_state) : lp_state :=
  let rows := mrows (A s) in
  let pivot := nth p (nth i rows []) 0%Q in
  let scaled := map (fun x => qdiv x pivot) (nth i rows []) in
  let b_i := qdiv (nth i (b s) 0%Q) pivot in
  let rows1 :=
    imap (fun r row => if r =? i then scaled
                       else vec_sub row scaled (nth p row 0%Q)) rows in
  let b1 :=
    imap (fun r b_r => if r =? i then b_i
                       else qsub b_r (qmul (nth p (nth r rows []) 0%Q) b_i)) (b s) in
  let c_p := nth p (c s) 0%Q in
  let c1 := vec_sub (c s) scaled c_p in
  let rows2 :=
    imap (fun r row => if r =? i then map (qmul (-1)) (drop_from 0 [p] row)
                       else drop_from 0 [p] row) rows1 in
  let b2 := imap (fun r b_r => if r =? i then qmul (-1) b_r else b_r) b1 in
  mkState
    (mkMatrix (drop_from 0 [mate] rows2)
       (length (drop_from 0 [p] (seq 0 (ncols (A s))))))
    (drop_from 0 [mate] b2)
    (drop_from 0 [p] c1)
    (qadd (co s) (qmul c_p b_i))
    (NdArray (drop_from 0 [p] (items (lb s))))
    (NdArray (drop_from 0 [p] (items (ub s))))
    (of_sense s)
    (drop_from 0 [mate] (cons_senses s))
    (drop_from 0 [p] (variable_names s))
    (drop_from 0 [mate] (original_row_index s))
    (drop_from 0 [p] (original_column_index s))
    (change_dictionary s) (operation_table s) (warnings s).

(** The journal entries of one k-ton pass. *)
Definition kton_journal (var_to_del : string) (column_original : nat)
  (rows_original : list nat) (solution : list (string * jvalue)) (s : lp_state)
  : lp_state :=
  record_change (path2 "eliminate_kton_equalities" "solutions") (JDict solution)
    (record_change
       (path3 "eliminate_kton_equalities" var_to_del "deleted_rows_indices")
       (JList rows_original)
       (record_change
          (path3 "eliminate_kton_equalities" var_to_del "deleted_variables_indices")
          (JInt column_original) s)).

(** ** Runs with only the two zero rules *)

(** The configuration in which at most zero-row and zero-column
    elimination are switched on. *)
Definition zero_rules_only (m : model_matrices) (zero_rows zero_columns : bool)
  (kk : nat) : PresolveComillas :=
  mkPresolve (Some m) zero_rows zero_columns false false kk false false false
    false false false.

(** The dimensional invariant on an extracted model. *)
Definition model_consistent (m : model_matrices) : bool :=
  dimensions_consistent
    (mkState (model_A m) (model_b m) (model_c m) (model_co m) (model_lb m)
       (model_ub m) (model_of_sense m) (model_cons_senses m)
       (model_variable_names m) (seq 0 (nrows (model_A m)))
       (seq 0 (ncols (model_A m))) [] [] []).

(** The part of a state that [get_model_matrices] would read back. *)
Definition model_of_state (s : lp_state) : model_matrices :=
  mkModel (A s) (b s) (c s) (co s) (lb s) (ub s) (of_sense s) (cons_senses s)
    (variable_names s).

(** ** Relations used in the proofs *)

(** Strictly descending. *)
Fixpoint descending (l : list nat) : Prop :=
  match l with
  | [] => True
  | x :: t => (forall y, In y t -> y < x) /\ descending t
  end.

Definition shrinks_dims (s s' : lp_state) : Prop :=
  length (cons_senses s') <= length (cons_senses s)
  /\ length (variable_names s') <= length (variable_names s)
  /\ operation_table s' = operation_table s.

Definition shrinks (s s' : lp_state) : Prop :=
  shrinks_dims s s' /\ nnz (A s') <= nnz (A s).

(** The last entry of the table describes the current state, and the table
    is monotone so far. *)
Definition table_tracks (s : lp_state) : Prop :=
  table_monotone sparsification_or_kton (operation_table s) = true
  /\ exists t label,
       operation_table s
       = t ++ [(label, length (cons_senses s), length (variable_names s), nnz (A s))].

(** The two states agree on every field except [cons_senses], which has the
    same length in both. *)
Definition same_but_senses (s1 s2 : lp_state) : Prop :=
  exists cs, s2 = set_cons_senses cs s1 /\ length cs = length (cons_senses s1).

Definition agree {T : Type} (R : T -> T -> Prop) (r1 r2 : result T) : Prop :=
  match r1, r2 with
  | Ok t1, Ok t2 => R t1 t2
  | Raise e1, Raise e2 => e1 = e2
  | OutOfFuel, OutOfFuel => True
  | _, _ => False
  end.

(** Results of one pass of a [while] loop: same flag, same solution
    dictionary, states that agree. *)
Definition same_pass (r1 r2 : bool * list (string * jvalue) * lp_state) : Prop :=
  fst r1 = fst r2 /\ same_but_senses (snd r1) (snd r2).


(** ** What the implied-bound rule looks for *)





(** ** What the redundant-column rule looks for *)

(** [b[i] == 0], row [i] has a negative counterpart, and its coefficients
    are all [>= 0] or all [<= 0]. *)
Definition forces_zero (s : lp_state) (i : nat) : bool :=
  qzero (nth i (b s) 0%Q)
  && nth i (fst (find_corresponding_negative_rows_with_indices (A s) (b s))) false
  && (forallb (fun x => qleb 0 x) (nth i (mrows (A s)) [])
      || forallb (fun x => qleb x 0) (nth i (mrows (A s)) [])).

Definition redundant_column_rows (s : lp_state) : list nat :=
  filter (forces_zero s) (seq 0 (nrows (A s))).

(** Column [j] has a nonzero coefficient in one of the rows [R]. *)
Definition occurs_in_rows (s : lp_state) (R : list nat) (j : nat) : Prop :=
  exists i, In i R /\ j < ncols (A s)
            /\ qnonzero (nth j (nth i (mrows (A s)) []) 0%Q) = true.

(** [x0 + 2 x1 = 0] written as a pair of rows, and [x2 <= 5]. *)
Definition zero_sum_equality_state : lp_state :=
  initial_state [[1; 2; 0]; [-1; -2; 0]; [0; 0; 1]]%Q 3 [0; 0; 5]%Q [1; 1; 1]%Q
    (NdArray [0; 0; 0]%Q) (NdArray [100; 100; 100]%Q) [x0; x1; x2].

(** Two rows [0 <= 0]: each is the negative counterpart of the other. *)
Definition zero_pair_state : lp_state :=
  initial_state [[0]; [0]]%Q 1 [0; 0]%Q [1]%Q (NdArray [0]%Q) (NdArray [10]%Q) [x0].

(** ** The singleton-equality substitution *)

(** One pass of [eliminate_singleton_equalities] on the singleton row [i]
    with its mate and its only nonzero column [k], when
    [x_k = b[i] / A[i,k] >= 0]: [b] becomes [b - A[:,k] * x_k], the constant
    becomes [co - c[k] * x_k] when [c[k] != 0], both rows and column [k] are
    deleted. *)
Definition singleton_substitution (i mate k : nat) (s : lp_state) : lp_state :=
  let x_k := qdiv (nth i (b s) 0%Q) (nth k (nth i (mrows (A s)) []) 0%Q) in
  let c_k := nth k (c s) 0%Q in
  mkState
    (mkMatrix (map (drop_from 0 [k]) (drop_from 0 [i; mate] (mrows (A s))))
       (length (drop_from 0 [k] (seq 0 (ncols (A s))))))
    (drop_from 0 [i; mate] (vec_sub (b s) (column k (A s)) x_k))
    (drop_from 0 [k] (c s))
    (if qnonzero c_k then qsub (co s) (qmul c_k x_k) else co s)
    (NdArray (drop_from 0 [k] (items (lb s))))
    (NdArray (drop_from 0 [k] (items (ub s))))
    (of_sense s)
    (drop_from 0 [i; mate] (cons_senses s))
    (drop_from 0 [k] (variable_names s))
    (drop_from 0 [i; mate] (original_row_index s))
    (drop_from 0 [k] (original_column_index s))
    (change_dictionary s) (operation_table s) (warnings s).

(** The journal entries of one singleton-equality pass. *)
Definition singleton_journal (var_to_del : string) (column_original : nat)
  (rows_original : list nat) (s : lp_state) : lp_state :=
  record_change
    (path3 "eliminate_singleton_equalities" var_to_del "deleted_rows_indices")
    (JList rows_original)
    (record_change
       (path3 "eliminate_singleton_equalities" var_to_del "deleted_variables_indices")
       (JInt column_original) s).

(** The value the first singleton equality of the state fixes its variable
    at is negative. *)
Definition negative_fixed_value (s : lp_state) : bool :=
  match first_true (fst (equality_rows 1 s)) with
  | Some i =>
      let row := nth i (mrows (A s)) [] in
      match np_nonzero row with
      | k :: _ => negb (qleb 0 (qdiv (nth i (b s) 0%Q) (nth k row 0%Q)))
      | [] => false
      end
  | None => false
  end.

(** [x0 = 1] written as the pair [x0 <= 1], [-x0 <= -1], and [x0 + x1 <= 5]. *)
Definition positive_singleton_state : lp_state :=
  initial_state [[1; 0]; [-1; 0]; [1; 1]]%Q 2 [1; -1; 5]%Q [1; 1]%Q
    (NdArray [0; 0]%Q) (NdArray [10; 10]%Q) [x0; x1].

(** ** Journal keys *)

(** The key of [change_dictionary] under which a rule writes; the
    sparsification writes nothing. *)
Definition rule_key (r : rule) : string :=
  match r with
  | SmallCoefficients => "reduction_small_coefficients"
  | ImpliedBounds => "eliminate_implied_bounds"
  | RedundantRows => "eliminate_redundant_rows"
  | KtonEqualities => "eliminate_kton_equalities"
  | SingletonEqualities => "eliminate_singleton_equalities"
  | SingletonInequalities => "eliminate_singleton_inequalities"
  | DualSingletonInequalities => "eliminate_dual_singleton_inequalities"
  | RedundantColumns => "eliminate_redundant_columns"
  | ZeroRows => "eliminate_zero_rows"
  | ZeroColumns => "eliminate_zero_columns"
  end.


(** ** What the dual-singleton rule looks for *)

(** Column [j] has exactly one nonzero coefficient. *)
Definition singleton_column (s : lp_state) (j : nat) : bool :=
  count_nonzero (column j (A s)) =? 1.

(** The row of the first nonzero coefficient of column [j], and the
    coefficient. *)
Definition pivot_row (s : lp_state) (j : nat) : nat :=
  hd 0 (np_nonzero (column j (A s))).

Definition pivot (s : lp_state) (j : nat) : Q :=
  nth (pivot_row s j) (column j (A s)) 0%Q.







(** ** What the singleton-inequality rule looks for *)

(** Row [i] has exactly one nonzero coefficient and no negative
    counterpart. *)
Definition singleton_inequality (s : lp_state) (i : nat) : bool :=
  (count_nonzero (nth i (mrows (A s)) []) =? 1)
  && negb (nth i (fst (find_corresponding_negative_rows_with_indices (A s) (b s)))
             false).

(** The column of the first nonzero coefficient of row [i], and the
    coefficient. *)
Definition pivot_column (s : lp_state) (i : nat) : nat :=
  hd 0 (np_nonzero (nth i (mrows (A s)) [])).

Definition row_pivot (s : lp_state) (i : nat) : Q :=
  nth (pivot_column s i) (nth i (mrows (A s)) []) 0%Q.

(** The singleton rows the rule deletes: [A > 0, b < 0], [A > 0, b = 0]
    and [A < 0, b = 0]. *)
Definition singleton_row_deleted (s : lp_state) (i : nat) : bool :=
  singleton_inequality s i
  && ((qltb 0 (row_pivot s i) && qltb (nth i (b s) 0%Q) 0)
      || (qltb 0 (row_pivot s i) && qeqb (nth i (b s) 0%Q) 0)
      || (qltb (row_pivot s i) 0 && qeqb (nth i (b s) 0%Q) 0)).

(** Those whose original index is appended to the journal list:
    [A > 0, b < 0] and [A < 0, b = 0]. *)
Definition singleton_row_journalled (s : lp_state) (i : nat) : bool :=
  singleton_inequality s i
  && ((qltb 0 (row_pivot s i) && qltb (nth i (b s) 0%Q) 0)
      || (qltb (row_pivot s i) 0 && qeqb (nth i (b s) 0%Q) 0)).

(** Those whose variable goes too: [A < 0, b = 0]. *)
Definition singleton_row_fixes_variable (s : lp_state) (i : nat) : bool :=
  singleton_inequality s i
  && qltb (row_pivot s i) 0 && qeqb (nth i (b s) 0%Q) 0.

(** Those that draw a warning: [A < 0, b > 0]. *)
Definition singleton_row_warned (s : lp_state) (i : nat) : bool :=
  singleton_inequality s i
  && qltb (row_pivot s i) 0 && qltb 0 (nth i (b s) 0%Q).

Definition singleton_rows_to_delete (s : lp_state) : list nat :=
  filter (singleton_row_deleted s) (seq 0 (nrows (A s))).

(** The columns marked, one per row with [A < 0, b = 0], in row order. *)
Definition singleton_columns_to_delete (s : lp_state) : list nat :=
  map (pivot_column s) (filter (singleton_row_fixes_variable s) (seq 0 (nrows (A s)))).

(** [-x0 <= 0] and [x0 + x1 <= 5], the bounds held in Python lists. *)
Definition list_bounds_state : lp_state :=
  initial_state [[-1; 0]; [1; 1]]%Q 2 [0; 5]%Q [1; 1]%Q
    (PyList [0; 0]%Q) (PyList [10; 10]%Q) [x0; x1].



(** ** Runs with the rules that keep the dimensions *)

(** The configuration in which at most k-ton elimination, redundant-column
    elimination and the two zero rules are switched on. *)
Definition structural_rules_only (m : model_matrices) (kton : bool) (kk : nat)
  (redundant_columns zero_rows zero_columns : bool) : PresolveComillas :=
  mkPresolve (Some m) zero_rows zero_columns false kton kk false false
    redundant_columns false false false.


(** ** Submodels *)

(** Strictly ascending. *)
Fixpoint ascending (l : list nat) : Prop :=
  match l with
  | [] => True
  | x :: t => (forall y, In y t -> x < y) /\ ascending t
  end.

(** The entries of [l] at the positions [idxs], in that order. *)
Definition select {T : Type} (d : T) (idxs : list nat) (l : list T) : list T :=
  map (fun i => nth i l d) idxs.

(** [m'] is [m] restricted to the rows [rows] and the columns [cols]: same
    coefficients, right-hand sides, costs, bounds, senses and names at the
    selected positions, same constant and objective sense. *)
Definition submodel (rows cols : list nat) (m m' : model_matrices) : Prop :=
  mrows (model_A m') = map (select 0%Q cols) (select [] rows (mrows (model_A m)))
  /\ ncols (model_A m') = length cols
  /\ model_b m' = select 0%Q rows (model_b m)
  /\ model_c m' = select 0%Q cols (model_c m)
  /\ items (model_lb m') = select 0%Q cols (items (model_lb m))
  /\ items (model_ub m') = select 0%Q cols (items (model_ub m))
  /\ model_cons_senses m' = select SenseLe rows (model_cons_senses m)
  /\ model_variable_names m' = select EmptyString cols (model_variable_names m)
  /\ model_co m' = model_co m
  /\ model_of_sense m' = model_of_sense m.

(** The state [s'] is [s] with the rows at the positions [R] and the columns
    at the positions [C] deleted everywhere, and nothing else changed in the
    model. *)
Definition deleted (R C : list nat) (s s' : lp_state) : Prop :=
  mrows (A s') = map (drop_from 0 C) (drop_from 0 R (mrows (A s)))
  /\ ncols (A s') = length (drop_from 0 C (seq 0 (ncols (A s))))
  /\ b s' = drop_from 0 R (b s)
  /\ cons_senses s' = drop_from 0 R (cons_senses s)
  /\ original_row_index s' = drop_from 0 R (original_row_index s)
  /\ c s' = drop_from 0 C (c s)
  /\ items (lb s') = drop_from 0 C (items (lb s))
  /\ items (ub s') = drop_from 0 C (items (ub s))
  /\ variable_names s' = drop_from 0 C (variable_names s)
  /\ original_column_index s' = drop_from 0 C (original_column_index s)
  /\ co s' = co s
  /\ of_sense s' = of_sense s.

(** [original_row_index] and [original_column_index] say where in [m] the
    rows and columns of the state come from. *)
Definition tracks (m : model_matrices) (s : lp_state) : Prop :=
  submodel (original_row_index s) (original_column_index s) m (model_of_state s)
  /\ ascending (original_row_index s)
  /\ ascending (original_column_index s)
  /\ (forall i, In i (original_row_index s) -> i < nrows (model_A m))
  /\ (forall j, In j (original_column_index s) -> j < ncols (model_A m)).
(** * Properties *)

(** ** Inversion of the error monad *)

Lemma bind_Ok {T U : Type} (m : result T) (f : T -> result U) (u : U) :
  bind m f = Ok u -> exists t, m = Ok t /\ f t = Ok u.
Proof. destruct m; cbn; intro H; try discriminate; eauto. Qed.

Ltac bind_step H :=
  match type of H with
  | bind ?m _ = Ok _ =>
      let x := fresh "x" in
      let E := fresh "E" in
      destruct m as [x| |] eqn:E; cbn [bind] in H; [|discriminate H..]
  | (let '(_, _) := ?p in _) = Ok _ => destruct p
  | (if ?t then _ else _) = Ok _ =>
      let E := fresh "E" in destruct t eqn:E
  | Ok _ = Ok _ => injection H as H
  | Raise _ = Ok _ => discriminate H
  | OutOfFuel = Ok _ => discriminate H
  | match ?o with Some _ => _ | None => _ end = Ok _ =>
      let E := fresh "E" in destruct o eqn:E
  end.

Ltac bind_inv H := repeat bind_step H.

Lemma for_each_inv {T St : Type} (P : St -> Prop) (body : T -> St -> result St) :
  (forall x a a', P a -> body x a = Ok a' -> P a') ->
  forall l a a', P a -> for_each l body a = Ok a' -> P a'.
Proof.
  intros Hbody l. induction l as [|x l IH]; cbn; intros a a' Pa H.
  - injection H as <-. exact Pa.
  - apply bind_Ok in H as (a1 & E1 & E2). eauto.
Qed.

(** ** Lengths under deletion *)

Lemma py_del_length {T : Type} (i : nat) (l l' : list T) :
  py_del i l = Ok l' -> length l = S (length l').
Proof.
  revert i l'. induction l as [|x l IH]; intros [|i] l' H; cbn in H; try discriminate.
  - injection H as <-. reflexivity.
  - apply bind_Ok in H as (t & E & H). injection H as <-. cbn. f_equal. eauto.
Qed.

Lemma drop_from_length {T : Type} (idxs : list nat) (l : list T) (pos : nat) :
  length (drop_from pos idxs l) <= length l.
Proof.
  revert pos. induction l as [|x l IH]; intro pos; cbn; [lia|].
  destruct (in_idx pos idxs); cbn; specialize (IH (S pos)); lia.
Qed.

Lemma drop_from_sum (f : list Q -> nat) (idxs : list nat) (l : list (list Q)) (pos : nat) :
  list_sum (map f (drop_from pos idxs l)) <= list_sum (map f l).
Proof.
  revert pos. induction l as [|x l IH]; intro pos; cbn; [lia|].
  destruct (in_idx pos idxs); cbn; specialize (IH (S pos)); unfold list_sum in *; lia.
Qed.

Lemma drop_from_count_nonzero (idxs : list nat) (r : list Q) (pos : nat) :
  count_nonzero (drop_from pos idxs r) <= count_nonzero r.
Proof.
  unfold count_nonzero. revert pos. induction r as [|x r IH]; intro pos; cbn; [lia|].
  specialize (IH (S pos)).
  destruct (in_idx pos idxs); cbn; destruct (qnonzero x); cbn; lia.
Qed.

Lemma np_delete_rows_nnz (idxs : list nat) (M M' : matrix) :
  np_delete_rows idxs M = Ok M' -> nnz M' <= nnz M.
Proof.
  unfold np_delete_rows, np_delete. intro H.
  destruct (forallb _ idxs); cbn in H; [|discriminate].
  injection H as <-. apply drop_from_sum.
Qed.

Lemma np_delete_cols_nnz (idxs : list nat) (M M' : matrix) :
  np_delete_cols idxs M = Ok M' -> nnz M' <= nnz M.
Proof.
  unfold np_delete_cols. intro H.
  destruct (forallb _ idxs); [|discriminate].
  injection H as <-. unfold nnz; cbn.
  induction (mrows M) as [|r rows IH]; cbn; [lia|].
  pose proof (drop_from_count_nonzero idxs r 0). unfold list_sum in *; lia.
Qed.

(** ** What a rule may do to the dimensions *)

Lemma shrinks_dims_refl s : shrinks_dims s s.
Proof. unfold shrinks_dims; auto. Qed.

Lemma shrinks_dims_trans s1 s2 s3 :
  shrinks_dims s1 s2 -> shrinks_dims s2 s3 -> shrinks_dims s1 s3.
Proof. unfold shrinks_dims. intros (?&?&?) (?&?&?). repeat split; try lia; congruence. Qed.

Lemma shrinks_refl s : shrinks s s.
Proof. split; [apply shrinks_dims_refl | lia]. Qed.

Lemma shrinks_trans s1 s2 s3 : shrinks s1 s2 -> shrinks s2 s3 -> shrinks s1 s3.
Proof. intros [? ?] [? ?]. split; [eapply shrinks_dims_trans; eauto | lia]. Qed.

Ltac shrink_facts :=
  repeat match goal with
  | H : py_del _ _ = Ok _ |- _ => apply py_del_length in H
  | H : np_delete_rows _ _ = Ok _ |- _ => apply np_delete_rows_nnz in H
  | H : np_delete_cols _ _ = Ok _ |- _ => apply np_delete_cols_nnz in H
  | H : shrinks _ _ |- _ => destruct H as [[? [? ?]] ?]
  | H : shrinks_dims _ _ |- _ => destruct H as [? [? ?]]
  | H : context [if ?t then _ else _] |- _ => destruct t
  | |- context [if ?t then _ else _] => destruct t
  end.

Ltac shrink_solve :=
  shrink_facts; unfold shrinks, shrinks_dims; cbn in *;
  repeat split; try lia; try congruence.

Lemma del_row_entries_shrinks idxs s s' :
  del_row_entries idxs s = Ok s' -> shrinks s s'.
Proof.
  unfold del_row_entries.
  apply (for_each_inv (fun s' => shrinks s s')); [|apply shrinks_refl].
  intros index a a' Ha H. bind_inv H. subst a'.
  eapply shrinks_trans; [exact Ha|]. shrink_solve.
Qed.

Lemma del_column_entries_shrinks idxs s s' :
  del_column_entries idxs s = Ok s' -> shrinks s s'.
Proof.
  unfold del_column_entries.
  apply (for_each_inv (fun s' => shrinks s s')); [|apply shrinks_refl].
  intros index a a' Ha H. bind_inv H. subst a'.
  eapply shrinks_trans; [exact Ha|]. shrink_solve.
Qed.

Lemma eliminate_zero_rows_effect s s' :
  eliminate_zero_rows s = Ok s' ->
  exists s1, shrinks s s1 /\ s' = record_operation "Eliminate Zero Rows" s1.
Proof.
  unfold eliminate_zero_rows. intro H. bind_inv H. subst s'.
  eexists. split; [|reflexivity].
  apply del_row_entries_shrinks in E1.
  shrink_solve.
Qed.

Lemma for_each_shrinks {T : Type} (body : T -> lp_state -> result lp_state) l s s' :
  (forall x a a', body x a = Ok a' -> shrinks a a') ->
  for_each l body s = Ok s' -> shrinks s s'.
Proof.
  intro Hb. apply (for_each_inv (fun s' => shrinks s s')); [|apply shrinks_refl].
  intros x a a' Ha H. eapply shrinks_trans; eauto.
Qed.

Lemma for_each_shrinks_dims {T : Type} (body : T -> lp_state -> result lp_state) l s s' :
  (forall x a a', body x a = Ok a' -> shrinks_dims a a') ->
  for_each l body s = Ok s' -> shrinks_dims s s'.
Proof.
  intro Hb. apply (for_each_inv (fun s' => shrinks_dims s s')); [|apply shrinks_dims_refl].
  intros x a a' Ha H. eapply shrinks_dims_trans; eauto.
Qed.

Ltac loop_facts :=
  repeat match goal with
  | H : del_row_entries _ _ = Ok _ |- _ => apply del_row_entries_shrinks in H
  | H : del_column_entries _ _ = Ok _ |- _ => apply del_column_entries_shrinks in H
  | H : for_each _ _ _ = Ok _ |- _ =>
      apply for_each_shrinks in H;
      [| let H' := fresh in intros ? ? ? H'; bind_inv H'; subst; shrink_solve ]
  end.

Ltac rule_effect H :=
  bind_inv H; subst; eexists; (split; [|reflexivity]); loop_facts; shrink_solve.

Lemma eliminate_zero_columns_effect s s' :
  eliminate_zero_columns s = Ok s' ->
  exists s1, shrinks s s1 /\ s' = record_operation "Eliminate Zero Columns" s1.
Proof. unfold eliminate_zero_columns. intro H. rule_effect H. Qed.

Lemma singleton_equalities_pass_shrinks sol s found sol' s' :
  singleton_equalities_pass sol s = Ok (found, sol', s') -> shrinks s s'.
Proof.
  unfold singleton_equalities_pass. intro H.
  destruct (equality_rows 1 s) as [valid_rows indices_list].
  bind_inv H; subst; loop_facts; shrink_solve.
Qed.

Lemma singleton_equalities_loop_shrinks fuel :
  forall sol s sol' s',
    singleton_equalities_loop fuel sol s = Ok (sol', s') -> shrinks s s'.
Proof.
  induction fuel as [|fuel IH]; intros sol s sol' s' H; cbn in H; [discriminate|].
  apply bind_Ok in H as ([[found sol1] s1] & E & H).
  apply singleton_equalities_pass_shrinks in E.
  destruct found.
  - eapply shrinks_trans; [exact E|]. eapply IH; eauto.
  - injection H as -> ->. exact E.
Qed.

Lemma eliminate_singleton_equalities_effect fuel s s' :
  eliminate_singleton_equalities fuel s = Ok s' ->
  exists s1, shrinks s s1 /\ s' = record_operation "Eliminate Singleton Equalities" s1.
Proof.
  unfold eliminate_singleton_equalities. intro H.
  apply bind_Ok in H as ([sol s1] & E & H).
  apply singleton_equalities_loop_shrinks in E.
  injection H as <-. eexists; split; [|reflexivity]. shrink_solve.
Qed.

Lemma kton_eliminate_row_shrinks_dims first col i s s' :
  kton_eliminate_row first col i s = Ok s' -> shrinks_dims s s'.
Proof. unfold kton_eliminate_row. intro H. bind_inv H. subst. shrink_solve. Qed.

Lemma kton_equalities_pass_shrinks_dims kk sol s found sol' s' :
  kton_equalities_pass kk sol s = Ok (found, sol', s') -> shrinks_dims s s'.
Proof.
  unfold kton_equalities_pass. intro H.
  destruct (equality_rows kk s) as [valid_rows indices_list].
  bind_inv H; subst; [|apply shrinks_dims_refl].
  match goal with
  | H : for_each _ _ _ = Ok _ |- _ =>
      apply for_each_shrinks_dims in H;
      [| intros ? ? ? H'; destruct (_ =? _);
         [injection H' as <-; apply shrinks_dims_refl
         | eapply kton_eliminate_row_shrinks_dims; eauto] ]
  end.
  shrink_solve.
Qed.

Lemma kton_equalities_loop_shrinks_dims fuel kk :
  forall sol s s', kton_equalities_loop fuel kk sol s = Ok s' -> shrinks_dims s s'.
Proof.
  induction fuel as [|fuel IH]; intros sol s s' H; cbn in H; [discriminate|].
  apply bind_Ok in H as ([[found sol1] s1] & E & H).
  apply kton_equalities_pass_shrinks_dims in E.
  destruct found.
  - eapply shrinks_dims_trans; [exact E|]. eapply IH; eauto.
  - injection H as ->. exact E.
Qed.

Lemma eliminate_kton_equalities_effect fuel kk s s' :
  eliminate_kton_equalities fuel kk s = Ok s' ->
  exists s1, shrinks_dims s s1 /\ s' = record_operation "Eliminate Kton Equalities" s1.
Proof.
  unfold eliminate_kton_equalities. intro H.
  apply bind_Ok in H as (s1 & E & H).
  apply kton_equalities_loop_shrinks_dims in E.
  injection H as <-. eauto.
Qed.

Lemma eliminate_singleton_inequalities_effect s s' :
  eliminate_singleton_inequalities s = Ok s' ->
  exists s1, shrinks s s1 /\ s' = record_operation "Eliminate Singleton Inequalities" s1.
Proof. unfold eliminate_singleton_inequalities. intro H. rule_effect H. Qed.

Lemma eliminate_dual_singleton_inequalities_effect s s' :
  eliminate_dual_singleton_inequalities s = Ok s' ->
  exists s1, shrinks s s1
    /\ s' = record_operation "Eliminate Dual Singleton Inequalities" s1.
Proof. unfold eliminate_dual_singleton_inequalities. intro H. rule_effect H. Qed.

Lemma eliminate_redundant_columns_effect s s' :
  eliminate_redundant_columns s = Ok s' ->
  exists s1, shrinks s s1 /\ s' = record_operation "Eliminate Redundant Columns" s1.
Proof. unfold eliminate_redundant_columns. intro H. rule_effect H. Qed.

Lemma eliminate_implied_bounds_effect s s' :
  eliminate_implied_bounds s = Ok s' ->
  exists s1, shrinks s s1 /\ s' = record_operation "Eliminate Implied Bounds" s1.
Proof.
  unfold eliminate_implied_bounds, eliminate_implied_bounds_with. intro H. rule_effect H.
Qed.

Lemma eliminate_redundant_rows_effect ld s s' :
  eliminate_redundant_rows ld s = Ok s' ->
  exists s1, shrinks s s1 /\ s' = record_operation "Eliminate Redundant Rows" s1.
Proof. unfold eliminate_redundant_rows. intro H. rule_effect H. Qed.

Lemma reduction_small_coefficients_effect nf ms s s' :
  reduction_small_coefficients nf ms s = Ok s' ->
  exists s1, shrinks_dims s s1
    /\ s' = record_operation "reduction Small Coefficients" s1.
Proof.
  unfold reduction_small_coefficients. intro H. injection H as <-.
  eexists; split; [|reflexivity]. shrink_solve.
Qed.

(** ** The orchestrator *)

Lemma bind_assoc {T U V : Type} (m : result T) (f : T -> result U) (g : U -> result V) :
  bind (bind m f) g = bind m (fun t => bind (f t) g).
Proof. destruct m; reflexivity. Qed.

Lemma bind_ret {T : Type} (m : result T) : bind m (fun t => Ok t) = m.
Proof. destruct m; reflexivity. Qed.

Lemma bind_ext {T U : Type} (m : result T) (f g : T -> result U) :
  (forall t, f t = g t) -> bind m f = bind m g.
Proof. intro H. destruct m; cbn; auto. Qed.

Lemma for_each_filter_cons {T St : Type} (f : T -> bool) (body : T -> St -> result St)
  (x : T) (l : list T) (a : St) :
  for_each (filter f (x :: l)) body a
  = bind (if f x then body x a else Ok a) (fun a' => for_each (filter f l) body a').
Proof. cbn [filter]. destruct (f x); reflexivity. Qed.

Section Orchestrator.

Variable linear_dependency : matrix -> list Q -> list (list nat) * list bool.
Variable normalize_features : matrix -> list Q -> matrix.
Variable matrix_sparsification : Q -> matrix -> matrix -> matrix.

Let orchestrate :=
  orchestrator_presolve_operations linear_dependency normalize_features
    matrix_sparsification.
Let by_rule_order :=
  orchestrator_by_rule_order linear_dependency normalize_features
    matrix_sparsification.
Let rule_step := apply_rule linear_dependency normalize_features matrix_sparsification.

Lemma orchestrator_is_rule_order fuel p : orchestrate fuel p = by_rule_order fuel p.
Proof.
  unfold orchestrate, by_rule_order, orchestrator_presolve_operations,
    orchestrator_by_rule_order, rule_order, when.
  apply bind_ext; intro s.
  repeat (rewrite for_each_filter_cons, bind_assoc; cbn [enabled apply_rule];
          apply bind_ext; intro).
  reflexivity.
Qed.

Lemma apply_rule_effect fuel p r s s' :
  rule_step fuel p r s = Ok s' ->
  exists s1, shrinks_dims s s1
    /\ (sparsification_or_kton (rule_label r) = false -> nnz (A s1) <= nnz (A s))
    /\ s' = record_operation (rule_label r) s1.
Proof.
  unfold rule_step. destruct r; cbn [apply_rule rule_label]; intro H.
  - apply reduction_small_coefficients_effect in H as (s1 & ? & ?).
    exists s1; split; [assumption|]; split; [|assumption].
    intro Hx; vm_compute in Hx; discriminate Hx.
  - apply eliminate_implied_bounds_effect in H as (s1 & [? ?] & ?); eauto.
  - apply eliminate_redundant_rows_effect in H as (s1 & [? ?] & ?); eauto.
  - apply eliminate_kton_equalities_effect in H as (s1 & ? & ?).
    exists s1; split; [assumption|]; split; [|assumption].
    intro Hx; vm_compute in Hx; discriminate Hx.
  - apply eliminate_singleton_equalities_effect in H as (s1 & [? ?] & ?); eauto.
  - apply eliminate_singleton_inequalities_effect in H as (s1 & [? ?] & ?); eauto.
  - apply eliminate_dual_singleton_inequalities_effect in H as (s1 & [? ?] & ?); eauto.
  - apply eliminate_redundant_columns_effect in H as (s1 & [? ?] & ?); eauto.
  - apply eliminate_zero_rows_effect in H as (s1 & [? ?] & ?); eauto.
  - apply eliminate_zero_columns_effect in H as (s1 & [? ?] & ?); eauto.
Qed.

Lemma run_rules_labels fuel p rs :
  forall s s',
    for_each rs (rule_step fuel p) s = Ok s' ->
    map operation_label (operation_table s')
    = map operation_label (operation_table s) ++ map rule_label rs.
Proof.
  induction rs as [|r rs IH]; cbn [for_each]; intros s s' H.
  - injection H as <-. cbn. now rewrite app_nil_r.
  - apply bind_Ok in H as (s1 & E & H).
    apply apply_rule_effect in E as (s0 & (_ & _ & Ht) & _ & ->).
    rewrite (IH _ _ H). cbn. rewrite map_app, Ht, <- app_assoc. reflexivity.
Qed.

Lemma table_monotone_snoc exempt t e1 e2 :
  table_monotone exempt (t ++ [e1]) = true ->
  operation_step_ok exempt e1 e2 = true ->
  table_monotone exempt ((t ++ [e1]) ++ [e2]) = true.
Proof.
  intros Ht Hs. induction t as [|e t IH].
  - cbn. now rewrite Hs.
  - cbn [app table_monotone] in *.
    destruct (t ++ [e1]) as [|e' t'] eqn:Et; [destruct t; discriminate|].
    cbn [app] in *. apply andb_true_iff in Ht as [Ha Hb].
    rewrite Ha. cbn. apply IH. exact Hb.
Qed.

Lemma apply_rule_tracks fuel p r s s' :
  table_tracks s -> rule_step fuel p r s = Ok s' -> table_tracks s'.
Proof.
  intros [Hm (t & label & Ht)] H.
  apply apply_rule_effect in H as (s1 & (Hr & Hc & Htab) & Hn & ->).
  unfold table_tracks, record_operation. cbn. rewrite Htab, Ht. split.
  - rewrite Ht in Hm. apply table_monotone_snoc; [exact Hm|].
    unfold operation_step_ok, operation_rows, operation_cols, operation_nnz,
      operation_label. cbn.
    apply andb_true_iff; split; [apply andb_true_iff; split|].
    + now apply Nat.leb_le.
    + now apply Nat.leb_le.
    + destruct (sparsification_or_kton (rule_label r)) eqn:Ex; [reflexivity|].
      cbn. apply Nat.leb_le. auto.
  - eauto.
Qed.

Lemma run_rules_tracks fuel p rs :
  forall s s', table_tracks s -> for_each rs (rule_step fuel p) s = Ok s' ->
               table_tracks s'.
Proof.
  apply for_each_inv. intros r a a' Ha H. eapply apply_rule_tracks; eauto.
Qed.

Lemma load_model_matrices_tracks p s :
  load_model_matrices p = Ok s ->
  table_tracks s /\ map operation_label (operation_table s) = ["Initial"%string].
Proof.
  unfold load_model_matrices. destruct (model p) as [m|]; [|discriminate].
  intro H. injection H as <-. split; [|reflexivity].
  split; [reflexivity|]. exists [], "Initial"%string. reflexivity.
Qed.

(** C7 *)
Theorem orchestrator_applies_enabled_rules_in_order (fuel : nat) (p : PresolveComillas) :
  orchestrate fuel p = by_rule_order fuel p
  /\ match orchestrate fuel p with
     | Ok out =>
         map operation_label (output_table out)
         = "Initial"%string :: map rule_label (filter (enabled p) rule_order)
         /\ exists s,
             out = (A s, b s, c s, lb s, ub s, of_sense s, cons_senses s, co s,
                    variable_names s, change_dictionary s, operation_table s)
     | _ => True
     end.
Proof.
  split; [apply orchestrator_is_rule_order|].
  rewrite orchestrator_is_rule_order.
  unfold by_rule_order, orchestrator_by_rule_order.
  destruct (load_model_matrices p) as [s0| |] eqn:E0; cbn [bind]; auto.
  fold rule_step.
  destruct (for_each _ _ s0) as [s1| |] eqn:E1; cbn [bind]; auto.
  apply load_model_matrices_tracks in E0 as [_ E0].
  apply run_rules_labels in E1. split; [|exists s1; reflexivity].
  unfold output_table, output_of. cbn [snd]. now rewrite E1, E0.
Qed.

(** C5 amended *)
Theorem operation_table_monotone_except_fill_in (fuel : nat) (p : PresolveComillas) :
  match orchestrate fuel p with
  | Ok out => table_monotone sparsification_or_kton (output_table out) = true
  | _ => True
  end.
Proof.
  rewrite orchestrator_is_rule_order.
  unfold by_rule_order, orchestrator_by_rule_order.
  destruct (load_model_matrices p) as [s0| |] eqn:E0; cbn [bind]; auto.
  fold rule_step.
  destruct (for_each _ _ s0) as [s1| |] eqn:E1; cbn [bind]; auto.
  apply load_model_matrices_tracks in E0 as [E0 _].
  eapply run_rules_tracks in E1; [|exact E0]. apply E1.
Qed.

End Orchestrator.

(** ** The rules on concrete inputs *)

Lemma negative_singleton_pass (ws : list warning) (sol : list (string * jvalue)) :
  singleton_equalities_pass sol (set_warnings ws negative_singleton_state)
  = Ok (true, sol, set_warnings (ws ++ [Infeasibility]) negative_singleton_state).
Proof. reflexivity. Qed.

Lemma negative_singleton_loop (fuel : nat) :
  forall ws sol,
    singleton_equalities_loop fuel sol (set_warnings ws negative_singleton_state)
    = OutOfFuel.
Proof.
  induction fuel as [|fuel IH]; intros ws sol; [reflexivity|].
  cbn [singleton_equalities_loop].
  rewrite negative_singleton_pass. cbn [bind]. apply IH.
Qed.

(** C1, on the pair [x0 <= -1], [-x0 <= 1]: every pass finds the singleton,
    computes [x_k = -1], warns and leaves [found_singleton] set and the state
    as it was, so the [while] loop has not finished after any number of
    passes. *)
Theorem singleton_equalities_negative_value_never_stops :
  dimensions_consistent negative_singleton_state = true
  /\ forall fuel,
       eliminate_singleton_equalities fuel negative_singleton_state = OutOfFuel.
Proof.
  split; [reflexivity|].
  intro fuel. unfold eliminate_singleton_equalities.
  change negative_singleton_state with (set_warnings [] negative_singleton_state).
  rewrite negative_singleton_loop. reflexivity.
Qed.

(** C2 as stated fails on scenario 2 of the specification: the zero row
    with right-hand side 3 draws one warning and stays where it is. *)
Lemma zero_row_with_positive_rhs_is_kept :
  exists s',
    eliminate_zero_rows zero_row_infeasible_state = Ok s'
    /\ mrows (A s') = [[0; 0]; [1; 1]]%Q
    /\ b s' = [3; 2]%Q
    /\ original_row_index s' = [0; 1]
    /\ warnings s' = [Infeasibility]
    /\ journal_get (path2 "eliminate_zero_rows" "deleted_rows_indices")
         (change_dictionary s') = Some (JList []).
Proof. eexists. split; [vm_compute; reflexivity|]. vm_compute. auto 10. Qed.

(** C3: three inputs on which a rule leaves the parallel vectors out of
    step with [A], or does not return.  A row marked twice by
    [eliminate_implied_bounds] is removed once from [A] and twice from [b],
    [cons_senses] and [original_row_index]; a variable marked twice by
    [eliminate_singleton_inequalities] is removed once from [A] and twice
    from [c], [lb], [ub] and the names; and [del self.lb[index]] raises when
    the bounds are NumPy arrays. *)
Theorem rules_break_dimensional_consistency :
  (dimensions_consistent doubly_marked_state = true
   /\ exists s', eliminate_implied_bounds doubly_marked_state = Ok s'
                 /\ nrows (A s') = 1 /\ length (b s') = 0
                 /\ dimensions_consistent s' = false)
  /\ (dimensions_consistent shared_singleton_state = true
      /\ exists s', eliminate_singleton_inequalities shared_singleton_state = Ok s'
                    /\ ncols (A s') = 1 /\ length (c s') = 0
                    /\ dimensions_consistent s' = false)
  /\ (dimensions_consistent array_bounds_state = true
      /\ eliminate_singleton_inequalities array_bounds_state = Raise ValueError).
Proof.
  repeat split; try reflexivity.
  - eexists. split; [vm_compute; reflexivity|]. vm_compute. auto.
  - eexists. split; [vm_compute; reflexivity|]. vm_compute. auto.
Qed.

(** C4: on the single row [x0 <= 0] (the case [A[i,k] > 0], [b[i] = 0]) the
    row is deleted and the journal's [deleted_rows_indices] stays empty. *)
Theorem singleton_inequality_zero_rhs_not_journalled :
  original_row_index positive_singleton_zero_rhs_state = [0]
  /\ exists s',
       eliminate_singleton_inequalities positive_singleton_zero_rhs_state = Ok s'
       /\ nrows (A s') = 0
       /\ original_row_index s' = []
       /\ journal_get
            (path2 "eliminate_singleton_inequalities" "deleted_rows_indices")
            (change_dictionary s') = Some (JList []).
Proof.
  split; [reflexivity|].
  eexists. split; [vm_compute; reflexivity|]. vm_compute. auto.
Qed.

(** C5 as stated fails: with [k = 3] the substitution of [x2] fills the
    five rows [x2 <= b] in, and nnz goes from 11 to 12 across the k-ton
    entry. *)
Lemma kton_fill_in_raises_nnz :
  exists out,
    run_presolve 8 (only_kton 3 fill_in_model) = Ok out
    /\ output_table out
       = [("Initial"%string, 7, 3, 11);
          ("Eliminate Kton Equalities"%string, 6, 2, 12)]
    /\ table_monotone sparsification_only (output_table out) = false.
Proof. eexists. split; [vm_compute; reflexivity|]. vm_compute. auto. Qed.

(** C6 as stated fails: the first run drops the row [-x0 <= 0] together
    with [x0], which turns [x0 + x1 <= -1] into a singleton row; a second
    run on the output deletes that row. *)
Lemma rerun_is_not_a_no_op :
  exists out1 out2,
    run_presolve 5 (only_singleton_inequalities exposed_singleton_model) = Ok out1
    /\ run_presolve 5 (only_singleton_inequalities (model_of_output out1)) = Ok out2
    /\ output_dimensions out1 = (1, 1)
    /\ output_dimensions out2 = (0, 1)
    /\ journal_empty (output_journal out2) = false.
Proof.
  eexists. eexists. split; [vm_compute; reflexivity|].
  split; [vm_compute; reflexivity|]. vm_compute. auto.
Qed.

(** Scenario 6 of the specification, run to the end of the rule. *)
Lemma kton_scenario :
  exists s',
    eliminate_kton_equalities 4 2 kton_scenario_state = Ok s'
    /\ mrows (A s') = [[-1 # 2; 0]; [-1 # 2; 1]]%Q
    /\ b s' = [-2; 3]%Q
    /\ variable_names s' = [x0; x2]
    /\ original_column_index s' = [0; 2]
    /\ original_row_index s' = [0; 2].
Proof. eexists. split; [vm_compute; reflexivity|]. vm_compute. auto 10. Qed.

(** ** Deleting positions *)

Lemma in_idx_true (i : nat) (idxs : list nat) : in_idx i idxs = true <-> In i idxs.
Proof.
  unfold in_idx. rewrite existsb_exists. split.
  - intros (x & Hx & E). apply Nat.eqb_eq in E. now subst.
  - intro H. exists i. split; [exact H | apply Nat.eqb_refl].
Qed.

Lemma in_idx_false (i : nat) (idxs : list nat) : in_idx i idxs = false <-> ~ In i idxs.
Proof.
  rewrite <- in_idx_true. destruct (in_idx i idxs); split; intro H;
    try discriminate; try reflexivity; auto. exfalso; now apply H.
Qed.

(** Two index lists with the same members delete the same positions. *)
Lemma drop_from_ext {T : Type} (idxs idxs' : list nat) (l : list T) :
  forall pos,
    (forall i, pos <= i -> (In i idxs <-> In i idxs')) ->
    drop_from pos idxs l = drop_from pos idxs' l.
Proof.
  induction l as [|x l IH]; intros pos H; cbn; [reflexivity|].
  assert (E : in_idx pos idxs = in_idx pos idxs').
  { destruct (in_idx pos idxs') eqn:E'.
    - apply in_idx_true. apply H; [lia|]. now apply in_idx_true.
    - apply in_idx_false. intro Hin. apply in_idx_false in E'. apply E'.
      apply H; [lia|exact Hin]. }
  rewrite E, (IH (S pos)); [reflexivity|]. intros i Hi. apply H. lia.
Qed.

Lemma drop_from_none {T : Type} (idxs : list nat) (l : list T) :
  forall pos, (forall i, In i idxs -> i < pos) -> drop_from pos idxs l = l.
Proof.
  induction l as [|x l IH]; intros pos H; cbn; [reflexivity|].
  destruct (in_idx pos idxs) eqn:E.
  - apply in_idx_true in E. apply H in E. lia.
  - f_equal. apply IH. intros i Hi. apply H in Hi. lia.
Qed.

Lemma drop_from_nil {T : Type} (l : list T) (pos : nat) : drop_from pos [] l = l.
Proof. apply drop_from_none. intros i []. Qed.

(** [del l[i]] deletes position [i]. *)
Lemma py_del_drop {T : Type} (l : list T) :
  forall i pos, i < length l -> py_del i l = Ok (drop_from pos [pos + i] l).
Proof.
  induction l as [|x l IH]; intros i pos Hi; cbn in Hi; [lia|].
  destruct i as [|i]; cbn.
  - rewrite Nat.add_0_r, Nat.eqb_refl. cbn.
    rewrite drop_from_none; [reflexivity|].
    intros j [<-|[]]. lia.
  - replace (pos =? pos + S i) with false by (symmetry; apply Nat.eqb_neq; lia).
    cbn. rewrite (IH i (S pos)) by lia. cbn.
    replace (S (pos + i)) with (pos + S i) by lia. reflexivity.
Qed.

(** Deleting the largest position first leaves the smaller ones in place. *)
Lemma drop_from_largest_first {T : Type} (x : nat) (idxs : list nat) (l : list T) :
  forall pos,
    (forall i, In i idxs -> i < x) ->
    drop_from pos idxs (drop_from pos [x] l) = drop_from pos (x :: idxs) l.
Proof.
  induction l as [|h l IH]; intros pos H; [reflexivity|].
  cbn [drop_from]. unfold in_idx. cbn [existsb].
  destruct (pos =? x) eqn:E; cbn [orb].
  - apply Nat.eqb_eq in E. subst x.
    rewrite (drop_from_none [pos] l (S pos)) by (intros j [<-|[]]; lia).
    rewrite (drop_from_none idxs l pos) by exact H.
    rewrite (drop_from_none (pos :: idxs) l (S pos)); [reflexivity|].
    intros j [<-|Hj]; [lia|]. apply H in Hj. lia.
  - cbn [drop_from]. fold (in_idx pos idxs).
    destruct (in_idx pos idxs); [|f_equal]; apply IH; exact H.
Qed.

Lemma drop_from_length_in_range {T : Type} (x : nat) (l : list T) :
  forall pos, pos <= x -> x < pos + length l ->
              S (length (drop_from pos [x] l)) = length l.
Proof.
  induction l as [|h l IH]; intros pos H1 H2; cbn in *; [lia|].
  destruct (pos =? x) eqn:E; cbn.
  - apply Nat.eqb_eq in E. subst x.
    rewrite drop_from_none; [reflexivity|]. intros j [<-|[]]. lia.
  - apply Nat.eqb_neq in E. f_equal. apply IH; lia.
Qed.

(** ** [sorted(..., reverse=True)] *)

Lemma insert_desc_In (x : nat) (l : list nat) (y : nat) :
  In y (insert_desc x l) <-> y = x \/ In y l.
Proof.
  induction l as [|h l IH]; cbn.
  - intuition.
  - destruct (h <=? x); cbn; [intuition|]. rewrite IH. intuition.
Qed.

Lemma sorted_desc_In (l : list nat) (y : nat) : In y (sorted_desc l) <-> In y l.
Proof.
  induction l as [|h l IH]; cbn; [reflexivity|].
  rewrite insert_desc_In, IH. intuition.
Qed.

Lemma insert_desc_descending (x : nat) (l : list nat) :
  descending l -> ~ In x l -> descending (insert_desc x l).
Proof.
  induction l as [|h l IH]; cbn; intros Hd Hx.
  - split; [intros y []|exact I].
  - destruct Hd as [Hh Hd]. destruct (h <=? x) eqn:E.
    + apply Nat.leb_le in E. cbn. split; [|split; assumption].
      intros y [<-|Hy]; [lia|]. apply Hh in Hy. lia.
    + apply Nat.leb_gt in E. cbn. split.
      * intros y Hy. apply insert_desc_In in Hy as [->|Hy]; [exact E|auto].
      * apply IH; [exact Hd|]. intro; apply Hx; now right.
Qed.

Lemma sorted_desc_descending (l : list nat) : NoDup l -> descending (sorted_desc l).
Proof.
  induction 1 as [|x l Hx Hnd IH]; cbn; [exact I|].
  apply insert_desc_descending; [exact IH|]. now rewrite sorted_desc_In.
Qed.

Lemma sorted_desc_nil_inv (l : list nat) : sorted_desc l = [] -> l = [].
Proof.
  destruct l as [|x l]; [reflexivity|]. intro H.
  assert (Hin : In x (sorted_desc (x :: l))) by (apply sorted_desc_In; now left).
  rewrite H in Hin. destruct Hin.
Qed.

(** ** Loops that delete marked positions *)

Lemma getitem_nth {T : Type} (l : list T) (i : nat) (d : T) :
  i < length l -> getitem l i = Ok (nth i l d).
Proof.
  intro H. unfold getitem.
  destruct (nth_error l i) as [x|] eqn:E.
  - now rewrite (nth_error_nth _ _ d E).
  - apply nth_error_None in E. lia.
Qed.

Lemma np_delete_in_range {T : Type} (idxs : list nat) (l : list T) :
  (forall i, In i idxs -> i < length l) ->
  np_delete idxs l = Ok (drop_from 0 idxs l).
Proof.
  intro H. unfold np_delete.
  replace (forallb (fun i => i <? length l) idxs) with true; [reflexivity|].
  symmetry. apply forallb_forall. intros i Hi. apply Nat.ltb_lt. auto.
Qed.

Lemma py_del_many {T : Type} (idxs : list nat) :
  forall l : list T,
    descending idxs -> (forall i, In i idxs -> i < length l) ->
    for_each idxs (fun i l => py_del i l) l = Ok (drop_from 0 idxs l).
Proof.
  induction idxs as [|x idxs IH]; intros l Hd Hr; cbn [for_each].
  - now rewrite drop_from_nil.
  - destruct Hd as [Hx Hd].
    rewrite (py_del_drop l x 0) by (apply Hr; now left). cbn [bind Nat.add].
    rewrite IH.
    + now rewrite drop_from_largest_first.
    + exact Hd.
    + intros i Hi. specialize (Hx i Hi).
      pose proof (Hr x (or_introl eq_refl)) as Hxl.
      pose proof (drop_from_length_in_range x l 0 (Nat.le_0_l x) Hxl). lia.
Qed.

Lemma drop_from_sorted_desc {T : Type} (idxs : list nat) (l : list T) :
  drop_from 0 (sorted_desc idxs) l = drop_from 0 idxs l.
Proof. apply drop_from_ext. intros i _. apply sorted_desc_In. Qed.

(** The row-deleting loop, when every marked index is marked once and is in
    range, removes exactly the marked positions from the three vectors. *)
Lemma del_row_entries_drop (idxs : list nat) (s : lp_state) :
  NoDup idxs ->
  (forall i, In i idxs ->
             i < length (b s) /\ i < length (cons_senses s)
             /\ i < length (original_row_index s)) ->
  del_row_entries idxs s
  = Ok (set_original_row_index (drop_from 0 idxs (original_row_index s))
          (set_cons_senses (drop_from 0 idxs (cons_senses s))
             (set_b (drop_from 0 idxs (b s)) s))).
Proof.
  intros Hnd Hr. unfold del_row_entries.
  rewrite <- (drop_from_sorted_desc idxs (b s)),
          <- (drop_from_sorted_desc idxs (cons_senses s)),
          <- (drop_from_sorted_desc idxs (original_row_index s)).
  assert (Hd : descending (sorted_desc idxs)) by now apply sorted_desc_descending.
  assert (Hr' : forall i, In i (sorted_desc idxs) ->
                          i < length (b s) /\ i < length (cons_senses s)
                          /\ i < length (original_row_index s)).
  { intros i Hi. apply Hr. now apply sorted_desc_In. }
  clear Hnd Hr. revert s Hd Hr'.
  induction (sorted_desc idxs) as [|x D IH]; intros s Hd Hr; cbn [for_each].
  - rewrite !drop_from_nil. destruct s; reflexivity.
  - destruct Hd as [Hx Hd]. destruct (Hr x (or_introl eq_refl)) as (H1 & H2 & H3).
    rewrite (py_del_drop (b s) x 0 H1), (py_del_drop (cons_senses s) x 0 H2),
      (py_del_drop (original_row_index s) x 0 H3).
    cbn [bind Nat.add]. rewrite IH; [|exact Hd|].
    + cbn. rewrite !drop_from_largest_first by exact Hx. reflexivity.
    + intros i Hi. specialize (Hx i Hi). cbn.
      pose proof (drop_from_length_in_range x (b s) 0 (Nat.le_0_l x) H1).
      pose proof (drop_from_length_in_range x (cons_senses s) 0 (Nat.le_0_l x) H2).
      pose proof (drop_from_length_in_range x (original_row_index s) 0
                    (Nat.le_0_l x) H3).
      lia.
Qed.

(** ** Dictionaries *)

Lemma dict_get_set_same {V : Type} (k : string) (v : V) (d : list (string * V)) :
  dict_get k (dict_set k v d) = Some v.
Proof.
  induction d as [|[k' v'] d IH]; cbn.
  - now rewrite String.eqb_refl.
  - destruct (String.eqb k k') eqn:E; cbn.
    + now rewrite String.eqb_refl.
    + now rewrite E.
Qed.

Lemma dict_get_set_other {V : Type} (k k0 : string) (v : V) (d : list (string * V)) :
  k0 <> k -> dict_get k0 (dict_set k v d) = dict_get k0 d.
Proof.
  intro Hne. induction d as [|[k' v'] d IH]; cbn.
  - apply String.eqb_neq in Hne. now rewrite Hne.
  - destruct (String.eqb k k') eqn:E; cbn.
    + apply String.eqb_eq in E. subst k'.
      apply String.eqb_neq in Hne. now rewrite Hne.
    + destruct (String.eqb k0 k'); [reflexivity|exact IH].
Qed.

Lemma journal_get_set2 (k1 k2 : string) (v : jvalue) (d : journal) :
  journal_get (path2 k1 k2) (journal_set (path2 k1 k2) v d) = Some v.
Proof.
  unfold path2. cbn. rewrite dict_get_set_same. apply dict_get_set_same.
Qed.

Lemma journal_get_set2_other (k1 k2 k2' : string) (v : jvalue) (d : journal) :
  k2' <> k2 ->
  journal_get (path2 k1 k2') (journal_set (path2 k1 k2) v d)
  = journal_get (path2 k1 k2') d.
Proof.
  intro Hne. unfold path2. cbn. rewrite dict_get_set_same.
  rewrite dict_get_set_other by exact Hne.
  destruct (dict_get k1 d) as [[]|]; reflexivity.
Qed.

(** ** The zero-row rule *)

Lemma zero_rows_scan_loop (s : lp_state) (l : list nat) :
  (forall i, In i l ->
             i < nrows (A s) /\ i < length (b s) /\ i < length (original_row_index s)) ->
  forall to_delete to_delete_original ws,
    for_each l
      (fun i acc =>
         let '(to_delete, to_delete_original, ws) := acc in
         row_values <- getitem (mrows (A s)) i ;;
         if forallb qzero row_values then
           b_i <- getitem (b s) i ;;
           if qleb b_i 0 then
             o <- getitem (original_row_index s) i ;;
             Ok (to_delete ++ [i], to_delete_original ++ [o], ws)
           else Ok (to_delete, to_delete_original, ws ++ [Infeasibility])
         else Ok acc)
      (to_delete, to_delete_original, ws)
    = Ok (to_delete ++ filter (redundant_zero_row s) l,
          to_delete_original
            ++ originals (original_row_index s) (filter (redundant_zero_row s) l),
          ws ++ map (fun _ => Infeasibility) (filter (infeasible_zero_row s) l)).
Proof.
  induction l as [|i l IH]; intros Hr td tdo ws; cbn [for_each filter map].
  - now rewrite !app_nil_r.
  - destruct (Hr i (or_introl eq_refl)) as (H1 & H2 & H3).
    rewrite (getitem_nth _ _ [] H1). cbn [bind].
    unfold redundant_zero_row, infeasible_zero_row.
    destruct (forallb qzero (nth i (mrows (A s)) [])) eqn:Ez; cbn [andb].
    + rewrite (getitem_nth _ _ 0%Q H2). cbn [bind].
      destruct (qleb (nth i (b s) 0%Q) 0) eqn:Eb; cbn [negb].
      * rewrite (getitem_nth _ _ 0 H3). cbn [bind].
        etransitivity; [apply IH; intros; apply Hr; now right|].
        unfold originals. cbn [map]. now rewrite <- !app_assoc.
      * etransitivity; [apply IH; intros; apply Hr; now right|].
        cbn [map]. now rewrite <- !app_assoc.
    + apply IH. intros; apply Hr; now right.
Qed.

Lemma dimensions_consistent_spec (s : lp_state) :
  dimensions_consistent s = true ->
  length (b s) = nrows (A s)
  /\ length (cons_senses s) = nrows (A s)
  /\ length (original_row_index s) = nrows (A s)
  /\ length (c s) = ncols (A s)
  /\ length (items (lb s)) = ncols (A s)
  /\ length (items (ub s)) = ncols (A s)
  /\ length (variable_names s) = ncols (A s)
  /\ length (original_column_index s) = ncols (A s)
  /\ (forall r, In r (mrows (A s)) -> length r = ncols (A s)).
Proof.
  unfold dimensions_consistent. intro H.
  repeat (apply andb_true_iff in H as [H ?]).
  repeat match goal with
         | H : (_ =? _) = true |- _ => apply Nat.eqb_eq in H
         end.
  repeat split; try assumption.
  intros r Hr.
  match goal with
  | H : forallb _ _ = true |- _ =>
      rewrite forallb_forall in H; specialize (H r Hr); now apply Nat.eqb_eq in H
  end.
Qed.

Lemma zero_rows_scan_result (s : lp_state) :
  dimensions_consistent s = true ->
  zero_rows_scan s
  = Ok (zero_rows_to_delete s,
        originals (original_row_index s) (zero_rows_to_delete s),
        map (fun _ => Infeasibility)
          (filter (infeasible_zero_row s) (seq 0 (nrows (A s))))).
Proof.
  intro Hd. apply dimensions_consistent_spec in Hd as (H1 & H2 & H3 & _).
  unfold zero_rows_scan. rewrite zero_rows_scan_loop; [reflexivity|].
  intros i Hi. apply in_seq in Hi. lia.
Qed.

Lemma zero_rows_to_delete_spec (s : lp_state) (i : nat) :
  In i (zero_rows_to_delete s) <-> i < nrows (A s) /\ redundant_zero_row s i = true.
Proof.
  unfold zero_rows_to_delete. rewrite filter_In, in_seq. intuition lia.
Qed.

Lemma zero_rows_to_delete_NoDup (s : lp_state) : NoDup (zero_rows_to_delete s).
Proof. apply NoDup_filter, seq_NoDup. Qed.

(** What [eliminate_zero_rows] returns on a consistent state. *)
Lemma eliminate_zero_rows_result (s : lp_state) :
  dimensions_consistent s = true ->
  eliminate_zero_rows s
  = Ok (record_operation "Eliminate Zero Rows"
          (record_change (path2 "eliminate_zero_rows" "deleted_rows_indices")
             (JList (originals (original_row_index s) (zero_rows_to_delete s)))
             (set_original_row_index
                (drop_from 0 (zero_rows_to_delete s) (original_row_index s))
                (set_cons_senses
                   (drop_from 0 (zero_rows_to_delete s) (cons_senses s))
                   (set_b (drop_from 0 (zero_rows_to_delete s) (b s))
                      (set_A (mkMatrix
                                (drop_from 0 (zero_rows_to_delete s) (mrows (A s)))
                                (ncols (A s)))
                         (warn_all
                            (map (fun _ => Infeasibility)
                               (filter (infeasible_zero_row s)
                                  (seq 0 (nrows (A s)))))
                            s))))))).
Proof.
  intro Hd. unfold eliminate_zero_rows.
  rewrite (zero_rows_scan_result s Hd). cbn [bind].
  apply dimensions_consistent_spec in Hd as (H1 & H2 & H3 & _).
  unfold np_delete_rows. cbn [A warn_all set_warnings].
  rewrite np_delete_in_range
    by (intros i Hi; apply zero_rows_to_delete_spec in Hi; unfold nrows in *; lia).
  cbn [bind]. rewrite del_row_entries_drop.
  - reflexivity.
  - apply zero_rows_to_delete_NoDup.
  - intros i Hi. apply zero_rows_to_delete_spec in Hi. cbn. lia.
Qed.

(** C2 amended *)
Theorem eliminate_zero_rows_keeps_rows_with_positive_rhs (s : lp_state) :
  dimensions_consistent s = true ->
  exists s',
    eliminate_zero_rows s = Ok s'
    /\ (forall i, In i (zero_rows_to_delete s)
                  <-> i < nrows (A s) /\ redundant_zero_row s i = true)
    /\ (forall i, infeasible_zero_row s i = true -> ~ In i (zero_rows_to_delete s))
    /\ mrows (A s') = drop_from 0 (zero_rows_to_delete s) (mrows (A s))
    /\ b s' = drop_from 0 (zero_rows_to_delete s) (b s)
    /\ cons_senses s' = drop_from 0 (zero_rows_to_delete s) (cons_senses s)
    /\ original_row_index s'
       = drop_from 0 (zero_rows_to_delete s) (original_row_index s)
    /\ warnings s'
       = warnings s
         ++ map (fun _ => Infeasibility)
              (filter (infeasible_zero_row s) (seq 0 (nrows (A s))))
    /\ journal_get (path2 "eliminate_zero_rows" "deleted_rows_indices")
         (change_dictionary s')
       = Some (JList (originals (original_row_index s) (zero_rows_to_delete s))).
Proof.
  intro Hd. eexists. split; [apply eliminate_zero_rows_result; exact Hd|].
  split; [apply zero_rows_to_delete_spec|].
  split.
  { intros i Hi Hin. apply zero_rows_to_delete_spec in Hin as [_ Hin].
    unfold infeasible_zero_row, redundant_zero_row in *.
    destruct (forallb qzero _); cbn in *; [|discriminate].
    destruct (qleb _ 0); discriminate. }
  cbn. repeat split; try reflexivity. apply journal_get_set2.
Qed.

Lemma eliminate_zero_rows_keeps_rows_with_positive_rhs_witness :
  exists s',
    eliminate_zero_rows zero_row_infeasible_state = Ok s'
    /\ b s' = drop_from 0 (zero_rows_to_delete zero_row_infeasible_state) [3; 2]%Q
    /\ warnings s' = [Infeasibility].
Proof.
  destruct (eliminate_zero_rows_keeps_rows_with_positive_rhs
              zero_row_infeasible_state eq_refl)
    as (s' & H & _ & _ & _ & Hb & _ & _ & Hw & _).
  exists s'. split; [exact H|]. split; [exact Hb|exact Hw].
Defined.

(** ** The zero-column rule *)

Lemma zero_columns_scan_loop (s : lp_state) (l : list nat) :
  (forall j, In j l ->
             j < length (c s) /\ j < length (original_column_index s)
             /\ j < length (variable_names s)) ->
  forall to_delete to_delete_original solution ws,
    for_each l
      (fun j acc =>
         let '(to_delete, to_delete_original, solution, ws) := acc in
         let col := column j (A s) in
         if forallb qzero col then
           c_j <- getitem (c s) j ;;
           if qleb 0 c_j then
             o <- getitem (original_column_index s) j ;;
             var_to_del <- getitem (variable_names s) j ;;
             Ok (to_delete ++ [j], to_delete_original ++ [o],
                 dict_set var_to_del (JInt 0) solution, ws)
           else Ok (to_delete, to_delete_original, solution, ws ++ [Unboundedness])
         else Ok acc)
      (to_delete, to_delete_original, solution, ws)
    = Ok (to_delete ++ filter (redundant_zero_column s) l,
          to_delete_original
            ++ originals (original_column_index s)
                 (filter (redundant_zero_column s) l),
          fixed_at_zero (variable_names s) (filter (redundant_zero_column s) l)
            solution,
          ws ++ map (fun _ => Unboundedness) (filter (unbounded_zero_column s) l)).
Proof.
  induction l as [|j l IH]; intros Hr td tdo sol ws; cbn [for_each filter map].
  - now rewrite !app_nil_r.
  - destruct (Hr j (or_introl eq_refl)) as (H1 & H2 & H3).
    unfold redundant_zero_column, unbounded_zero_column.
    cbv zeta.
    destruct (forallb qzero (column j (A s))) eqn:Ez; cbn [andb].
    + rewrite (getitem_nth _ _ 0%Q H1). cbn [bind].
      destruct (qleb 0 (nth j (c s) 0%Q)) eqn:Ec; cbn [negb].
      * rewrite (getitem_nth _ _ 0 H2), (getitem_nth _ _ EmptyString H3).
        cbn [bind].
        etransitivity; [apply IH; intros; apply Hr; now right|].
        unfold originals, fixed_at_zero. cbn [map fold_left].
        now rewrite <- !app_assoc.
      * etransitivity; [apply IH; intros; apply Hr; now right|].
        cbn [map]. now rewrite <- !app_assoc.
    + apply IH. intros; apply Hr; now right.
Qed.

Lemma zero_columns_scan_result (s : lp_state) :
  dimensions_consistent s = true ->
  zero_columns_scan s
  = Ok (zero_columns_to_delete s,
        originals (original_column_index s) (zero_columns_to_delete s),
        fixed_at_zero (variable_names s) (zero_columns_to_delete s) [],
        map (fun _ => Unboundedness)
          (filter (unbounded_zero_column s) (seq 0 (ncols (A s))))).
Proof.
  intro Hd. apply dimensions_consistent_spec in Hd as (_ & _ & _ & H4 & _ & _ & H7 & H8 & _).
  unfold zero_columns_scan. rewrite zero_columns_scan_loop; [reflexivity|].
  intros j Hj. apply in_seq in Hj. lia.
Qed.

Lemma zero_columns_to_delete_spec (s : lp_state) (j : nat) :
  In j (zero_columns_to_delete s)
  <-> j < ncols (A s) /\ redundant_zero_column s j = true.
Proof.
  unfold zero_columns_to_delete. rewrite filter_In, in_seq. intuition lia.
Qed.

Lemma zero_columns_to_delete_NoDup (s : lp_state) : NoDup (zero_columns_to_delete s).
Proof. apply NoDup_filter, seq_NoDup. Qed.

Lemma bounds_np_delete_one (x : nat) (v : bounds) :
  x < length (items v) ->
  bounds_np_delete [x] v = Ok (NdArray (drop_from 0 [x] (items v))).
Proof.
  intro H. unfold bounds_np_delete. rewrite np_delete_in_range; [reflexivity|].
  intros i [<-|[]]. exact H.
Qed.

Lemma bounds_after_delete_array (idxs : list nat) (l : list Q) :
  bounds_after_delete idxs (NdArray l) = NdArray (drop_from 0 idxs l).
Proof. destruct idxs; cbn [bounds_after_delete items]; [now rewrite drop_from_nil|reflexivity]. Qed.

Lemma items_bounds_after_delete (idxs : list nat) (v : bounds) :
  items (bounds_after_delete idxs v) = drop_from 0 idxs (items v).
Proof. destruct idxs; cbn; [now rewrite drop_from_nil|reflexivity]. Qed.

(** The column-deleting loop of [eliminate_zero_columns] over a strictly
    descending list of indices in range. *)
Lemma zero_columns_delete_loop (idxs : list nat) :
  forall s,
    descending idxs ->
    (forall j, In j idxs ->
               j < length (c s) /\ j < length (variable_names s)
               /\ j < length (items (lb s)) /\ j < length (items (ub s))
               /\ j < length (original_column_index s)) ->
    for_each idxs
      (fun index s =>
         c' <- py_del index (c s) ;;
         n' <- py_del index (variable_names s) ;;
         lb' <- bounds_np_delete [index] (lb s) ;;
         ub' <- bounds_np_delete [index] (ub s) ;;
         o' <- py_del index (original_column_index s) ;;
         Ok (set_original_column_index o'
               (set_ub ub' (set_lb lb' (set_variable_names n' (set_c c' s))))))
      s
    = Ok (set_original_column_index (drop_from 0 idxs (original_column_index s))
            (set_ub (bounds_after_delete idxs (ub s))
               (set_lb (bounds_after_delete idxs (lb s))
                  (set_variable_names (drop_from 0 idxs (variable_names s))
                     (set_c (drop_from 0 idxs (c s)) s))))).
Proof.
  induction idxs as [|x D IH]; intros s Hd Hr; cbn [for_each].
  - rewrite !drop_from_nil. destruct s; reflexivity.
  - destruct Hd as [Hx Hd].
    destruct (Hr x (or_introl eq_refl)) as (H1 & H2 & H3 & H4 & H5).
    rewrite (py_del_drop (c s) x 0 H1), (py_del_drop (variable_names s) x 0 H2),
      (py_del_drop (original_column_index s) x 0 H5),
      (bounds_np_delete_one x (lb s) H3), (bounds_np_delete_one x (ub s) H4).
    cbn [bind Nat.add]. rewrite IH; [|exact Hd|].
    + cbn. rewrite !bounds_after_delete_array.
      rewrite !drop_from_largest_first by exact Hx. reflexivity.
    + intros j Hj. specialize (Hx j Hj). cbn.
      pose proof (drop_from_length_in_range x (c s) 0 (Nat.le_0_l x) H1).
      pose proof (drop_from_length_in_range x (variable_names s) 0 (Nat.le_0_l x) H2).
      pose proof (drop_from_length_in_range x (items (lb s)) 0 (Nat.le_0_l x) H3).
      pose proof (drop_from_length_in_range x (items (ub s)) 0 (Nat.le_0_l x) H4).
      pose proof (drop_from_length_in_range x (original_column_index s) 0
                    (Nat.le_0_l x) H5).
      lia.
Qed.

Lemma np_delete_cols_in_range (idxs : list nat) (M : matrix) :
  (forall j, In j idxs -> j < ncols M) ->
  np_delete_cols idxs M
  = Ok (mkMatrix (map (drop_from 0 idxs) (mrows M))
          (length (drop_from 0 idxs (seq 0 (ncols M))))).
Proof.
  intro H. unfold np_delete_cols.
  replace (forallb (fun i => i <? ncols M) idxs) with true; [reflexivity|].
  symmetry. apply forallb_forall. intros i Hi. apply Nat.ltb_lt. auto.
Qed.

Lemma bounds_after_delete_ext (idxs idxs' : list nat) (v : bounds) :
  (forall i, In i idxs <-> In i idxs') ->
  bounds_after_delete idxs v = bounds_after_delete idxs' v.
Proof.
  intro H. destruct idxs as [|x idxs], idxs' as [|y idxs']; cbn.
  - reflexivity.
  - destruct (proj2 (H y) (or_introl eq_refl)).
  - destruct (proj1 (H x) (or_introl eq_refl)).
  - f_equal. apply drop_from_ext. intros i _. apply H.
Qed.

(** What [eliminate_zero_columns] returns on a consistent state. *)
Lemma eliminate_zero_columns_result (s : lp_state) :
  dimensions_consistent s = true ->
  eliminate_zero_columns s
  = Ok (record_operation "Eliminate Zero Columns"
          (record_change (path2 "eliminate_zero_columns" "solution")
             (JDict (fixed_at_zero (variable_names s) (zero_columns_to_delete s) []))
             (record_change (path2 "eliminate_zero_columns" "deleted_columns")
                (JList (originals (original_column_index s)
                          (zero_columns_to_delete s)))
                (set_original_column_index
                   (drop_from 0 (zero_columns_to_delete s) (original_column_index s))
                   (set_ub (bounds_after_delete (zero_columns_to_delete s) (ub s))
                      (set_lb (bounds_after_delete (zero_columns_to_delete s) (lb s))
                         (set_variable_names
                            (drop_from 0 (zero_columns_to_delete s)
                               (variable_names s))
                            (set_c (drop_from 0 (zero_columns_to_delete s) (c s))
                               (set_A
                                  (mkMatrix
                                     (map (drop_from 0 (zero_columns_to_delete s))
                                        (mrows (A s)))
                                     (length
                                        (drop_from 0 (zero_columns_to_delete s)
                                           (seq 0 (ncols (A s))))))
                                  (warn_all
                                     (map (fun _ => Unboundedness)
                                        (filter (unbounded_zero_column s)
                                           (seq 0 (ncols (A s)))))
                                     s)))))))))).
Proof.
  intro Hd. unfold eliminate_zero_columns.
  rewrite (zero_columns_scan_result s Hd). cbn [bind].
  apply dimensions_consistent_spec in Hd as (_ & _ & _ & H4 & H5 & H6 & H7 & H8 & _).
  cbn [A warn_all set_warnings].
  rewrite np_delete_cols_in_range
    by (intros j Hj; apply zero_columns_to_delete_spec in Hj; lia).
  cbn [bind]. rewrite zero_columns_delete_loop.
  - cbn [bind]. cbn.
    rewrite !drop_from_sorted_desc.
    rewrite !(bounds_after_delete_ext (sorted_desc (zero_columns_to_delete s))
                (zero_columns_to_delete s))
      by (intro; apply sorted_desc_In).
    reflexivity.
  - apply sorted_desc_descending, zero_columns_to_delete_NoDup.
  - intros j Hj. apply sorted_desc_In, zero_columns_to_delete_spec in Hj. cbn. lia.
Qed.

Lemma fixed_at_zero_get (names : list string) (idxs : list nat) :
  forall solution k,
    (dict_get k solution = Some (JInt 0)
     \/ exists j, In j idxs /\ nth j names EmptyString = k) ->
    dict_get k (fixed_at_zero names idxs solution) = Some (JInt 0).
Proof.
  unfold fixed_at_zero.
  induction idxs as [|x idxs IH]; intros sol k H; cbn [fold_left].
  - destruct H as [H|(j & [] & _)]. exact H.
  - apply IH. destruct (string_dec k (nth x names EmptyString)) as [->|Hne].
    + left. apply dict_get_set_same.
    + destruct H as [H|(j & [<-|Hj] & Hk)].
      * left. now rewrite dict_get_set_other.
      * now subst k.
      * right. eauto.
Qed.

(** C9 *)
Theorem eliminate_zero_columns_fixes_or_warns (s : lp_state) :
  dimensions_consistent s = true ->
  exists s' solution,
    eliminate_zero_columns s = Ok s'
    /\ (forall j, In j (zero_columns_to_delete s)
                  <-> j < ncols (A s) /\ redundant_zero_column s j = true)
    /\ mrows (A s') = map (drop_from 0 (zero_columns_to_delete s)) (mrows (A s))
    /\ c s' = drop_from 0 (zero_columns_to_delete s) (c s)
    /\ variable_names s' = drop_from 0 (zero_columns_to_delete s) (variable_names s)
    /\ items (lb s') = drop_from 0 (zero_columns_to_delete s) (items (lb s))
    /\ items (ub s') = drop_from 0 (zero_columns_to_delete s) (items (ub s))
    /\ original_column_index s'
       = drop_from 0 (zero_columns_to_delete s) (original_column_index s)
    /\ journal_get (path2 "eliminate_zero_columns" "deleted_columns")
         (change_dictionary s')
       = Some (JList (originals (original_column_index s) (zero_columns_to_delete s)))
    /\ journal_get (path2 "eliminate_zero_columns" "solution") (change_dictionary s')
       = Some (JDict solution)
    /\ (forall j, In j (zero_columns_to_delete s) ->
                  dict_get (nth j (variable_names s) EmptyString) solution
                  = Some (JInt 0))
    /\ warnings s'
       = warnings s
         ++ map (fun _ => Unboundedness)
              (filter (unbounded_zero_column s) (seq 0 (ncols (A s)))).
Proof.
  intro Hd. eexists. eexists.
  split; [apply eliminate_zero_columns_result; exact Hd|].
  split; [apply zero_columns_to_delete_spec|].
  cbn [record_operation record_change set_operation_table set_change_dictionary
       set_original_column_index set_ub set_lb set_variable_names set_c set_A
       warn_all set_warnings
       A b c lb ub variable_names original_column_index change_dictionary
       warnings mrows].
  rewrite !items_bounds_after_delete.
  repeat (split; [reflexivity|]).
  split.
  { rewrite journal_get_set2_other by discriminate. apply journal_get_set2. }
  split; [apply journal_get_set2|].
  split; [|reflexivity].
  intros j Hj. apply fixed_at_zero_get. right. eauto.
Qed.

Lemma eliminate_zero_columns_fixes_or_warns_witness :
  exists s' solution,
    eliminate_zero_columns zero_column_state = Ok s'
    /\ c s' = drop_from 0 (zero_columns_to_delete zero_column_state) [5; 2]%Q
    /\ journal_get (path2 "eliminate_zero_columns" "solution") (change_dictionary s')
       = Some (JDict solution)
    /\ (forall j, In j (zero_columns_to_delete zero_column_state) ->
                  dict_get (nth j [x0; x1] EmptyString) solution = Some (JInt 0)).
Proof.
  destruct (eliminate_zero_columns_fixes_or_warns zero_column_state eq_refl)
    as (s' & solution & H & _ & _ & Hc & _ & _ & _ & _ & _ & Hj & Hs & _).
  exists s', solution. split; [exact H|]. split; [exact Hc|].
  split; [exact Hj|exact Hs].
Defined.

(** ** Positions, updates and indexed maps *)

Lemma imap_length {T U : Type} (f : nat -> T -> U) (l : list T) :
  length (imap f l) = length l.
Proof.
  unfold imap. rewrite length_map, length_combine, length_seq. apply Nat.min_id.
Qed.

Lemma imap_nth {T U : Type} (f : nat -> T -> U) (l : list T) (r : nat) (d : U) (d' : T) :
  r < length l -> nth r (imap f l) d = f r (nth r l d').
Proof.
  intro H. unfold imap.
  rewrite (nth_indep _ d (f (fst (0, d')) (snd (0, d'))))
    by (rewrite length_map, length_combine, length_seq, Nat.min_id; exact H).
  rewrite (map_nth (fun p => f (fst p) (snd p))).
  rewrite combine_nth by apply length_seq.
  cbn [fst snd]. now rewrite seq_nth.
Qed.

Lemma update_length {T : Type} (i : nat) (v : T) (l : list T) :
  length (update i v l) = length l.
Proof.
  revert i. induction l as [|x l IH]; intros [|i]; cbn; auto.
Qed.

Lemma update_nth {T : Type} (i : nat) (v : T) (l : list T) (r : nat) (d : T) :
  i < length l ->
  nth r (update i v l) d = if r =? i then v else nth r l d.
Proof.
  revert i r. induction l as [|x l IH]; intros i r H; cbn in H; [lia|].
  destruct i as [|i], r as [|r]; cbn; try reflexivity.
  apply IH. lia.
Qed.

Lemma setitem_update {T : Type} (i : nat) (v : T) (l : list T) :
  i < length l -> setitem i v l = Ok (update i v l).
Proof.
  revert i. induction l as [|x l IH]; intros i H; cbn in H; [lia|].
  destruct i as [|i]; cbn; [reflexivity|]. rewrite IH by lia. reflexivity.
Qed.

(** Two lists of the same length with the same elements are equal. *)
Lemma list_eq_nth {T : Type} (d : T) (l1 l2 : list T) :
  length l1 = length l2 ->
  (forall r, r < length l1 -> nth r l1 d = nth r l2 d) ->
  l1 = l2.
Proof.
  revert l2. induction l1 as [|x l1 IH]; intros [|y l2] Hl Hn; try discriminate.
  - reflexivity.
  - f_equal.
    + apply (Hn 0). cbn. lia.
    + apply IH; [now injection Hl|]. intros r Hr. apply (Hn (S r)). cbn. lia.
Qed.

Lemma first_true_from_spec (v : list bool) :
  forall pos n, first_true_from pos v = Some n ->
                pos <= n /\ n - pos < length v /\ nth (n - pos) v false = true.
Proof.
  induction v as [|x v IH]; intros pos n H; cbn in H; [discriminate|].
  destruct x.
  - injection H as <-. rewrite Nat.sub_diag. cbn. repeat split; lia.
  - apply IH in H as (H1 & H2 & H3).
    replace (n - pos) with (S (n - S pos)) by lia. cbn. repeat split; try lia.
    exact H3.
Qed.

Lemma first_true_spec (v : list bool) (n : nat) :
  first_true v = Some n -> n < length v /\ nth n v false = true.
Proof.
  intro H. apply first_true_from_spec in H. rewrite Nat.sub_0_r in H. tauto.
Qed.

Lemma logical_and_nth (x y : list bool) (n : nat) :
  nth n (logical_and x y) false = true ->
  nth n x false = true /\ nth n y false = true.
Proof.
  unfold logical_and. revert y n.
  induction x as [|a x IH]; intros [|c0 y] [|n]; cbn; try discriminate.
  - apply andb_true_iff.
  - apply IH.
Qed.

Lemma logical_and_length (x y : list bool) :
  length (logical_and x y) = Nat.min (length x) (length y).
Proof. unfold logical_and. now rewrite length_map, length_combine. Qed.

(** ** The negative-counterpart detector *)

Lemma find_mate_spec (rb : list (list Q * Q)) (i : nat) (ri : list Q) (bi : Q) (j : nat) :
  find_mate rb i ri bi = Some j ->
  j < length rb /\ j <> i
  /\ exists rj bj, nth_error rb j = Some (rj, bj) /\ negated_row ri bi rj bj = true.
Proof.
  unfold find_mate. intro H. apply find_some in H as [Hin Hj].
  apply in_seq in Hin. apply andb_true_iff in Hj as [Hne Hneg].
  split; [lia|]. split.
  - intro; subst j. now rewrite Nat.eqb_refl in Hne.
  - destruct (nth_error rb j) as [[rj bj]|]; [eauto|discriminate].
Qed.

Lemma detector_lengths (M : matrix) (bv : list Q) :
  length bv = nrows M ->
  length (fst (find_corresponding_negative_rows_with_indices M bv)) = nrows M
  /\ length (snd (find_corresponding_negative_rows_with_indices M bv)) = nrows M.
Proof.
  intro H. unfold find_corresponding_negative_rows_with_indices, nrows in *.
  cbv zeta. cbn [fst snd].
  rewrite !length_map, !length_combine, length_seq, H, !Nat.min_id.
  auto.
Qed.

Lemma detector_mate (M : matrix) (bv : list Q) (i : nat) :
  length bv = nrows M ->
  nth i (fst (find_corresponding_negative_rows_with_indices M bv)) false = true ->
  exists j, nth i (snd (find_corresponding_negative_rows_with_indices M bv)) None
            = Some j
            /\ j < nrows M /\ j <> i.
Proof.
  intros Hl. unfold find_corresponding_negative_rows_with_indices. cbn [fst snd].
  set (rb := combine (mrows M) bv).
  set (mates := map _ (combine (seq 0 (length rb)) rb)).
  assert (Hrb : length rb = nrows M).
  { unfold rb, nrows in *. rewrite length_combine, Hl. apply Nat.min_id. }
  intro H.
  destruct (Nat.lt_ge_cases i (length mates)) as [Hi|Hi].
  2:{ rewrite nth_overflow in H by (rewrite length_map; exact Hi). discriminate. }
  rewrite (nth_indep _ false (is_some (@None nat))) in H
    by (rewrite length_map; exact Hi).
  rewrite map_nth in H.
  destruct (nth i mates None) as [j|] eqn:E; [|discriminate].
  exists j. split; [reflexivity|].
  unfold mates in E, Hi. rewrite length_map, length_combine, length_seq, Nat.min_id in Hi.
  rewrite (nth_indep _ None
             ((fun p => find_mate rb (fst p) (fst (snd p)) (snd (snd p)))
                (0, ([], 0%Q)))) in E
    by (rewrite length_map, length_combine, length_seq, Nat.min_id; exact Hi).
  rewrite (map_nth (fun p => find_mate rb (fst p) (fst (snd p)) (snd (snd p)))) in E.
  rewrite combine_nth in E by apply length_seq.
  cbn [fst snd] in E. rewrite seq_nth in E by exact Hi. cbn in E.
  apply find_mate_spec in E as (H1 & H2 & _). split; [lia|exact H2].
Qed.

(** ** The k-ton pass *)

Lemma nonzero_from_spec (r : list Q) :
  forall pos p, In p (nonzero_from pos r) ->
                pos <= p /\ p - pos < length r
                /\ qnonzero (nth (p - pos) r 0%Q) = true.
Proof.
  induction r as [|x r IH]; intros pos p H; cbn in H; [destruct H|].
  assert (Hrec : In p (nonzero_from (S pos) r) ->
                 pos <= p /\ p - pos < length (x :: r)
                 /\ qnonzero (nth (p - pos) (x :: r) 0%Q) = true).
  { intro Hin. apply IH in Hin as (H1 & H2 & H3).
    replace (p - pos) with (S (p - S pos)) by lia. cbn. repeat split; try lia.
    exact H3. }
  destruct (qnonzero x) eqn:E; [|auto].
  destruct H as [<-|H]; [|auto].
  rewrite Nat.sub_diag. cbn. repeat split; try lia. exact E.
Qed.

Lemma nonzero_from_length (r : list Q) (pos : nat) :
  length (nonzero_from pos r) = count_nonzero r.
Proof.
  unfold count_nonzero. revert pos. induction r as [|x r IH]; intro pos; cbn.
  - reflexivity.
  - destruct (qnonzero x); cbn; now rewrite IH.
Qed.

Lemma last_nonzero_spec (r : list Q) :
  0 < count_nonzero r ->
  exists p, last_nonzero r = Ok p /\ p < length r
            /\ qnonzero (nth p r 0%Q) = true.
Proof.
  intro H. unfold last_nonzero, np_nonzero.
  rewrite <- (nonzero_from_length r 0) in H.
  destruct (rev (nonzero_from 0 r)) as [|p t] eqn:E.
  - apply (f_equal (@length nat)) in E. rewrite length_rev in E. cbn in E. lia.
  - exists p. split; [reflexivity|].
    assert (Hin : In p (nonzero_from 0 r)).
    { apply in_rev. rewrite E. now left. }
    apply nonzero_from_spec in Hin. rewrite Nat.sub_0_r in Hin. tauto.
Qed.

Lemma vec_sub_scaled_ok (x y : list Q) (k0 : Q) :
  length x = length y -> vec_sub_scaled x y k0 = Ok (vec_sub x y k0).
Proof.
  intro H. unfold vec_sub_scaled. rewrite H, Nat.eqb_refl. reflexivity.
Qed.

Lemma vec_sub_length (x y : list Q) (k0 : Q) :
  length x = length y -> length (vec_sub x y k0) = length x.
Proof.
  intro H. unfold vec_sub. rewrite length_map, length_combine, H. apply Nat.min_id.
Qed.

Lemma A_set_A (v : matrix) (s : lp_state) : A (set_A v s) = v.
Proof. reflexivity. Qed.

Lemma A_set_b (v : list Q) (s : lp_state) : A (set_b v s) = A s.
Proof. reflexivity. Qed.

Lemma b_set_A (v : matrix) (s : lp_state) : b (set_A v s) = b s.
Proof. reflexivity. Qed.

Lemma b_set_b (v : list Q) (s : lp_state) : b (set_b v s) = v.
Proof. reflexivity. Qed.

Lemma set_A_set_b_eta (s : lp_state) :
  set_A (mkMatrix (mrows (A s)) (ncols (A s))) (set_b (b s) s) = s.
Proof. destruct s as [[rows nc] ? ? ? ? ? ? ? ? ? ? ? ? ?]. reflexivity. Qed.

Lemma set_A_set_b_twice (M M' : matrix) (v v' : list Q) (s : lp_state) :
  set_A M (set_b v (set_A M' (set_b v' s))) = set_A M (set_b v s).
Proof. reflexivity. Qed.

Lemma leb_succ_other (pos r : nat) : r <> pos -> (S pos <=? r) = (pos <=? r).
Proof.
  intro H. destruct (pos <=? r) eqn:E.
  - apply Nat.leb_le in E. apply Nat.leb_le. lia.
  - apply Nat.leb_gt in E. apply Nat.leb_gt. lia.
Qed.

(** The elimination loop, from row [pos] on: rows and right-hand sides
    at positions [>= pos] other than [i] are replaced. *)
Lemma kton_elimination_loop (i p : nat) (scaled : list Q) (b_i : Q) (n : nat) :
  forall pos s,
    pos + n = nrows (A s) ->
    length (b s) = nrows (A s) ->
    i < nrows (A s) ->
    p < length scaled ->
    (forall r, r < nrows (A s) -> length (nth r (mrows (A s)) []) = length scaled) ->
    nth i (mrows (A s)) [] = scaled ->
    nth i (b s) 0%Q = b_i ->
    for_each (seq pos n)
      (fun r s => if r =? i then Ok s else kton_eliminate_row i p r s) s
    = Ok (set_A
            (mkMatrix
               (imap (fun r row =>
                        if (pos <=? r) && negb (r =? i)
                        then vec_sub row scaled (nth p row 0%Q) else row)
                  (mrows (A s)))
               (ncols (A s)))
            (set_b
               (imap (fun r b_r =>
                        if (pos <=? r) && negb (r =? i)
                        then qsub b_r (qmul (nth p (nth r (mrows (A s)) []) 0%Q) b_i)
                        else b_r)
                  (b s))
               s)).
Proof.
  induction n as [|n IH]; intros pos s Hn Hb Hi Hp Hw Hrow Hbi; cbn [seq for_each].
  - f_equal. unfold nrows in *.
    replace (imap _ (mrows (A s))) with (mrows (A s)).
    replace (imap _ (b s)) with (b s).
    + symmetry. apply set_A_set_b_eta.
    + apply (list_eq_nth 0%Q); [now rewrite imap_length|].
      intros r Hr. rewrite (imap_nth _ _ _ _ 0%Q) by exact Hr.
      replace (pos <=? r) with false by (symmetry; apply Nat.leb_gt; lia).
      reflexivity.
    + apply (list_eq_nth []); [now rewrite imap_length|].
      intros r Hr. rewrite (imap_nth _ _ _ _ []) by exact Hr.
      replace (pos <=? r) with false by (symmetry; apply Nat.leb_gt; lia).
      reflexivity.
  - destruct (pos =? i) eqn:Epi; cbn [bind].
    + apply Nat.eqb_eq in Epi. subst pos.
      rewrite (IH (S i) s) by (assumption || lia). f_equal.
      replace (imap _ (mrows (A s)))
        with (imap (fun r row =>
                      if (i <=? r) && negb (r =? i)
                      then vec_sub row scaled (nth p row 0%Q) else row)
                (mrows (A s))).
      replace (imap _ (b s))
        with (imap (fun r b_r =>
                      if (i <=? r) && negb (r =? i)
                      then qsub b_r (qmul (nth p (nth r (mrows (A s)) []) 0%Q) b_i)
                      else b_r)
                (b s)).
      * reflexivity.
      * apply (list_eq_nth 0%Q); [now rewrite !imap_length|].
        intros r Hr. rewrite imap_length in Hr.
        rewrite !(imap_nth _ _ _ _ 0%Q) by exact Hr.
        destruct (r =? i) eqn:Eri; [now rewrite !andb_false_r|].
        apply Nat.eqb_neq in Eri. now rewrite leb_succ_other.
      * apply (list_eq_nth []); [now rewrite !imap_length|].
        intros r Hr. rewrite imap_length in Hr.
        rewrite !(imap_nth _ _ _ _ []) by exact Hr.
        destruct (r =? i) eqn:Eri; [now rewrite !andb_false_r|].
        apply Nat.eqb_neq in Eri. now rewrite leb_succ_other.
    + apply Nat.eqb_neq in Epi.
      assert (Hpos : pos < nrows (A s)) by lia.
      unfold kton_eliminate_row.
      rewrite (getitem_nth _ _ [] Hpos). cbn [bind].
      rewrite (getitem_nth (nth pos (mrows (A s)) []) p 0%Q)
        by (rewrite Hw by exact Hpos; exact Hp).
      cbn [bind].
      rewrite (getitem_nth (b s) i 0%Q) by lia. cbn [bind].
      rewrite (getitem_nth (b s) pos 0%Q) by lia. cbn [bind].
      rewrite setitem_update by lia. cbn [bind]. rewrite !A_set_b.
      rewrite (getitem_nth _ _ [] Hi). cbn [bind].
      rewrite vec_sub_scaled_ok by (rewrite !Hw by assumption; reflexivity).
      cbn [bind]. rewrite setitem_update by exact Hpos. cbn [bind].
      rewrite Hrow, Hbi.
      set (row' := vec_sub (nth pos (mrows (A s)) []) scaled
                     (nth p (nth pos (mrows (A s)) []) 0%Q)).
      set (b' := qsub (nth pos (b s) 0%Q)
                   (qmul (nth p (nth pos (mrows (A s)) []) 0%Q) b_i)).
      unfold nrows in *.
      rewrite IH; rewrite ?A_set_A, ?b_set_A, ?b_set_b; unfold nrows; cbn [mrows ncols];
        rewrite ?update_length; try assumption; try lia.
      * f_equal. rewrite set_A_set_b_twice.
        replace (imap _ (update pos row' (mrows (A s))))
          with (imap (fun r row =>
                        if (pos <=? r) && negb (r =? i)
                        then vec_sub row scaled (nth p row 0%Q) else row)
                  (mrows (A s))).
        replace (imap _ (update pos b' (b s)))
          with (imap (fun r b_r =>
                        if (pos <=? r) && negb (r =? i)
                        then qsub b_r
                               (qmul (nth p (nth r (mrows (A s)) []) 0%Q) b_i)
                        else b_r)
                  (b s)).
        -- reflexivity.
        -- apply (list_eq_nth 0%Q); [now rewrite !imap_length, update_length|].
           intros r Hr. rewrite imap_length in Hr.
           rewrite (imap_nth _ _ _ _ 0%Q) by exact Hr.
           rewrite (imap_nth _ _ _ _ 0%Q) by (rewrite update_length; exact Hr).
           rewrite !update_nth by lia.
           destruct (r =? pos) eqn:Erp.
           ++ apply Nat.eqb_eq in Erp. subst r.
              replace (S pos <=? pos) with false
                by (symmetry; apply Nat.leb_gt; lia).
              rewrite Nat.leb_refl.
              replace (pos =? i) with false by (symmetry; apply Nat.eqb_neq; lia).
              reflexivity.
           ++ apply Nat.eqb_neq in Erp. now rewrite leb_succ_other.
        -- apply (list_eq_nth []); [now rewrite !imap_length, update_length|].
           intros r Hr. rewrite imap_length in Hr.
           rewrite (imap_nth _ _ _ _ []) by exact Hr.
           rewrite (imap_nth _ _ _ _ []) by (rewrite update_length; lia).
           rewrite update_nth by lia.
           destruct (r =? pos) eqn:Erp.
           ++ apply Nat.eqb_eq in Erp. subst r.
              replace (S pos <=? pos) with false
                by (symmetry; apply Nat.leb_gt; lia).
              rewrite Nat.leb_refl.
              replace (pos =? i) with false by (symmetry; apply Nat.eqb_neq; lia).
              reflexivity.
           ++ apply Nat.eqb_neq in Erp. now rewrite leb_succ_other.
      * intros r Hr. rewrite update_nth by lia.
        destruct (r =? pos); [|apply Hw; exact Hr].
        unfold row'. rewrite vec_sub_length; apply Hw; assumption.
      * rewrite update_nth by lia.
        replace (i =? pos) with false by (symmetry; apply Nat.eqb_neq; lia).
        exact Hrow.
      * rewrite update_nth by lia.
        replace (i =? pos) with false by (symmetry; apply Nat.eqb_neq; lia).
        exact Hbi.
Qed.

Lemma equality_rows_first (kk : nat) (s : lp_state) (valid : list bool)
  (mates : list (option nat)) (i : nat) :
  length (b s) = nrows (A s) ->
  equality_rows kk s = (valid, mates) ->
  first_true valid = Some i ->
  i < nrows (A s)
  /\ count_nonzero (nth i (mrows (A s)) []) = kk
  /\ exists mate, get_mate mates i = Ok mate /\ mate < nrows (A s) /\ mate <> i.
Proof.
  intros Hb He Hf. unfold equality_rows in He.
  pose proof (detector_lengths (A s) (b s) Hb) as [Hl1 Hl2].
  pose proof (detector_mate (A s) (b s) i Hb) as Hm.
  destruct (find_corresponding_negative_rows_with_indices (A s) (b s))
    as [has_pair indices] eqn:Ed.
  cbn [fst snd] in *. injection He as <- <-.
  apply first_true_spec in Hf as [Hi Hv].
  rewrite logical_and_length, !length_map, Hl1 in Hi. fold (nrows (A s)) in Hi.
  rewrite Nat.min_id in Hi.
  apply logical_and_nth in Hv as [Hk Hp].
  split; [exact Hi|]. split.
  - rewrite (nth_indep _ false ((fun n => n =? kk) (count_nonzero [])))
      in Hk by (rewrite !length_map; exact Hi).
    rewrite (map_nth (fun n => n =? kk)), (map_nth count_nonzero) in Hk.
    now apply Nat.eqb_eq in Hk.
  - destruct (Hm Hp) as (mate & E & H1 & H2). exists mate.
    split; [|split; assumption].
    unfold get_mate. rewrite (getitem_nth _ _ None) by lia.
    cbn [bind]. now rewrite E.
Qed.

Lemma map_nth_in_range {T U : Type} (f : T -> U) (l : list T) (r : nat) (d : U) (d' : T) :
  r < length l -> nth r (map f l) d = f (nth r l d').
Proof.
  intro H. rewrite (nth_indep _ d (f d')) by (rewrite length_map; exact H).
  apply map_nth.
Qed.

Lemma lp_state_ext (s1 s2 : lp_state) :
  A s1 = A s2 -> b s1 = b s2 -> c s1 = c s2 -> co s1 = co s2 ->
  lb s1 = lb s2 -> ub s1 = ub s2 -> of_sense s1 = of_sense s2 ->
  cons_senses s1 = cons_senses s2 -> variable_names s1 = variable_names s2 ->
  original_row_index s1 = original_row_index s2 ->
  original_column_index s1 = original_column_index s2 ->
  change_dictionary s1 = change_dictionary s2 ->
  operation_table s1 = operation_table s2 -> warnings s1 = warnings s2 ->
  s1 = s2.
Proof. destruct s1, s2; cbn; intros; subst; reflexivity. Qed.

Ltac fields :=
  cbn [bind A b c co lb ub of_sense cons_senses variable_names original_row_index
       original_column_index change_dictionary operation_table warnings
       set_A set_b set_c set_co set_lb set_ub set_cons_senses set_variable_names
       set_original_row_index set_original_column_index set_change_dictionary
       set_operation_table set_warnings record_change mrows ncols Nat.add].

(** One pass of the k-ton loop on a consistent state in which row [i] is
    the first row with [k] nonzeros and a negative counterpart. *)
Lemma kton_equalities_pass_result (kk : nat) (sol : list (string * jvalue))
  (s : lp_state) (valid : list bool) (mates : list (option nat)) (i : nat) :
  dimensions_consistent s = true ->
  0 < kk ->
  equality_rows kk s = (valid, mates) ->
  first_true valid = Some i ->
  exists mate p,
    get_mate mates i = Ok mate /\ mate < nrows (A s) /\ mate <> i
    /\ last_nonzero (nth i (mrows (A s)) []) = Ok p
    /\ p < ncols (A s)
    /\ qnonzero (nth p (nth i (mrows (A s)) []) 0%Q) = true
    /\ kton_equalities_pass kk sol s
       = Ok (true,
             dict_set (nth p (variable_names s) EmptyString)
               (JExpr (nth i (mrows (A s)) []) (nth i (b s) 0%Q)) sol,
             kton_journal (nth p (variable_names s) EmptyString)
               (nth p (original_column_index s) 0)
               [nth i (original_row_index s) 0; nth mate (original_row_index s) 0]
               (dict_set (nth p (variable_names s) EmptyString)
                  (JExpr (nth i (mrows (A s)) []) (nth i (b s) 0%Q)) sol)
               (kton_substitution i mate p s)).
Proof.
  intros Hd Hk He Hf.
  apply dimensions_consistent_spec in Hd
    as (Hb & Hcs & Hor & Hc & Hlb & Hub & Hvn & Hoc & Hw).
  destruct (equality_rows_first kk s valid mates i Hb He Hf)
    as (Hi & Hcount & mate & Hmate & Hm1 & Hm2).
  assert (Hwi : length (nth i (mrows (A s)) []) = ncols (A s)).
  { apply Hw, nth_In. exact Hi. }
  destruct (last_nonzero_spec (nth i (mrows (A s)) [])) as (p & Hp & Hp1 & Hp2);
    [lia|].
  exists mate, p. rewrite Hwi in Hp1.
  repeat (split; [assumption|]).
  unfold kton_equalities_pass. rewrite He, Hf.
  rewrite (getitem_nth _ _ [] Hi). fields. rewrite Hmate. fields.
  rewrite (getitem_nth _ i 0) by lia. fields.
  rewrite (getitem_nth _ mate 0) by lia. fields.
  rewrite Hp. fields.
  rewrite (getitem_nth _ p 0) by lia. fields.
  rewrite (getitem_nth _ p EmptyString) by lia. fields.
  rewrite (getitem_nth _ i 0%Q) by lia. fields.
  rewrite (getitem_nth _ p 0%Q) by lia. fields.
  rewrite setitem_update by lia. fields.
  rewrite setitem_update by exact Hi. fields.
  set (pivot := nth p (nth i (mrows (A s)) []) 0%Q).
  set (scaled := map (fun x => qdiv x pivot) (nth i (mrows (A s)) [])).
  set (b_i := qdiv (nth i (b s) 0%Q) pivot).
  unfold nrows at 1. fields. rewrite update_length.
  rewrite (kton_elimination_loop i p scaled b_i (length (mrows (A s))) 0);
    rewrite ?A_set_A, ?b_set_A, ?b_set_b; unfold nrows in *; cbn [mrows ncols];
    rewrite ?update_length; try assumption; try lia.
  2:{ unfold scaled. rewrite length_map. lia. }
  2:{ intros r Hr. rewrite update_nth by exact Hi.
      destruct (r =? i); [reflexivity|].
      unfold scaled. rewrite length_map, Hwi. apply Hw, nth_In. exact Hr. }
  2:{ rewrite update_nth by exact Hi. now rewrite Nat.eqb_refl. }
  2:{ rewrite update_nth by lia. now rewrite Nat.eqb_refl. }
  fields.
  set (rows1 := imap _ (update i scaled (mrows (A s)))).
  set (b1 := imap _ (update i b_i (b s))).
  assert (Hrows1 : rows1
                   = imap (fun r row => if r =? i then scaled
                                        else vec_sub row scaled (nth p row 0%Q))
                       (mrows (A s))).
  { apply (list_eq_nth []); [unfold rows1; now rewrite !imap_length, update_length|].
    intros r Hr. unfold rows1 in *. rewrite imap_length, update_length in Hr.
    rewrite (imap_nth _ _ _ _ []) by (rewrite update_length; exact Hr).
    rewrite (imap_nth _ _ _ _ []) by exact Hr.
    rewrite update_nth by exact Hi. cbn [Nat.leb andb].
    destruct (r =? i); reflexivity. }
  assert (Hb1 : b1
                = imap (fun r b_r =>
                          if r =? i then b_i
                          else qsub b_r
                                 (qmul (nth p (nth r (mrows (A s)) []) 0%Q) b_i))
                    (b s)).
  { apply (list_eq_nth 0%Q); [unfold b1; now rewrite !imap_length, update_length|].
    intros r Hr. unfold b1 in *. rewrite imap_length, update_length in Hr.
    rewrite (imap_nth _ _ _ _ 0%Q) by (rewrite update_length; exact Hr).
    rewrite (imap_nth _ _ _ _ 0%Q) by exact Hr.
    rewrite !update_nth by lia. cbn [Nat.leb andb].
    destruct (r =? i); reflexivity. }
  clearbody rows1 b1. subst rows1 b1.
  set (rows1 := imap _ (mrows (A s))).
  set (b1 := imap _ (b s)).
  assert (Hl1 : length rows1 = length (mrows (A s))) by apply imap_length.
  assert (Hlb1 : length b1 = length (mrows (A s)))
    by (unfold b1; rewrite imap_length; exact Hb).
  assert (Hr1i : nth i rows1 [] = scaled).
  { unfold rows1. rewrite (imap_nth _ _ _ _ []) by exact Hi.
    now rewrite Nat.eqb_refl. }
  assert (Hb1i : nth i b1 0%Q = b_i).
  { unfold b1. rewrite (imap_nth _ _ _ _ 0%Q) by lia. now rewrite Nat.eqb_refl. }
  rewrite (getitem_nth _ p 0%Q) by lia. fields.
  rewrite (getitem_nth b1 i 0%Q) by lia. fields.
  rewrite (getitem_nth rows1 i []) by lia. fields.
  rewrite Hr1i, Hb1i.
  rewrite vec_sub_scaled_ok by (unfold scaled; rewrite length_map; lia). fields.
  rewrite np_delete_cols_in_range by (cbn [ncols]; intros j [<-|[]]; exact Hp1).
  fields.
  rewrite (py_del_drop _ p 0) by (rewrite vec_sub_length; unfold scaled;
                                  rewrite ?length_map; lia).
  fields.
  rewrite (bounds_np_delete_one p (lb s)) by lia.
  rewrite (bounds_np_delete_one p (ub s)) by lia. fields.
  rewrite (py_del_drop _ p 0) by lia. fields.
  rewrite (py_del_drop _ p 0) by lia. fields.
  rewrite (getitem_nth _ i []) by (rewrite length_map; lia). fields.
  rewrite (map_nth_in_range _ _ _ _ []) by lia.
  rewrite setitem_update by (rewrite length_map; lia). fields.
  rewrite setitem_update by lia. fields.
  unfold np_delete_rows. fields.
  rewrite np_delete_in_range
    by (intros j [<-|[]]; rewrite update_length, length_map; lia).
  fields.
  rewrite (py_del_drop _ mate 0) by (rewrite update_length; lia). fields.
  rewrite (py_del_drop _ mate 0) by lia. fields.
  rewrite (py_del_drop _ mate 0) by lia. fields.
  f_equal. f_equal.
  unfold kton_journal, kton_substitution.
  fold pivot. fold scaled. fold b_i. fold rows1. fold b1.
  apply lp_state_ext; fields; try reflexivity.
  - f_equal. f_equal.
    apply (list_eq_nth []); [now rewrite update_length, imap_length, length_map|].
    intros r Hr. rewrite update_length, length_map in Hr.
    rewrite update_nth by (rewrite length_map; lia).
    rewrite (imap_nth _ _ _ _ []) by exact Hr.
    rewrite (map_nth_in_range _ _ _ _ []) by exact Hr.
    destruct (r =? i) eqn:Eri; [|reflexivity].
    apply Nat.eqb_eq in Eri. subst r. reflexivity.
  - f_equal.
    apply (list_eq_nth 0%Q); [now rewrite update_length, imap_length|].
    intros r Hr. rewrite update_length in Hr.
    rewrite update_nth by lia.
    rewrite (imap_nth _ _ _ _ 0%Q) by exact Hr.
    destruct (r =? i) eqn:Eri; [|reflexivity].
    apply Nat.eqb_eq in Eri. subst r. now rewrite Hb1i.
Qed.

Lemma nonzero_from_complete (r : list Q) :
  forall pos j, j < length r -> qnonzero (nth j r 0%Q) = true ->
                In (pos + j) (nonzero_from pos r).
Proof.
  induction r as [|x r IH]; intros pos j Hj Hn; cbn in Hj; [lia|].
  cbn [nonzero_from]. destruct j as [|j]; cbn in Hn.
  - rewrite Hn, Nat.add_0_r. now left.
  - assert (Hin : In (pos + S j) (nonzero_from (S pos) r)).
    { replace (pos + S j) with (S pos + j) by lia. apply IH; [lia|exact Hn]. }
    destruct (qnonzero x); [now right|exact Hin].
Qed.

Lemma nonzero_from_last (r : list Q) :
  forall pos p t, rev (nonzero_from pos r) = p :: t ->
                  forall j, In j (nonzero_from pos r) -> j <= p.
Proof.
  induction r as [|x r IH]; intros pos p t H j Hj; cbn in *; [destruct Hj|].
  destruct (qnonzero x).
  - cbn [rev] in H.
    destruct (rev (nonzero_from (S pos) r)) as [|p' t'] eqn:E.
    + cbn in H. injection H as <- <-.
      assert (Hnil : nonzero_from (S pos) r = []).
      { apply (f_equal (@rev nat)) in E. now rewrite rev_involutive in E. }
      rewrite Hnil in Hj. destruct Hj as [<-|[]]. lia.
    + cbn in H. injection H as <- <-.
      destruct Hj as [<-|Hj]; [|eapply IH; eauto].
      assert (Hin : In p' (nonzero_from (S pos) r)).
      { apply in_rev. rewrite E. now left. }
      apply nonzero_from_spec in Hin. lia.
  - eapply IH; eauto.
Qed.

Lemma last_nonzero_is_last (r : list Q) (p : nat) :
  last_nonzero r = Ok p ->
  forall j, p < j -> j < length r -> qzero (nth j r 0%Q) = true.
Proof.
  unfold last_nonzero, np_nonzero. intros H j Hpj Hj.
  destruct (rev (nonzero_from 0 r)) as [|p' t] eqn:E; [discriminate|].
  injection H as ->.
  destruct (qzero (nth j r 0%Q)) eqn:Ez; [reflexivity|].
  assert (Hn : qnonzero (nth j r 0%Q) = true).
  { unfold qnonzero, qzero in *. now rewrite Ez. }
  pose proof (nonzero_from_complete r 0 j Hj Hn) as Hin. cbn in Hin.
  pose proof (nonzero_from_last r 0 p t E j Hin). lia.
Qed.

Lemma qdiv_self (x : Q) : qnonzero x = true -> (qdiv x x == 1)%Q.
Proof.
  unfold qnonzero, qdiv. intro H. rewrite Qred_correct.
  apply Qmult_inv_r. intro E. apply Qeq_bool_iff in E. rewrite E in H. discriminate.
Qed.

(** C8 *)
Theorem kton_pass_follows_the_specification :
  (forall (kk : nat) (sol : list (string * jvalue)) (s : lp_state)
          (valid : list bool) (mates : list (option nat)) (i : nat),
      dimensions_consistent s = true ->
      0 < kk ->
      equality_rows kk s = (valid, mates) ->
      first_true valid = Some i ->
      exists mate p,
        get_mate mates i = Ok mate /\ mate < nrows (A s) /\ mate <> i
        /\ last_nonzero (nth i (mrows (A s)) []) = Ok p
        /\ p < ncols (A s)
        /\ (forall j, p < j -> j < ncols (A s) ->
                      qzero (nth j (nth i (mrows (A s)) []) 0%Q) = true)
        /\ qnonzero (nth p (nth i (mrows (A s)) []) 0%Q) = true
        /\ (nth p (map (fun x => qdiv x (nth p (nth i (mrows (A s)) []) 0%Q))
                     (nth i (mrows (A s)) [])) 0 == 1)%Q
        /\ kton_equalities_pass kk sol s
           = Ok (true,
                 dict_set (nth p (variable_names s) EmptyString)
                   (JExpr (nth i (mrows (A s)) []) (nth i (b s) 0%Q)) sol,
                 kton_journal (nth p (variable_names s) EmptyString)
                   (nth p (original_column_index s) 0)
                   [nth i (original_row_index s) 0;
                    nth mate (original_row_index s) 0]
                   (dict_set (nth p (variable_names s) EmptyString)
                      (JExpr (nth i (mrows (A s)) []) (nth i (b s) 0%Q)) sol)
                   (kton_substitution i mate p s)))
  /\ exists s',
       eliminate_kton_equalities 4 2 kton_scenario_state = Ok s'
       /\ mrows (A s') = [[-1 # 2; 0]; [-1 # 2; 1]]%Q
       /\ b s' = [-2; 3]%Q
       /\ variable_names s' = [x0; x2]
       /\ original_column_index s' = [0; 2]
       /\ original_row_index s' = [0; 2].
Proof.
  split; [|exact kton_scenario].
  intros kk sol s valid mates i Hd Hk He Hf.
  destruct (kton_equalities_pass_result kk sol s valid mates i Hd Hk He Hf)
    as (mate & p & H1 & H2 & H3 & H4 & H5 & H6 & H7).
  exists mate, p.
  assert (Hlen : length (nth i (mrows (A s)) []) = ncols (A s)).
  { apply dimensions_consistent_spec in Hd as (Hb & _ & _ & _ & _ & _ & _ & _ & Hw).
    apply Hw, nth_In.
    destruct (equality_rows_first kk s valid mates i Hb He Hf) as [Hi _]. exact Hi. }
  repeat (split; [assumption|]).
  split.
  { intros j Hj1 Hj2. apply (last_nonzero_is_last _ p H4 j Hj1). now rewrite Hlen. }
  split; [assumption|]. split; [|exact H7].
  rewrite (map_nth_in_range _ _ _ _ 0%Q) by (rewrite Hlen; exact H5).
  apply qdiv_self. exact H6.
Qed.

Lemma kton_pass_follows_the_specification_witness :
  exists mate p,
    get_mate [Some 1; Some 0; None] 0 = Ok mate
    /\ last_nonzero [1; 2; 0]%Q = Ok p
    /\ kton_equalities_pass 2 [] kton_scenario_state
       = Ok (true,
             dict_set (nth p [x0; x1; x2] EmptyString)
               (JExpr [1; 2; 0]%Q 4%Q) [],
             kton_journal (nth p [x0; x1; x2] EmptyString) (nth p [0; 1; 2] 0)
               [0; nth mate [0; 1; 2] 0]
               (dict_set (nth p [x0; x1; x2] EmptyString)
                  (JExpr [1; 2; 0]%Q 4%Q) [])
               (kton_substitution 0 mate p kton_scenario_state)).
Proof.
  destruct (proj1 kton_pass_follows_the_specification 2 [] kton_scenario_state
              [true; true; false] [Some 1; Some 0; None] 0
              eq_refl (Nat.lt_0_succ 1) eq_refl eq_refl)
    as (mate & p & H1 & _ & _ & H4 & _ & _ & _ & _ & H9).
  exists mate, p. split; [exact H1|]. split; [exact H4|exact H9].
Defined.

(** ** Running the two zero rules a second time *)

Lemma drop_from_same_length {T U : Type} (idxs : list nat) (l1 : list T) :
  forall (l2 : list U) pos,
    length l1 = length l2 ->
    length (drop_from pos idxs l1) = length (drop_from pos idxs l2).
Proof.
  induction l1 as [|x l1 IH]; intros [|y l2] pos H; try discriminate; cbn.
  - reflexivity.
  - injection H as H. destruct (in_idx pos idxs); cbn; auto.
Qed.

Lemma drop_from_seq_In (idxs : list nat) (n : nat) :
  forall pos k, In k (drop_from pos idxs (seq pos n))
                -> pos <= k < pos + n /\ ~ In k idxs.
Proof.
  induction n as [|n IH]; intros pos k H; cbn in H; [destruct H|].
  destruct (in_idx pos idxs) eqn:E.
  - apply IH in H. split; [lia|tauto].
  - destruct H as [<-|H].
    + split; [lia|]. now apply in_idx_false.
    + apply IH in H. split; [lia|tauto].
Qed.

(** The positions that survive, in order. *)
Lemma drop_from_as_map {T : Type} (d : T) (idxs : list nat) (l : list T) :
  forall pos,
    drop_from pos idxs l
    = map (fun k => nth (k - pos) l d) (drop_from pos idxs (seq pos (length l))).
Proof.
  induction l as [|x l IH]; intro pos; [reflexivity|].
  cbn [drop_from length seq].
  assert (E : map (fun k => nth (k - pos) (x :: l) d)
                (drop_from (S pos) idxs (seq (S pos) (length l)))
              = drop_from (S pos) idxs l).
  { rewrite (IH (S pos)). apply map_ext_in. intros k Hk.
    apply drop_from_seq_In in Hk as [Hk' _].
    replace (k - pos) with (S (k - S pos)) by lia. reflexivity. }
  destruct (in_idx pos idxs); [now rewrite E|].
  cbn [map]. rewrite E, Nat.sub_diag. reflexivity.
Qed.

Lemma drop_from_nth {T : Type} (d : T) (idxs : list nat) (l : list T) (r : nat) :
  r < length (drop_from 0 idxs l) ->
  exists k, k < length l /\ ~ In k idxs
            /\ k = nth r (drop_from 0 idxs (seq 0 (length l))) 0
            /\ nth r (drop_from 0 idxs l) d = nth k l d.
Proof.
  intro Hr. rewrite (drop_from_as_map d) in *. rewrite length_map in Hr.
  exists (nth r (drop_from 0 idxs (seq 0 (length l))) 0).
  assert (Hin : In (nth r (drop_from 0 idxs (seq 0 (length l))) 0)
                  (drop_from 0 idxs (seq 0 (length l)))) by now apply nth_In.
  apply drop_from_seq_In in Hin as [H1 H2].
  split; [lia|]. split; [exact H2|]. split; [reflexivity|].
  rewrite (map_nth_in_range _ _ _ _ 0) by exact Hr. now rewrite Nat.sub_0_r.
Qed.

Lemma forallb_qzero_drop (idxs : list nat) (r : list Q) :
  forall pos,
    (forall j, In (pos + j) idxs -> j < length r -> qzero (nth j r 0%Q) = true) ->
    forallb qzero (drop_from pos idxs r) = forallb qzero r.
Proof.
  induction r as [|x r IH]; intros pos H; cbn; [reflexivity|].
  assert (Hrec : forallb qzero (drop_from (S pos) idxs r) = forallb qzero r).
  { apply IH. intros j Hj Hl. apply (H (S j)); [|cbn; lia].
    now replace (pos + S j) with (S pos + j) by lia. }
  destruct (in_idx pos idxs) eqn:E; cbn; rewrite Hrec; [|reflexivity].
  apply in_idx_true in E.
  assert (Hx : qzero x = true).
  { apply (H 0); [now rewrite Nat.add_0_r | cbn; lia]. }
  now rewrite Hx.
Qed.

Lemma filter_nil_iff {T : Type} (f : T -> bool) (l : list T) :
  (forall x, In x l -> f x = false) -> filter f l = [].
Proof.
  induction l as [|x l IH]; intro H; cbn; [reflexivity|].
  rewrite (H x) by now left. apply IH. intros; apply H; now right.
Qed.

Lemma dimensions_consistent_intro (s : lp_state) :
  length (b s) = nrows (A s) ->
  length (cons_senses s) = nrows (A s) ->
  length (original_row_index s) = nrows (A s) ->
  length (c s) = ncols (A s) ->
  length (items (lb s)) = ncols (A s) ->
  length (items (ub s)) = ncols (A s) ->
  length (variable_names s) = ncols (A s) ->
  length (original_column_index s) = ncols (A s) ->
  (forall r, In r (mrows (A s)) -> length r = ncols (A s)) ->
  dimensions_consistent s = true.
Proof.
  intros H1 H2 H3 H4 H5 H6 H7 H8 H9. unfold dimensions_consistent.
  rewrite H1, H2, H3, H4, H5, H6, H7, H8, !Nat.eqb_refl. cbn.
  apply forallb_forall. intros r Hr. apply Nat.eqb_eq. auto.
Qed.

Lemma filter_nil_inv {T : Type} (f : T -> bool) (l : list T) (x : T) :
  filter f l = [] -> In x l -> f x = false.
Proof.
  intros H Hin. destruct (f x) eqn:E; [|reflexivity].
  assert (Hx : In x (filter f l)) by (apply filter_In; auto).
  rewrite H in Hx. destruct Hx.
Qed.

(** After the zero-row rule no redundant zero row is left. *)
Lemma no_redundant_zero_row_left (s s' : lp_state) :
  dimensions_consistent s = true ->
  mrows (A s') = drop_from 0 (zero_rows_to_delete s) (mrows (A s)) ->
  b s' = drop_from 0 (zero_rows_to_delete s) (b s) ->
  zero_rows_to_delete s' = [].
Proof.
  intros Hd HA Hb.
  apply dimensions_consistent_spec in Hd as (Hlb & _).
  unfold zero_rows_to_delete at 1. apply filter_nil_iff. intros i Hi.
  apply in_seq in Hi. unfold nrows in *. rewrite HA in Hi.
  unfold redundant_zero_row. rewrite HA, Hb.
  destruct (drop_from_nth [] (zero_rows_to_delete s) (mrows (A s)) i)
    as (k1 & Hk1 & Hn1 & Ek1 & E1); [lia|].
  destruct (drop_from_nth 0%Q (zero_rows_to_delete s) (b s) i)
    as (k2 & Hk2 & Hn2 & Ek2 & E2).
  { rewrite (drop_from_same_length _ (b s) (mrows (A s)) 0 Hlb). lia. }
  rewrite Hlb in Ek2. rewrite <- Ek1 in Ek2. subst k2.
  rewrite E1, E2.
  destruct (forallb qzero (nth k1 (mrows (A s)) []) && qleb (nth k1 (b s) 0%Q) 0)
    eqn:E; [|reflexivity].
  exfalso. apply Hn1. apply zero_rows_to_delete_spec. split; [exact Hk1|exact E].
Qed.

Lemma column_after_deletion (s : lp_state) (idxs : list nat) (j : nat) :
  (forall r, In r (mrows (A s)) -> length r = ncols (A s)) ->
  j < length (drop_from 0 idxs (seq 0 (ncols (A s)))) ->
  map (fun r => nth j r 0%Q) (map (drop_from 0 idxs) (mrows (A s)))
  = column (nth j (drop_from 0 idxs (seq 0 (ncols (A s)))) 0) (A s).
Proof.
  intros Hw Hj. unfold column. rewrite map_map. apply map_ext_in. intros r Hr.
  specialize (Hw r Hr).
  destruct (drop_from_nth 0%Q idxs r j) as (k & _ & _ & Ek & E).
  { rewrite (drop_from_same_length idxs r (seq 0 (ncols (A s))) 0)
      by (rewrite length_seq; exact Hw). exact Hj. }
  rewrite E, Ek, Hw. reflexivity.
Qed.

(** After the zero-column rule no redundant zero column is left. *)
Lemma no_redundant_zero_column_left (s s' : lp_state) :
  dimensions_consistent s = true ->
  mrows (A s') = map (drop_from 0 (zero_columns_to_delete s)) (mrows (A s)) ->
  ncols (A s')
  = length (drop_from 0 (zero_columns_to_delete s) (seq 0 (ncols (A s)))) ->
  c s' = drop_from 0 (zero_columns_to_delete s) (c s) ->
  zero_columns_to_delete s' = [].
Proof.
  intros Hd HA Hn Hc.
  apply dimensions_consistent_spec in Hd as (_ & _ & _ & Hlc & _ & _ & _ & _ & Hw).
  unfold zero_columns_to_delete at 1. apply filter_nil_iff. intros j Hj.
  apply in_seq in Hj. rewrite Hn in Hj.
  unfold redundant_zero_column. unfold column at 1. rewrite HA, Hc.
  rewrite column_after_deletion by (assumption || lia).
  destruct (drop_from_nth 0%Q (zero_columns_to_delete s) (c s) j)
    as (k & Hk & Hnk & Ek & E).
  { rewrite (drop_from_same_length _ (c s) (seq 0 (ncols (A s))) 0)
      by (rewrite length_seq; exact Hlc). lia. }
  rewrite E, Ek, Hlc. rewrite Hlc in Ek. rewrite <- Ek.
  destruct (forallb qzero (column k (A s)) && qleb 0 (nth k (c s) 0%Q)) eqn:E0;
    [|reflexivity].
  exfalso. apply Hnk. apply zero_columns_to_delete_spec. split; [lia|exact E0].
Qed.

(** Deleting zero columns turns no row into a redundant zero row. *)
Lemma no_redundant_zero_row_exposed (s s' : lp_state) :
  zero_rows_to_delete s = [] ->
  mrows (A s') = map (drop_from 0 (zero_columns_to_delete s)) (mrows (A s)) ->
  b s' = b s ->
  zero_rows_to_delete s' = [].
Proof.
  intros Hz HA Hb.
  unfold zero_rows_to_delete at 1. apply filter_nil_iff. intros i Hi.
  apply in_seq in Hi. unfold nrows in Hi. rewrite HA, length_map in Hi.
  assert (Hf : redundant_zero_row s i = false).
  { apply (filter_nil_inv _ _ i Hz). apply in_seq. unfold nrows. lia. }
  unfold redundant_zero_row in *. rewrite HA, Hb.
  rewrite (map_nth_in_range _ _ _ _ []) by lia.
  rewrite forallb_qzero_drop; [exact Hf|].
  intros j Hj Hl. cbn [Nat.add] in Hj.
  apply zero_columns_to_delete_spec in Hj as [_ Hj].
  unfold redundant_zero_column in Hj. apply andb_true_iff in Hj as [Hj _].
  unfold column in Hj. rewrite forallb_forall in Hj.
  apply Hj. apply in_map_iff. exists (nth i (mrows (A s)) []).
  split; [reflexivity|]. apply nth_In. lia.
Qed.

Lemma zero_rows_to_delete_ext (s s' : lp_state) :
  A s' = A s -> b s' = b s -> zero_rows_to_delete s' = zero_rows_to_delete s.
Proof.
  intros HA Hb. unfold zero_rows_to_delete, redundant_zero_row, nrows.
  now rewrite HA, Hb.
Qed.

Lemma zero_columns_to_delete_ext (s s' : lp_state) :
  A s' = A s -> c s' = c s -> zero_columns_to_delete s' = zero_columns_to_delete s.
Proof.
  intros HA Hc. unfold zero_columns_to_delete, redundant_zero_column.
  now rewrite HA, Hc.
Qed.

Lemma matrix_eta (M : matrix) : mkMatrix (mrows M) (ncols M) = M.
Proof. destruct M; reflexivity. Qed.

Lemma map_drop_from_nil {T : Type} (rows : list (list T)) :
  map (drop_from 0 []) rows = rows.
Proof.
  rewrite <- (map_id rows) at 2. apply map_ext. intro r. apply drop_from_nil.
Qed.

Lemma model_of_state_ext (s s' : lp_state) :
  A s' = A s -> b s' = b s -> c s' = c s -> co s' = co s -> lb s' = lb s ->
  ub s' = ub s -> of_sense s' = of_sense s -> cons_senses s' = cons_senses s ->
  variable_names s' = variable_names s ->
  model_of_state s' = model_of_state s.
Proof. unfold model_of_state. intros. congruence. Qed.

Lemma dimensions_consistent_ext (s s' : lp_state) :
  dimensions_consistent s = true ->
  A s' = A s -> b s' = b s -> c s' = c s -> lb s' = lb s -> ub s' = ub s ->
  cons_senses s' = cons_senses s -> variable_names s' = variable_names s ->
  length (original_row_index s') = length (original_row_index s) ->
  length (original_column_index s') = length (original_column_index s) ->
  dimensions_consistent s' = true.
Proof.
  intros Hd HA Hb Hc Hlb Hub Hcs Hvn Hor Hoc.
  unfold dimensions_consistent in *.
  now rewrite HA, Hb, Hc, Hlb, Hub, Hcs, Hvn, Hor, Hoc.
Qed.

(** The zero-row rule on a state without redundant zero rows. *)
Lemma eliminate_zero_rows_no_op (s : lp_state) :
  dimensions_consistent s = true ->
  zero_rows_to_delete s = [] ->
  exists s',
    eliminate_zero_rows s = Ok s'
    /\ model_of_state s' = model_of_state s
    /\ dimensions_consistent s' = true
    /\ change_dictionary s'
       = journal_set (path2 "eliminate_zero_rows" "deleted_rows_indices")
           (JList []) (change_dictionary s).
Proof.
  intros Hd Hz. eexists. split; [apply eliminate_zero_rows_result; exact Hd|].
  rewrite Hz. cbn [originals map]. rewrite !drop_from_nil, matrix_eta.
  split; [|split].
  - apply model_of_state_ext; reflexivity.
  - apply (dimensions_consistent_ext s); try reflexivity. exact Hd.
  - reflexivity.
Qed.

(** The zero-column rule on a state without redundant zero columns. *)
Lemma eliminate_zero_columns_no_op (s : lp_state) :
  dimensions_consistent s = true ->
  zero_columns_to_delete s = [] ->
  exists s',
    eliminate_zero_columns s = Ok s'
    /\ model_of_state s' = model_of_state s
    /\ dimensions_consistent s' = true
    /\ change_dictionary s'
       = journal_set (path2 "eliminate_zero_columns" "solution") (JDict [])
           (journal_set (path2 "eliminate_zero_columns" "deleted_columns")
              (JList []) (change_dictionary s)).
Proof.
  intros Hd Hz. eexists. split; [apply eliminate_zero_columns_result; exact Hd|].
  rewrite Hz. cbn [originals map fixed_at_zero fold_left bounds_after_delete].
  rewrite !drop_from_nil, map_drop_from_nil, length_seq, matrix_eta.
  split; [|split].
  - apply model_of_state_ext; reflexivity.
  - apply (dimensions_consistent_ext s); try reflexivity. exact Hd.
  - reflexivity.
Qed.

Ltac state_fields :=
  cbn [A b c co lb ub of_sense cons_senses variable_names original_row_index
       original_column_index change_dictionary operation_table warnings
       set_A set_b set_c set_co set_lb set_ub set_cons_senses set_variable_names
       set_original_row_index set_original_column_index set_change_dictionary
       set_operation_table set_warnings record_change record_operation warn_all
       mrows ncols nrows].

Lemma eliminate_zero_rows_after (s : lp_state) :
  dimensions_consistent s = true ->
  exists s',
    eliminate_zero_rows s = Ok s'
    /\ dimensions_consistent s' = true
    /\ zero_rows_to_delete s' = [].
Proof.
  intro Hd. eexists. split; [apply eliminate_zero_rows_result; exact Hd|].
  split.
  - pose proof (dimensions_consistent_spec s Hd)
      as (H1 & H2 & H3 & H4 & H5 & H6 & H7 & H8 & H9).
    unfold nrows in *.
    apply dimensions_consistent_intro; state_fields; unfold nrows; state_fields;
      try assumption.
    + now apply drop_from_same_length.
    + now apply drop_from_same_length.
    + now apply drop_from_same_length.
    + intros r Hr. apply H9.
      rewrite (drop_from_as_map []) in Hr. apply in_map_iff in Hr as (k & <- & Hk).
      apply drop_from_seq_In in Hk as [Hk _]. apply nth_In. lia.
  - apply (no_redundant_zero_row_left s); [exact Hd|reflexivity|reflexivity].
Qed.

Lemma eliminate_zero_columns_after (s : lp_state) :
  dimensions_consistent s = true ->
  exists s',
    eliminate_zero_columns s = Ok s'
    /\ dimensions_consistent s' = true
    /\ zero_columns_to_delete s' = []
    /\ (zero_rows_to_delete s = [] -> zero_rows_to_delete s' = []).
Proof.
  intro Hd. eexists. split; [apply eliminate_zero_columns_result; exact Hd|].
  split; [|split].
  - pose proof (dimensions_consistent_spec s Hd)
      as (H1 & H2 & H3 & H4 & H5 & H6 & H7 & H8 & H9).
    unfold nrows in *.
    apply dimensions_consistent_intro; state_fields; unfold nrows; state_fields;
      rewrite ?items_bounds_after_delete, ?length_map; try assumption.
    + apply drop_from_same_length. now rewrite length_seq.
    + apply drop_from_same_length. now rewrite length_seq.
    + apply drop_from_same_length. now rewrite length_seq.
    + apply drop_from_same_length. now rewrite length_seq.
    + apply drop_from_same_length. now rewrite length_seq.
    + intros r Hr. apply in_map_iff in Hr as (r0 & <- & Hr0).
      apply drop_from_same_length. rewrite length_seq. now apply H9.
  - apply (no_redundant_zero_column_left s); [exact Hd|reflexivity..].
  - intro Hz. apply (no_redundant_zero_row_exposed s); [exact Hz|reflexivity..].
Qed.

Lemma when_Ok (flag : bool) (rule : lp_state -> result lp_state) (s s' : lp_state) :
  when flag rule s = Ok s' ->
  (flag = true /\ rule s = Ok s') \/ (flag = false /\ s' = s).
Proof. destruct flag; cbn; intro H; [left|right; injection H as <-]; auto. Qed.

(** A run of the two zero rules leaves nothing for them to delete. *)
Lemma zero_rules_leave_nothing (zero_rows zero_columns : bool) (s s2 : lp_state) :
  dimensions_consistent s = true ->
  bind (when zero_rows eliminate_zero_rows s)
    (fun s1 => when zero_columns eliminate_zero_columns s1) = Ok s2 ->
  dimensions_consistent s2 = true
  /\ (zero_rows = true -> zero_rows_to_delete s2 = [])
  /\ (zero_columns = true -> zero_columns_to_delete s2 = []).
Proof.
  intros Hd H. apply bind_Ok in H as (s1 & H1 & H2).
  assert (P1 : dimensions_consistent s1 = true
               /\ (zero_rows = true -> zero_rows_to_delete s1 = [])).
  { apply when_Ok in H1 as [[-> H1]|[-> ->]].
    - destruct (eliminate_zero_rows_after s Hd) as (s' & E & Hd' & Hz).
      rewrite E in H1. injection H1 as <-. auto.
    - split; [exact Hd|discriminate]. }
  destruct P1 as [Hd1 Hz1].
  apply when_Ok in H2 as [[-> H2]|[-> ->]].
  - destruct (eliminate_zero_columns_after s1 Hd1) as (s' & E & Hd' & Hzc & Hzr).
    rewrite E in H2. injection H2 as <-. auto.
  - repeat split; [exact Hd1|exact Hz1|discriminate].
Qed.

(** On a state with nothing to delete and an empty journal, the two zero
    rules change nothing and journal nothing. *)
Lemma zero_rules_no_op (zero_rows zero_columns : bool) (s : lp_state) :
  dimensions_consistent s = true ->
  change_dictionary s = [] ->
  (zero_rows = true -> zero_rows_to_delete s = []) ->
  (zero_columns = true -> zero_columns_to_delete s = []) ->
  exists s2,
    bind (when zero_rows eliminate_zero_rows s)
      (fun s1 => when zero_columns eliminate_zero_columns s1) = Ok s2
    /\ model_of_state s2 = model_of_state s
    /\ journal_empty (change_dictionary s2) = true.
Proof.
  intros Hd Hj Hzr Hzc.
  assert (P1 : exists s1,
             when zero_rows eliminate_zero_rows s = Ok s1
             /\ model_of_state s1 = model_of_state s
             /\ dimensions_consistent s1 = true
             /\ change_dictionary s1
                = (if zero_rows
                   then journal_set
                          (path2 "eliminate_zero_rows" "deleted_rows_indices")
                          (JList []) []
                   else [])).
  { destruct zero_rows; cbn [when].
    - destruct (eliminate_zero_rows_no_op s Hd (Hzr eq_refl)) as (s1 & E & Hm & Hd1 & Hc).
      exists s1. rewrite Hj in Hc. auto.
    - exists s. auto. }
  destruct P1 as (s1 & E1 & Hm1 & Hd1 & Hj1). rewrite E1. cbn [bind].
  destruct zero_columns; cbn [when].
  - assert (Hz : zero_columns_to_delete s1 = []).
    { rewrite (zero_columns_to_delete_ext s s1); [now apply Hzc| |].
      - now injection Hm1.
      - now injection Hm1. }
    destruct (eliminate_zero_columns_no_op s1 Hd1 Hz) as (s2 & E & Hm & Hd2 & Hc).
    exists s2. split; [exact E|]. split; [congruence|].
    rewrite Hc, Hj1. destruct zero_rows; reflexivity.
  - exists s1. split; [reflexivity|]. split; [exact Hm1|].
    rewrite Hj1. destruct zero_rows; reflexivity.
Qed.

Section Rerun.

Variable linear_dependency : matrix -> list Q -> list (list nat) * list bool.
Variable normalize_features : matrix -> list Q -> matrix.
Variable matrix_sparsification : Q -> matrix -> matrix -> matrix.

Lemma orchestrator_zero_rules (fuel : nat) (m : model_matrices)
  (zero_rows zero_columns : bool) (kk : nat) :
  orchestrator_presolve_operations linear_dependency normalize_features
    matrix_sparsification fuel (zero_rules_only m zero_rows zero_columns kk)
  = bind (load_model_matrices (zero_rules_only m zero_rows zero_columns kk))
      (fun s =>
         bind (bind (when zero_rows eliminate_zero_rows s)
                 (fun s1 => when zero_columns eliminate_zero_columns s1))
           (fun s2 => Ok (output_of s2))).
Proof.
  unfold orchestrator_presolve_operations.
  destruct (load_model_matrices _) as [s| |]; cbn [bind]; try reflexivity.
  cbn [when zero_rules_only perform_reduction_small_coefficients
       perform_eliminate_implied_bounds perform_eliminate_redundant_rows
       perform_eliminate_kton_equalities perform_eliminate_singleton_equalities
       perform_eliminate_singleton_inequalities
       perform_eliminate_dual_singleton_inequalities
       perform_eliminate_redundant_columns perform_eliminate_zero_rows
       perform_eliminate_zero_columns bind].
  now rewrite bind_assoc.
Qed.

(** Fixed point of the two zero rules: when only zero-row and/or zero-column
    elimination are switched on and a run on a dimension-consistent model has
    completed, a second run on the model read back from its output completes
    too, returns the same matrices and vectors with the same dimensions, and
    its journal records no deleted row, no deleted column and no fixed
    variable. *)
Theorem rerun_of_zero_rules_is_a_no_op
  (fuel : nat) (m : model_matrices) (zero_rows zero_columns : bool) (kk : nat)
  (out1 : presolve_output) :
  model_consistent m = true ->
  orchestrator_presolve_operations linear_dependency normalize_features
    matrix_sparsification fuel (zero_rules_only m zero_rows zero_columns kk)
  = Ok out1 ->
  exists out2,
    orchestrator_presolve_operations linear_dependency normalize_features
      matrix_sparsification fuel
      (zero_rules_only (model_of_output out1) zero_rows zero_columns kk)
    = Ok out2
    /\ model_of_output out2 = model_of_output out1
    /\ output_dimensions out2 = output_dimensions out1
    /\ journal_empty (output_journal out2) = true.
Proof.
  intros Hm H. rewrite orchestrator_zero_rules in *.
  cbn [load_model_matrices model zero_rules_only bind] in H.
  apply bind_Ok in H as (s2 & H & Hout). injection Hout as <-.
  apply zero_rules_leave_nothing in H as (Hd2 & Hzr & Hzc);
    [|apply (dimensions_consistent_ext _ _ Hm); reflexivity].
  cbn [load_model_matrices model zero_rules_only bind].
  change (model_of_output (output_of s2)) with (model_of_state s2).
  pose proof (dimensions_consistent_spec s2 Hd2)
    as (H1 & H2 & H3 & H4 & H5 & H6 & H7 & H8 & H9).
  edestruct (zero_rules_no_op zero_rows zero_columns) as (t2 & E & Hmod & Hj);
    [| | | |rewrite E].
  - apply (dimensions_consistent_ext s2); try reflexivity; [exact Hd2| |].
    + cbn. rewrite length_seq. now rewrite H3.
    + cbn. rewrite length_seq. now rewrite H8.
  - reflexivity.
  - intro Hz. rewrite <- (Hzr Hz). apply zero_rows_to_delete_ext; reflexivity.
  - intro Hz. rewrite <- (Hzc Hz). apply zero_columns_to_delete_ext; reflexivity.
  - cbn [bind]. eexists. split; [reflexivity|].
    assert (Hmo : model_of_output (output_of t2) = model_of_state s2).
    { change (model_of_output (output_of t2)) with (model_of_state t2).
      rewrite Hmod. reflexivity. }
    split; [exact Hmo|]. split; [|exact Hj].
    unfold output_dimensions, output_of.
    apply (f_equal model_A) in Hmo. cbn in Hmo. now rewrite Hmo.
Qed.

End Rerun.

Lemma rerun_of_zero_rules_is_a_no_op_witness :
  exists out1 out2,
    orchestrator_presolve_operations no_linear_dependency normalize_nothing
      sparsify_nothing 3
      (zero_rules_only (model_of_state zero_column_state) true true 5) = Ok out1
    /\ orchestrator_presolve_operations no_linear_dependency normalize_nothing
         sparsify_nothing 3 (zero_rules_only (model_of_output out1) true true 5)
       = Ok out2
    /\ model_of_output out2 = model_of_output out1
    /\ journal_empty (output_journal out2) = true.
Proof.
  assert (H0 : model_consistent (model_of_state zero_column_state) = true)
    by (vm_compute; reflexivity).
  assert (E : exists out1,
             orchestrator_presolve_operations no_linear_dependency normalize_nothing
               sparsify_nothing 3
               (zero_rules_only (model_of_state zero_column_state) true true 5)
             = Ok out1)
    by (vm_compute; eexists; reflexivity).
  destruct E as [out1 E]. exists out1.
  pose proof (rerun_of_zero_rules_is_a_no_op no_linear_dependency normalize_nothing
              sparsify_nothing 3 (model_of_state zero_column_state) true true 5
              out1 H0 E) as HH.
  destruct HH as (out2 & H1 & H2 & _ & H3).
  exists out2. split; [exact E|]. split; [exact H1|]. split; [exact H2|exact H3].
Defined.

(** ** Loops over a range *)

(** A [for i in range(start, start + n)] loop whose body never fails while
    the invariant holds runs to its end and keeps the invariant. *)
Lemma for_each_range {St : Type} (P : nat -> St -> Prop)
  (body : nat -> St -> result St) (n : nat) :
  forall start acc,
    P start acc ->
    (forall i a, start <= i < start + n -> P i a ->
                 exists a', body i a = Ok a' /\ P (S i) a') ->
    exists acc', for_each (seq start n) body acc = Ok acc' /\ P (start + n) acc'.
Proof.
  induction n as [|n IH]; intros start acc H0 Hb; cbn [seq for_each].
  - exists acc. rewrite Nat.add_0_r. auto.
  - destruct (Hb start acc) as (a' & E & H1); [lia|exact H0|].
    rewrite E. cbn [bind].
    destruct (IH (S start) a' H1) as (acc' & E' & H2).
    + intros i a Hi. apply Hb. lia.
    + exists acc'. split; [exact E'|]. now replace (start + S n) with (S start + n) by lia.
Qed.

(** ** Row activities *)

Lemma qadd_eq (x y : Q) : (qadd x y == x + y)%Q.
Proof. unfold qadd. apply Qred_correct. Qed.

Lemma qmul_eq (x y : Q) : (qmul x y == x * y)%Q.
Proof. unfold qmul. apply Qred_correct. Qed.

Lemma qsub_eq (x y : Q) : (qsub x y == x - y)%Q.
Proof. unfold qsub. apply Qred_correct. Qed.

Lemma qltb_lt (x y : Q) : qltb x y = true <-> (x < y)%Q.
Proof.
  unfold qltb. rewrite negb_true_iff. split; intro H.
  - apply Qnot_le_lt. intro Hle. apply Qle_bool_iff in Hle. congruence.
  - destruct (Qle_bool y x) eqn:E; [|reflexivity].
    apply Qle_bool_iff in E. exfalso. eapply Qlt_not_le; eauto.
Qed.

Lemma qltb_ge (x y : Q) : qltb x y = false <-> (y <= x)%Q.
Proof.
  unfold qltb. rewrite negb_false_iff. apply Qle_bool_iff.
Qed.

Lemma nonzero_from_app (l1 l2 : list Q) :
  forall pos,
    nonzero_from pos (l1 ++ l2)
    = nonzero_from pos l1 ++ nonzero_from (pos + length l1) l2.
Proof.
  induction l1 as [|x l1 IH]; intro pos; cbn.
  - now rewrite Nat.add_0_r.
  - rewrite IH. replace (S pos + length l1) with (pos + S (length l1)) by lia.
    destruct (qnonzero x); reflexivity.
Qed.

Lemma firstn_succ {T : Type} (d : T) (l : list T) (j : nat) :
  j < length l -> firstn (S j) l = firstn j l ++ [nth j l d].
Proof.
  revert j. induction l as [|x l IH]; intros j H; cbn in H; [lia|].
  destruct j as [|j]; cbn; [reflexivity|]. f_equal. apply IH. lia.
Qed.

(** The inner loop of [get_row_activities] on a row as wide as the bound
    vectors: it never fails, its support is [np.nonzero] of the row, and the
    minimal activity does not exceed the maximal one when no lower bound
    exceeds its upper bound. *)
Lemma row_activity_result (row : list Q) (s : lp_state) :
  length (items (lb s)) = length row ->
  length (items (ub s)) = length row ->
  exists min_activity max_activity,
    row_activity row (length row) s = Ok (np_nonzero row, min_activity, max_activity)
    /\ ((forall j, j < length row ->
                   (nth j (items (lb s)) 0 <= nth j (items (ub s)) 0)%Q) ->
        (min_activity <= max_activity)%Q).
Proof.
  intros Hl Hu. unfold row_activity.
  destruct (for_each_range
              (fun j acc =>
                 fst (fst acc) = np_nonzero (firstn j row)
                 /\ ((forall j, j < length row ->
                                (nth j (items (lb s)) 0 <= nth j (items (ub s)) 0)%Q) ->
                     (snd (fst acc) <= snd acc)%Q))
              (fun j acc =>
                 let '(support, min_activity, max_activity) := acc in
                 a_ij <- getitem row j ;;
                 l_j <- getitem (items (lb s)) j ;;
                 u_j <- getitem (items (ub s)) j ;;
                 if qnonzero a_ij then
                   if qltb 0 a_ij then
                     Ok (support ++ [j], qadd min_activity (qmul a_ij l_j),
                         qadd max_activity (qmul a_ij u_j))
                   else
                     Ok (support ++ [j], qadd min_activity (qmul a_ij u_j),
                         qadd max_activity (qmul a_ij l_j))
                 else Ok acc)
              (length row) 0 ([], 0%Q, 0%Q)) as ([[support mn] mx] & E & Hs & Hle).
  - cbn. split; [reflexivity|]. intros _. apply Qle_refl.
  - intros j [[support mn] mx] Hj [Hs Hle]. cbn [fst snd] in *.
    rewrite (getitem_nth row j 0%Q), (getitem_nth (items (lb s)) j 0%Q),
      (getitem_nth (items (ub s)) j 0%Q) by lia.
    cbn [bind].
    rewrite (firstn_succ 0%Q) by lia. unfold np_nonzero in *.
    rewrite nonzero_from_app. cbn [nonzero_from Nat.add].
    rewrite length_firstn, Nat.min_l by lia.
    destruct (qnonzero (nth j row 0%Q)) eqn:Ez.
    + destruct (qltb 0 (nth j row 0%Q)) eqn:Ep; eexists; (split; [reflexivity|]);
        cbn [fst snd]; (split; [now rewrite Hs|]); intro Hb;
        rewrite !qadd_eq, !qmul_eq; apply Qplus_le_compat; auto.
      * apply qltb_lt in Ep. apply Qmult_le_l; [exact Ep|]. apply Hb. lia.
      * apply qltb_ge in Ep.
        rewrite !(Qmult_comm (nth j row 0%Q)).
        setoid_replace (nth j (items (ub s)) 0%Q * nth j row 0%Q)%Q
          with (- (nth j (items (ub s)) 0%Q * - nth j row 0%Q))%Q by ring.
        setoid_replace (nth j (items (lb s)) 0%Q * nth j row 0%Q)%Q
          with (- (nth j (items (lb s)) 0%Q * - nth j row 0%Q))%Q by ring.
        apply Qopp_le_compat. apply Qmult_le_compat_r; [apply Hb; lia|].
        apply (Qopp_le_compat _ 0%Q) in Ep. exact Ep.
    + eexists. split; [reflexivity|]. cbn [fst snd].
      split; [now rewrite Hs, app_nil_r|exact Hle].
  - cbn [fst snd Nat.add] in *. rewrite firstn_all in Hs. subst support.
    exists mn, mx. split; [exact E|exact Hle].
Qed.

Lemma for_each_list {T St : Type} (P : list T -> St -> Prop)
  (body : T -> St -> result St) (l : list T) :
  forall pre acc,
    P pre acc ->
    (forall x a pre', In x l -> P pre' a ->
                      exists a', body x a = Ok a' /\ P (pre' ++ [x]) a') ->
    exists acc', for_each l body acc = Ok acc' /\ P (pre ++ l) acc'.
Proof.
  induction l as [|x l IH]; intros pre acc H0 Hb; cbn [for_each].
  - exists acc. rewrite app_nil_r. auto.
  - destruct (Hb x acc pre) as (a' & E & H1); [now left|exact H0|].
    rewrite E. cbn [bind].
    destruct (IH (pre ++ [x]) a' H1) as (acc' & E' & H2).
    + intros y a pre' Hy. apply Hb. now right.
    + exists acc'. split; [exact E'|]. now rewrite <- app_assoc in H2.
Qed.

Lemma Forall2_nth_Qle (l1 l2 : list Q) (i : nat) :
  Forall2 Qle l1 l2 -> i < length l1 -> (nth i l1 0 <= nth i l2 0)%Q.
Proof.
  intro H. revert i. induction H as [|x y l1 l2 Hxy H IH]; intros i Hi; cbn in Hi; [lia|].
  destruct i as [|i]; cbn; [exact Hxy|]. apply IH. lia.
Qed.

(** What [get_row_activities] returns on a consistent state. *)
Lemma get_row_activities_result (s : lp_state) :
  dimensions_consistent s = true ->
  exists INF SUP,
    get_row_activities s = Ok (map np_nonzero (mrows (A s)), INF, SUP)
    /\ length INF = nrows (A s)
    /\ length SUP = nrows (A s)
    /\ ((forall j, j < ncols (A s) ->
                   (nth j (items (lb s)) 0 <= nth j (items (ub s)) 0)%Q) ->
        Forall2 Qle INF SUP).
Proof.
  intro Hd.
  apply dimensions_consistent_spec in Hd as (_ & _ & _ & _ & Hl & Hu & _ & _ & Hw).
  unfold get_row_activities.
  destruct (for_each_list
              (fun pre acc =>
                 fst (fst acc) = map np_nonzero pre
                 /\ length (snd (fst acc)) = length pre
                 /\ length (snd acc) = length pre
                 /\ ((forall j, j < ncols (A s) ->
                                (nth j (items (lb s)) 0 <= nth j (items (ub s)) 0)%Q) ->
                     Forall2 Qle (snd (fst acc)) (snd acc)))
              (fun row acc =>
                 let '(SUPP, INF, SUP) := acc in
                 '(support, min_activity, max_activity)
                   <- row_activity row (ncols (A s)) s ;;
                 Ok (SUPP ++ [support], INF ++ [min_activity], SUP ++ [max_activity]))
              (mrows (A s)) [] ([], [], []))
    as ([[SUPP INF] SUP] & E & H1 & H2 & H3 & H4).
  - cbn. auto.
  - intros row [[SUPP INF] SUP] pre Hrow (H1 & H2 & H3 & H4). cbn [fst snd] in *.
    specialize (Hw row Hrow).
    destruct (row_activity_result row s) as (mn & mx & E & Hle); [congruence..|].
    rewrite Hw in E. rewrite E. cbn [bind]. eexists. split; [reflexivity|]. cbn [fst snd].
    rewrite map_app, !length_app, H1, H2, H3. cbn [map length].
    repeat split; try reflexivity.
    intro Hb. apply Forall2_app; [now apply H4|].
    constructor; [|constructor]. apply Hle. intros j Hj. apply Hb. lia.
  - cbn [fst snd app] in *. subst SUPP. exists INF, SUP. unfold nrows. auto.
Qed.

(** [get_row_activities] on a state whose vectors match the matrix: the
    call returns, one support, one minimal and one maximal activity per row;
    the support of a row is the list of its nonzero columns; and when every
    lower bound is at most its upper bound, the minimal activity of a row
    is at most its maximal activity. *)
Theorem get_row_activities_brackets_the_rows (s : lp_state) :
  dimensions_consistent s = true ->
  exists SUPP INF SUP,
    get_row_activities s = Ok (SUPP, INF, SUP)
    /\ SUPP = map np_nonzero (mrows (A s))
    /\ length INF = nrows (A s)
    /\ length SUP = nrows (A s)
    /\ ((forall j, j < ncols (A s) ->
                   (nth j (items (lb s)) 0 <= nth j (items (ub s)) 0)%Q) ->
        forall i, i < nrows (A s) -> (nth i INF 0 <= nth i SUP 0)%Q).
Proof.
  intro Hd. destruct (get_row_activities_result s Hd) as (INF & SUP & E & H1 & H2 & H3).
  exists (map np_nonzero (mrows (A s))), INF, SUP.
  repeat split; try assumption.
  intros Hb i Hi. apply Forall2_nth_Qle; [now apply H3|lia].
Qed.

Lemma get_row_activities_brackets_the_rows_witness :
  exists SUPP INF SUP,
    get_row_activities kton_scenario_state = Ok (SUPP, INF, SUP)
    /\ SUPP = [[0; 1]; [0; 1]; [1; 2]]
    /\ (nth 1 INF 0 <= nth 1 SUP 0)%Q.
Proof.
  destruct (get_row_activities_brackets_the_rows kton_scenario_state eq_refl)
    as (SUPP & INF & SUP & E & HS & _ & _ & H).
  exists SUPP, INF, SUP. split; [exact E|]. split; [exact HS|].
  apply H; [|cbn; lia].
  intros j Hj. cbn in Hj.
  destruct j as [|[|[|j]]]; cbn; try lia; discriminate.
Defined.

(** ** Deleting marked rows and columns *)

Lemma filter_seq_succ (f : nat -> bool) (n : nat) :
  filter f (seq 0 (S n)) = filter f (seq 0 n) ++ (if f n then [n] else []).
Proof. rewrite seq_S, filter_app. cbn. destruct (f n); reflexivity. Qed.

Lemma np_delete_rows_in_range (idxs : list nat) (M : matrix) :
  (forall i, In i idxs -> i < nrows M) ->
  np_delete_rows idxs M = Ok (mkMatrix (drop_from 0 idxs (mrows M)) (ncols M)).
Proof.
  intro H. unfold np_delete_rows. now rewrite np_delete_in_range.
Qed.

Lemma bounds_np_delete_in_range (idxs : list nat) (v : bounds) :
  (forall i, In i idxs -> i < length (items v)) ->
  bounds_np_delete idxs v = Ok (NdArray (drop_from 0 idxs (items v))).
Proof.
  intro H. unfold bounds_np_delete. now rewrite np_delete_in_range.
Qed.

(** The column-deleting loop over [c], [variable_names] and
    [original_column_index], when every marked index is marked once and is
    in range. *)
Lemma del_column_entries_drop (idxs : list nat) (s : lp_state) :
  NoDup idxs ->
  (forall j, In j idxs ->
             j < length (c s) /\ j < length (variable_names s)
             /\ j < length (original_column_index s)) ->
  del_column_entries idxs s
  = Ok (set_original_column_index (drop_from 0 idxs (original_column_index s))
          (set_variable_names (drop_from 0 idxs (variable_names s))
             (set_c (drop_from 0 idxs (c s)) s))).
Proof.
  intros Hnd Hr. unfold del_column_entries.
  rewrite <- (drop_from_sorted_desc idxs (c s)),
          <- (drop_from_sorted_desc idxs (variable_names s)),
          <- (drop_from_sorted_desc idxs (original_column_index s)).
  assert (Hd : descending (sorted_desc idxs)) by now apply sorted_desc_descending.
  assert (Hr' : forall j, In j (sorted_desc idxs) ->
                          j < length (c s) /\ j < length (variable_names s)
                          /\ j < length (original_column_index s)).
  { intros j Hj. apply Hr. now apply sorted_desc_In. }
  clear Hnd Hr. revert s Hd Hr'.
  induction (sorted_desc idxs) as [|x D IH]; intros s Hd Hr; cbn [for_each].
  - rewrite !drop_from_nil. destruct s; reflexivity.
  - destruct Hd as [Hx Hd]. destruct (Hr x (or_introl eq_refl)) as (H1 & H2 & H3).
    rewrite (py_del_drop (c s) x 0 H1), (py_del_drop (variable_names s) x 0 H2),
      (py_del_drop (original_column_index s) x 0 H3).
    cbn [bind Nat.add]. rewrite IH; [|exact Hd|].
    + cbn. rewrite !drop_from_largest_first by exact Hx. reflexivity.
    + intros j Hj. specialize (Hx j Hj). cbn.
      pose proof (drop_from_length_in_range x (c s) 0 (Nat.le_0_l x) H1).
      pose proof (drop_from_length_in_range x (variable_names s) 0 (Nat.le_0_l x) H2).
      pose proof (drop_from_length_in_range x (original_column_index s) 0
                    (Nat.le_0_l x) H3).
      lia.
Qed.

(** Deleting the rows [R] and the columns [C] everywhere keeps the parallel
    vectors in step with the matrix. *)
Lemma deletion_consistent (R C : list nat) (s s' : lp_state) :
  dimensions_consistent s = true ->
  mrows (A s') = map (drop_from 0 C) (drop_from 0 R (mrows (A s))) ->
  ncols (A s') = length (drop_from 0 C (seq 0 (ncols (A s)))) ->
  b s' = drop_from 0 R (b s) ->
  cons_senses s' = drop_from 0 R (cons_senses s) ->
  original_row_index s' = drop_from 0 R (original_row_index s) ->
  c s' = drop_from 0 C (c s) ->
  items (lb s') = drop_from 0 C (items (lb s)) ->
  items (ub s') = drop_from 0 C (items (ub s)) ->
  variable_names s' = drop_from 0 C (variable_names s) ->
  original_column_index s' = drop_from 0 C (original_column_index s) ->
  dimensions_consistent s' = true.
Proof.
  intros Hd HA Hn Hb Hcs Hor Hc Hlb Hub Hvn Hoc.
  apply dimensions_consistent_spec in Hd
    as (H1 & H2 & H3 & H4 & H5 & H6 & H7 & H8 & H9).
  unfold nrows in *.
  apply dimensions_consistent_intro; unfold nrows;
    rewrite ?HA, ?Hn, ?Hb, ?Hcs, ?Hor, ?Hc, ?Hlb, ?Hub, ?Hvn, ?Hoc, ?length_map.
  - now apply drop_from_same_length.
  - now apply drop_from_same_length.
  - now apply drop_from_same_length.
  - apply drop_from_same_length. now rewrite length_seq.
  - apply drop_from_same_length. now rewrite length_seq.
  - apply drop_from_same_length. now rewrite length_seq.
  - apply drop_from_same_length. now rewrite length_seq.
  - apply drop_from_same_length. now rewrite length_seq.
  - intros r Hr. apply in_map_iff in Hr as (r0 & <- & Hr0).
    apply drop_from_same_length. rewrite length_seq. apply H9.
    rewrite (drop_from_as_map []) in Hr0. apply in_map_iff in Hr0 as (k & <- & Hk).
    apply drop_from_seq_In in Hk as [Hk _]. apply nth_In. lia.
Qed.

(** ** The implied-bound rule *)





(** ** The redundant-column rule *)

Lemma logical_and_nth_eq (x y : list bool) (n : nat) :
  nth n (logical_and x y) false = nth n x false && nth n y false.
Proof.
  unfold logical_and. revert y n.
  induction x as [|a x IH]; intros y n.
  - destruct n; reflexivity.
  - destruct y as [|c0 y].
    + cbn [combine map]. destruct n; cbn; now rewrite andb_false_r.
    + destruct n as [|n]; cbn; [reflexivity|apply IH].
Qed.

Lemma np_nonzero_In (r : list Q) (j : nat) :
  In j (np_nonzero r) <-> j < length r /\ qnonzero (nth j r 0%Q) = true.
Proof.
  unfold np_nonzero. split.
  - intro H. apply nonzero_from_spec in H. rewrite Nat.sub_0_r in H. tauto.
  - intros [H1 H2]. apply (nonzero_from_complete r 0 j H1 H2).
Qed.

Lemma nonzero_from_NoDup (r : list Q) : forall pos, NoDup (nonzero_from pos r).
Proof.
  induction r as [|x r IH]; intro pos; cbn; [constructor|].
  destruct (qnonzero x); [|apply IH]. constructor; [|apply IH].
  intro H. apply nonzero_from_spec in H. lia.
Qed.

Lemma combined_condition_nth (s : lp_state) (i : nat) :
  length (b s) = nrows (A s) ->
  i < nrows (A s) ->
  nth i
    (logical_and
       (logical_and (map qzero (b s))
          (fst (find_corresponding_negative_rows_with_indices (A s) (b s))))
       (map (fun p => fst p || snd p)
          (combine (map (forallb (fun x => qleb 0 x)) (mrows (A s)))
             (map (forallb (fun x => qleb x 0)) (mrows (A s))))))
    false
  = forces_zero s i.
Proof.
  intros Hb Hi. unfold forces_zero, nrows in *.
  rewrite !logical_and_nth_eq.
  rewrite (map_nth_in_range qzero (b s) i false 0%Q) by lia.
  f_equal.
  rewrite (map_nth_in_range _ _ i false (true, true))
    by (rewrite length_combine, !length_map; lia).
  rewrite combine_nth by now rewrite !length_map.
  cbn [fst snd].
  rewrite !(map_nth_in_range _ (mrows (A s)) i true []) by lia.
  reflexivity.
Qed.

Ltac marks_fields :=
  cbn [to_delete_constraint to_delete_variable to_delete_constraint_original
       to_delete_variable_original emitted mark_constraint mark_constraint_original
       mark_variable mark_variable_original mark_warning no_marks].

Lemma NoDup_snoc {T : Type} (l : list T) (x : T) :
  NoDup l -> ~ In x l -> NoDup (l ++ [x]).
Proof.
  induction 1 as [|y l Hy Hl IH]; cbn; intro Hx.
  - constructor; [intros []|constructor].
  - constructor.
    + rewrite in_app_iff. intros [H|[<-|[]]]; [now apply Hy|apply Hx; now left].
    + apply IH. intro; apply Hx; now right.
Qed.

Lemma originals_app (index l1 l2 : list nat) :
  originals index (l1 ++ l2) = originals index l1 ++ originals index l2.
Proof. unfold originals. apply map_app. Qed.

(** The marks [redundant_columns_scan] builds: the rows that force their
    variables to zero, each once and in order, and the columns that occur in
    them, each once. *)
Lemma redundant_columns_scan_result (s : lp_state) :
  dimensions_consistent s = true ->
  exists C,
    redundant_columns_scan s
    = Ok (mkMarks (redundant_column_rows s) C
            (originals (original_row_index s) (redundant_column_rows s))
            (originals (original_column_index s) C) [])
    /\ NoDup C
    /\ (forall j, In j C <-> occurs_in_rows s (redundant_column_rows s) j).
Proof.
  intro Hd.
  pose proof (dimensions_consistent_spec s Hd)
    as (H1 & H2 & H3 & H4 & H5 & H6 & H7 & H8 & H9).
  unfold redundant_columns_scan.
  pose proof (combined_condition_nth s) as Hcc.
  pose proof (detector_lengths (A s) (b s) H1) as [Hl1 _].
  destruct (find_corresponding_negative_rows_with_indices (A s) (b s))
    as [has_pair indices]. cbn [fst snd] in *.
  set (combined := logical_and _ _) in *.
  assert (Hlen : length combined = nrows (A s)).
  { unfold combined, nrows in *.
    rewrite !logical_and_length, !length_map, length_combine, !length_map. lia. }
  set (body := fun (i : nat) (m : marks) => _).
  destruct (for_each_range
              (fun i m =>
                 to_delete_constraint m = filter (forces_zero s) (seq 0 i)
                 /\ to_delete_constraint_original m
                    = originals (original_row_index s) (to_delete_constraint m)
                 /\ NoDup (to_delete_variable m)
                 /\ (forall j, In j (to_delete_variable m)
                               <-> occurs_in_rows s (filter (forces_zero s) (seq 0 i)) j)
                 /\ to_delete_variable_original m
                    = originals (original_column_index s) (to_delete_variable m)
                 /\ emitted m = [])
              body (nrows (A s)) 0 no_marks)
    as (m & E & Hm1 & Hm2 & Hm3 & Hm4 & Hm5 & Hm6).
  - marks_fields. cbn [seq filter]. repeat split; try reflexivity; try constructor.
    + intros [].
    + intros (i & [] & _).
  - intros i m Hi (I1 & I2 & I3 & I4 & I5 & I6). unfold body.
    rewrite (getitem_nth combined i false) by lia. cbn [bind].
    rewrite (Hcc i H1) by lia. rewrite filter_seq_succ.
    destruct (forces_zero s i) eqn:EF.
    + assert (Hni : in_idx i (to_delete_constraint m) = false).
      { apply in_idx_false. rewrite I1. intro Hin.
        apply filter_In in Hin as [Hin _]. apply in_seq in Hin. lia. }
      rewrite Hni.
      rewrite (getitem_nth (original_row_index s) i 0) by lia. cbn [bind].
      rewrite (getitem_nth (mrows (A s)) i []) by (unfold nrows in *; lia).
      cbn [bind].
      assert (Hw : length (nth i (mrows (A s)) []) = ncols (A s)).
      { apply H9, nth_In. unfold nrows in *. lia. }
      destruct (for_each_list
                  (fun pre m' =>
                     to_delete_constraint m' = filter (forces_zero s) (seq 0 i) ++ [i]
                     /\ to_delete_constraint_original m'
                        = originals (original_row_index s) (to_delete_constraint m')
                     /\ NoDup (to_delete_variable m')
                     /\ (forall j, In j (to_delete_variable m')
                                   <-> occurs_in_rows s (filter (forces_zero s) (seq 0 i)) j
                                       \/ In j pre)
                     /\ to_delete_variable_original m'
                        = originals (original_column_index s) (to_delete_variable m')
                     /\ emitted m' = [])
                  (fun index m =>
                     if in_idx index (to_delete_variable m) then Ok m
                     else oc <- getitem (original_column_index s) index ;;
                          Ok (mark_variable_original oc (mark_variable index m)))
                  (np_nonzero (nth i (mrows (A s)) [])) []
                  (mark_constraint_original (nth i (original_row_index s) 0)
                     (mark_constraint i m)))
        as (m' & E' & J1 & J2 & J3 & J4 & J5 & J6).
      * marks_fields. rewrite I2, originals_app, I1. repeat split; auto.
        -- intro Hj. left. now apply I4.
        -- intros [Hj|[]]. now apply I4.
      * intros j a pre Hj (J1 & J2 & J3 & J4 & J5 & J6).
        apply np_nonzero_In in Hj as [Hj1 Hj2].
        destruct (in_idx j (to_delete_variable a)) eqn:Ein.
        -- eexists. split; [reflexivity|]. repeat split; auto.
           ++ intro Hk. apply J4 in Hk. rewrite in_app_iff. tauto.
           ++ intro Hk. apply J4. rewrite in_app_iff in Hk.
              destruct Hk as [Hk|[Hk|[<-|[]]]]; auto.
              apply in_idx_true in Ein. now apply J4 in Ein.
        -- rewrite (getitem_nth (original_column_index s) j 0) by lia.
           cbn [bind]. eexists. split; [reflexivity|]. marks_fields.
           rewrite J5, originals_app. repeat split; auto.
           ++ apply NoDup_snoc; [exact J3|now apply in_idx_false].
           ++ rewrite !in_app_iff. intros [Hk|Hk]; [apply J4 in Hk; tauto|tauto].
           ++ rewrite !in_app_iff. intros [Hk|[Hk|Hk]]; [left|left|right; exact Hk];
                apply J4; tauto.
      * rewrite E'. eexists. split; [reflexivity|]. repeat split; auto.
        -- intro Hj. apply J4 in Hj as [(i' & Hi' & Hc & Hn)|Hj].
           ++ exists i'. rewrite in_app_iff. tauto.
           ++ apply np_nonzero_In in Hj as [Hj1 Hj2]. exists i.
              rewrite in_app_iff. cbn. split; [tauto|]. split; [lia|exact Hj2].
        -- intros (i' & Hi' & Hc & Hn). apply J4.
           apply in_app_iff in Hi' as [Hi'|[<-|[]]].
           ++ left. exists i'. tauto.
           ++ right. apply np_nonzero_In. split; [lia|exact Hn].
    + eexists. split; [reflexivity|]. rewrite !app_nil_r.
      repeat split; auto; apply I4.
  - exists (to_delete_variable m). split; [|split; [exact Hm3|exact Hm4]].
    rewrite E. f_equal. destruct m as [tc tv tco tvo em]. cbn in *.
    unfold redundant_column_rows. subst tco tvo em tc. reflexivity.
Qed.

Lemma redundant_column_rows_spec (s : lp_state) (i : nat) :
  In i (redundant_column_rows s) <-> i < nrows (A s) /\ forces_zero s i = true.
Proof.
  unfold redundant_column_rows. rewrite filter_In, in_seq. intuition lia.
Qed.

(** What [eliminate_redundant_columns] returns on a consistent state. *)
Lemma eliminate_redundant_columns_result (s : lp_state) :
  dimensions_consistent s = true ->
  exists s' C,
    eliminate_redundant_columns s = Ok s'
    /\ dimensions_consistent s' = true
    /\ NoDup C
    /\ (forall j, In j C <-> occurs_in_rows s (redundant_column_rows s) j)
    /\ mrows (A s')
       = map (drop_from 0 C) (drop_from 0 (redundant_column_rows s) (mrows (A s)))
    /\ b s' = drop_from 0 (redundant_column_rows s) (b s)
    /\ c s' = drop_from 0 C (c s)
    /\ lb s' = NdArray (drop_from 0 C (items (lb s)))
    /\ ub s' = NdArray (drop_from 0 C (items (ub s)))
    /\ variable_names s' = drop_from 0 C (variable_names s)
    /\ journal_get (path2 "eliminate_redundant_columns" "deleted_rows_indices")
         (change_dictionary s')
       = Some (JList (originals (original_row_index s) (redundant_column_rows s)))
    /\ journal_get (path2 "eliminate_redundant_columns" "deleted_variables_indices")
         (change_dictionary s')
       = Some (JList (originals (original_column_index s) C))
    /\ warnings s' = warnings s
    /\ cons_senses s' = drop_from 0 (redundant_column_rows s) (cons_senses s)
    /\ original_row_index s'
       = drop_from 0 (redundant_column_rows s) (original_row_index s)
    /\ original_column_index s' = drop_from 0 C (original_column_index s)
    /\ ncols (A s') = length (drop_from 0 C (seq 0 (ncols (A s))))
    /\ co s' = co s
    /\ of_sense s' = of_sense s.
Proof.
  intro Hd.
  destruct (redundant_columns_scan_result s Hd) as (C & E & Hnd & HC).
  pose proof (dimensions_consistent_spec s Hd)
    as (H1 & H2 & H3 & H4 & H5 & H6 & H7 & H8 & H9).
  assert (HR : forall i, In i (redundant_column_rows s) -> i < nrows (A s)).
  { intros i Hi. now apply redundant_column_rows_spec in Hi. }
  assert (HCr : forall j, In j C -> j < ncols (A s)).
  { intros j Hj. apply HC in Hj as (i & _ & Hj & _). exact Hj. }
  unfold eliminate_redundant_columns. rewrite E. cbn [bind].
  cbn [to_delete_constraint to_delete_variable to_delete_constraint_original
       to_delete_variable_original].
  rewrite np_delete_rows_in_range by exact HR. cbn [bind].
  rewrite np_delete_cols_in_range by exact HCr. cbn [bind mrows ncols].
  rewrite del_row_entries_drop;
    [|apply NoDup_filter, seq_NoDup
     |intros i Hi; apply HR in Hi; cbn; unfold nrows in *; lia].
  cbn [bind]. state_fields.
  rewrite !bounds_np_delete_in_range by (intros j Hj; apply HCr in Hj; lia).
  cbn [bind].
  rewrite del_column_entries_drop;
    [|exact Hnd|intros j Hj; apply HCr in Hj; cbn; lia].
  cbn [bind]. do 2 eexists. split; [reflexivity|].
  split.
  - apply (deletion_consistent (redundant_column_rows s) C s); try exact Hd;
      reflexivity.
  - split; [exact Hnd|]. split; [exact HC|]. state_fields.
    rewrite journal_get_set2.
    rewrite journal_get_set2_other, journal_get_set2 by discriminate.
    repeat split; reflexivity.
Qed.

(** [eliminate_redundant_columns] on a state whose vectors match the
    matrix: the rule returns; it deletes the rows with [b[i] = 0], a negative
    counterpart and coefficients of one sign, and every column with a nonzero
    coefficient in such a row, each once, from the matrix and from all the
    parallel vectors; it journals their original indices; and the vectors
    still match the matrix. *)
Theorem eliminate_redundant_columns_keeps_dimensions (s : lp_state) :
  dimensions_consistent s = true ->
  exists s' C,
    eliminate_redundant_columns s = Ok s'
    /\ dimensions_consistent s' = true
    /\ NoDup C
    /\ (forall j, In j C <-> occurs_in_rows s (redundant_column_rows s) j)
    /\ mrows (A s')
       = map (drop_from 0 C) (drop_from 0 (redundant_column_rows s) (mrows (A s)))
    /\ b s' = drop_from 0 (redundant_column_rows s) (b s)
    /\ c s' = drop_from 0 C (c s)
    /\ lb s' = NdArray (drop_from 0 C (items (lb s)))
    /\ ub s' = NdArray (drop_from 0 C (items (ub s)))
    /\ variable_names s' = drop_from 0 C (variable_names s)
    /\ journal_get (path2 "eliminate_redundant_columns" "deleted_rows_indices")
         (change_dictionary s')
       = Some (JList (originals (original_row_index s) (redundant_column_rows s)))
    /\ journal_get (path2 "eliminate_redundant_columns" "deleted_variables_indices")
         (change_dictionary s')
       = Some (JList (originals (original_column_index s) C))
    /\ warnings s' = warnings s.
Proof.
  intro Hd.
  destruct (eliminate_redundant_columns_result s Hd)
    as (s' & C & E & Hd' & Hnd & HC & HA & Hb & Hc & Hlb & Hub & Hvn & Hj1 & Hj2
        & Hw & _).
  exists s', C. repeat (split; [assumption|]). assumption.
Qed.

Lemma eliminate_redundant_columns_keeps_dimensions_witness :
  exists s',
    eliminate_redundant_columns zero_sum_equality_state = Ok s'
    /\ dimensions_consistent s' = true.
Proof.
  destruct (eliminate_redundant_columns_keeps_dimensions
              zero_sum_equality_state eq_refl)
    as (s' & C & E & Hd & _).
  exists s'. split; [exact E|exact Hd].
Defined.

(** ** Termination of the k-ton rule *)

Lemma drop_from_In {T : Type} (idxs : list nat) (l : list T) (x : T) :
  forall pos, In x (drop_from pos idxs l) -> In x l.
Proof.
  induction l as [|y l IH]; intros pos H; cbn in H; [destruct H|].
  destruct (in_idx pos idxs); [right; eauto|].
  destruct H as [<-|H]; [now left|right; eauto].
Qed.

Lemma imap_In {T U : Type} (f : nat -> T -> U) (l : list T) (d : T) (y : U) :
  In y (imap f l) -> exists r, r < length l /\ y = f r (nth r l d).
Proof.
  intro H. apply (In_nth _ _ y) in H as (r & Hr & E).
  rewrite imap_length in Hr. exists r. split; [exact Hr|].
  rewrite <- E. now apply imap_nth.
Qed.

(** The substitution takes one row and one column away and keeps the
    vectors in step with the matrix. *)
Lemma kton_substitution_consistent (i mate p : nat) (s : lp_state) :
  dimensions_consistent s = true ->
  i < nrows (A s) -> mate < nrows (A s) -> p < ncols (A s) ->
  dimensions_consistent (kton_substitution i mate p s) = true
  /\ S (nrows (A (kton_substitution i mate p s))) = nrows (A s)
  /\ S (ncols (A (kton_substitution i mate p s))) = ncols (A s).
Proof.
  intros Hd Hi Hm Hp.
  apply dimensions_consistent_spec in Hd
    as (H1 & H2 & H3 & H4 & H5 & H6 & H7 & H8 & H9).
  unfold nrows in *.
  assert (Hwi : length (nth i (mrows (A s)) []) = ncols (A s)).
  { apply H9, nth_In. exact Hi. }
  assert (Hcols : S (length (drop_from 0 [p] (seq 0 (ncols (A s))))) = ncols (A s)).
  { pose proof (drop_from_length_in_range p (seq 0 (ncols (A s))) 0) as Hx.
    rewrite length_seq in Hx. apply Hx; lia. }
  unfold kton_substitution.
  split; [|split].
  - apply dimensions_consistent_intro; unfold nrows; cbn [A b c lb ub cons_senses
      variable_names original_row_index original_column_index items mrows ncols].
    + apply drop_from_same_length. now rewrite !imap_length.
    + apply drop_from_same_length. now rewrite !imap_length.
    + apply drop_from_same_length. now rewrite !imap_length.
    + apply drop_from_same_length.
      rewrite vec_sub_length, length_seq; rewrite ?length_map; lia.
    + apply drop_from_same_length. now rewrite length_seq.
    + apply drop_from_same_length. now rewrite length_seq.
    + apply drop_from_same_length. now rewrite length_seq.
    + apply drop_from_same_length. now rewrite length_seq.
    + intros r Hr. apply drop_from_In in Hr.
      apply (imap_In _ _ []) in Hr as (k & Hk & ->).
      rewrite imap_length in Hk.
      rewrite (imap_nth _ _ _ _ []) by exact Hk.
      assert (Hwk : length (nth k (mrows (A s)) []) = ncols (A s)).
      { apply H9, nth_In. exact Hk. }
      assert (E : length (if k =? i
                          then map (fun x => qdiv x (nth p (nth i (mrows (A s)) []) 0%Q))
                                 (nth i (mrows (A s)) [])
                          else vec_sub (nth k (mrows (A s)) [])
                                 (map (fun x => qdiv x (nth p (nth i (mrows (A s)) []) 0%Q))
                                    (nth i (mrows (A s)) []))
                                 (nth p (nth k (mrows (A s)) []) 0%Q))
                  = length (seq 0 (ncols (A s)))).
      { rewrite length_seq. destruct (k =? i).
        - now rewrite length_map.
        - rewrite vec_sub_length; rewrite ?length_map; lia. }
      destruct (k =? i); rewrite ?length_map;
        now apply drop_from_same_length.
  - cbn [A mrows].
    match goal with
    | |- S (length (drop_from 0 [mate] ?l)) = _ =>
        pose proof (drop_from_length_in_range mate l 0) as Hx;
        rewrite !imap_length in Hx; apply Hx; lia
    end.
  - cbn [A ncols]. exact Hcols.
Qed.

(** With [k >= 1] the [while found_kton] loop ends: every pass that finds a
    row takes one row away. *)
Lemma kton_equalities_loop_terminates (kk : nat) :
  0 < kk ->
  forall n s sol fuel,
    dimensions_consistent s = true ->
    nrows (A s) <= n -> n < fuel ->
    exists s',
      kton_equalities_loop fuel kk sol s = Ok s'
      /\ dimensions_consistent s' = true
      /\ first_true (fst (equality_rows kk s')) = None
      /\ nrows (A s') + ncols (A s) = nrows (A s) + ncols (A s').
Proof.
  intros Hk. induction n as [|n IH]; intros s sol fuel Hd Hn Hf;
    (destruct fuel as [|fuel]; [lia|]); cbn [kton_equalities_loop].
  - destruct (equality_rows kk s) as [valid mates] eqn:He.
    destruct (first_true valid) as [i|] eqn:Hv.
    + pose proof (dimensions_consistent_spec s Hd) as (Hb & _).
      destruct (equality_rows_first kk s valid mates i Hb He Hv) as (Hi & _). lia.
    + unfold kton_equalities_pass. rewrite He, Hv. cbn [bind].
      exists s. rewrite He. cbn [fst]. auto.
  - destruct (equality_rows kk s) as [valid mates] eqn:He.
    destruct (first_true valid) as [i|] eqn:Hv.
    + pose proof (dimensions_consistent_spec s Hd) as (Hb & _).
      destruct (equality_rows_first kk s valid mates i Hb He Hv) as (Hi & _).
      destruct (kton_equalities_pass_result kk sol s valid mates i Hd Hk He Hv)
        as (mate & p & _ & Hm & _ & _ & Hp & _ & Hpass).
      rewrite Hpass. cbn [bind].
      destruct (kton_substitution_consistent i mate p s Hd Hi Hm Hp)
        as (Hd1 & Hr1 & Hc1).
      match goal with
      | |- exists s', kton_equalities_loop _ _ ?sol1 ?s1 = _ /\ _ =>
          assert (Hd1' : dimensions_consistent s1 = true) by exact Hd1;
          assert (Hn1 : nrows (A s1) <= n)
            by (change (nrows (A (kton_substitution i mate p s)) <= n); lia);
          destruct (IH s1 sol1 fuel Hd1' Hn1 ltac:(lia))
            as (s' & E & Hd' & Hnone & Hcount)
      end.
      exists s'. split; [exact E|]. split; [exact Hd'|]. split; [exact Hnone|].
      change (nrows (A s') + ncols (A (kton_substitution i mate p s))
              = nrows (A (kton_substitution i mate p s)) + ncols (A s')) in Hcount.
      lia.
    + unfold kton_equalities_pass. rewrite He, Hv. cbn [bind].
      exists s. rewrite He. cbn [fst]. auto.
Qed.

(** [eliminate_kton_equalities] with [k >= 1] on a state whose vectors match
    the matrix: the loop ends within one pass per row plus one, the rule
    returns without an exception, the vectors still match the matrix, no row
    with [k] nonzeros and a negative counterpart is left, and as many
    columns as rows have been deleted. *)
Theorem eliminate_kton_equalities_terminates (fuel kk : nat) (s : lp_state) :
  dimensions_consistent s = true ->
  0 < kk ->
  nrows (A s) < fuel ->
  exists s',
    eliminate_kton_equalities fuel kk s = Ok s'
    /\ dimensions_consistent s' = true
    /\ first_true (fst (equality_rows kk s')) = None
    /\ nrows (A s') + ncols (A s) = nrows (A s) + ncols (A s').
Proof.
  intros Hd Hk Hf.
  destruct (kton_equalities_loop_terminates kk Hk (nrows (A s)) s [] fuel Hd
              (Nat.le_refl _) Hf) as (s' & E & Hd' & Hnone & Hcount).
  unfold eliminate_kton_equalities. rewrite E. cbn [bind].
  eexists. split; [reflexivity|]. split; [exact Hd'|]. split; [exact Hnone|exact Hcount].
Qed.

Lemma eliminate_kton_equalities_terminates_witness :
  exists s',
    eliminate_kton_equalities 4 2 kton_scenario_state = Ok s'
    /\ dimensions_consistent s' = true
    /\ first_true (fst (equality_rows 2 s')) = None.
Proof.
  destruct (eliminate_kton_equalities_terminates 4 2 kton_scenario_state)
    as (s' & E & Hd & Hnone & _).
  - reflexivity.
  - lia.
  - cbn. lia.
  - exists s'. split; [exact E|]. split; [exact Hd|exact Hnone].
Defined.

(** [eliminate_kton_equalities] with [k = 0] on a state whose vectors match
    the matrix: as soon as some all-zero row has a negative counterpart, the
    first pass asks for the last nonzero column of that row,
    [np.nonzero(kton_row)[0][-1]], and raises [IndexError]. *)
Theorem eliminate_kton_equalities_with_k_zero_raises (fuel : nat) (s : lp_state)
  (i : nat) :
  dimensions_consistent s = true ->
  first_true (fst (equality_rows 0 s)) = Some i ->
  eliminate_kton_equalities (S fuel) 0 s = Raise IndexError.
Proof.
  intros Hd Hv.
  pose proof (dimensions_consistent_spec s Hd) as (Hb & _ & Hor & _).
  destruct (equality_rows 0 s) as [valid mates] eqn:He. cbn [fst] in Hv.
  destruct (equality_rows_first 0 s valid mates i Hb He Hv)
    as (Hi & Hcount & mate & Hmate & Hm & _).
  unfold eliminate_kton_equalities. cbn [kton_equalities_loop].
  unfold kton_equalities_pass. rewrite He, Hv.
  rewrite (getitem_nth _ _ [] Hi). cbn [bind]. rewrite Hmate. cbn [bind].
  rewrite (getitem_nth _ i 0) by lia. cbn [bind].
  rewrite (getitem_nth _ mate 0) by lia. cbn [bind].
  unfold last_nonzero, np_nonzero.
  assert (Hnil : nonzero_from 0 (nth i (mrows (A s)) []) = []).
  { apply length_zero_iff_nil. now rewrite nonzero_from_length. }
  rewrite Hnil. reflexivity.
Qed.

Lemma eliminate_kton_equalities_with_k_zero_raises_witness :
  dimensions_consistent zero_pair_state = true
  /\ eliminate_kton_equalities 1 0 zero_pair_state = Raise IndexError.
Proof.
  split; [reflexivity|].
  apply (eliminate_kton_equalities_with_k_zero_raises 0 zero_pair_state 0);
    reflexivity.
Defined.

(** ** The singleton-equality rule *)

Lemma first_nonzero_spec (r : list Q) :
  0 < count_nonzero r ->
  exists k rest, np_nonzero r = k :: rest /\ first_nonzero r = Ok k /\ k < length r
                 /\ qnonzero (nth k r 0%Q) = true.
Proof.
  intro H. unfold first_nonzero.
  destruct (np_nonzero r) as [|k rest] eqn:E.
  - unfold np_nonzero in E. apply (f_equal (@length nat)) in E.
    rewrite nonzero_from_length in E. cbn in E. lia.
  - exists k, rest. split; [reflexivity|]. split; [reflexivity|].
    assert (Hin : In k (np_nonzero r)) by (rewrite E; now left).
    now apply np_nonzero_In in Hin.
Qed.

Lemma column_length (j : nat) (M : matrix) : length (column j M) = nrows M.
Proof. unfold column, nrows. apply length_map. Qed.

(** One pass of the [while found_singleton] loop on a consistent state in
    which row [i] is the first row with one nonzero and a negative
    counterpart. *)
Lemma singleton_equalities_pass_result (sol : list (string * jvalue))
  (s : lp_state) (valid : list bool) (mates : list (option nat)) (i : nat) :
  dimensions_consistent s = true ->
  equality_rows 1 s = (valid, mates) ->
  first_true valid = Some i ->
  exists mate k rest,
    get_mate mates i = Ok mate /\ mate < nrows (A s) /\ mate <> i
    /\ i < nrows (A s)
    /\ np_nonzero (nth i (mrows (A s)) []) = k :: rest
    /\ k < ncols (A s)
    /\ singleton_equalities_pass sol s
       = if qleb 0 (qdiv (nth i (b s) 0%Q) (nth k (nth i (mrows (A s)) []) 0%Q))
         then Ok (true,
                  dict_set (nth k (variable_names s) EmptyString)
                    (JNum (qdiv (nth i (b s) 0%Q)
                             (nth k (nth i (mrows (A s)) []) 0%Q))) sol,
                  singleton_journal (nth k (variable_names s) EmptyString)
                    (nth k (original_column_index s) 0)
                    [nth i (original_row_index s) 0;
                     nth mate (original_row_index s) 0]
                    (singleton_substitution i mate k s))
         else Ok (true, sol, warn Infeasibility s).
Proof.
  intros Hd He Hf.
  apply dimensions_consistent_spec in Hd
    as (Hb & Hcs & Hor & Hc & Hlb & Hub & Hvn & Hoc & Hw).
  destruct (equality_rows_first 1 s valid mates i Hb He Hf)
    as (Hi & Hcount & mate & Hmate & Hm1 & Hm2).
  assert (Hwi : length (nth i (mrows (A s)) []) = ncols (A s)).
  { apply Hw, nth_In. exact Hi. }
  destruct (first_nonzero_spec (nth i (mrows (A s)) []))
    as (k & rest & Hnz & Hk & Hk1 & Hk2); [lia|].
  exists mate, k, rest. rewrite Hwi in Hk1.
  repeat (split; [assumption|]).
  unfold singleton_equalities_pass. rewrite He, Hf.
  rewrite (getitem_nth _ _ [] Hi). fields. rewrite Hk. fields.
  rewrite (getitem_nth _ i 0%Q) by lia. fields.
  rewrite (getitem_nth _ k 0%Q) by lia. fields.
  set (x_k := qdiv (nth i (b s) 0%Q) (nth k (nth i (mrows (A s)) []) 0%Q)).
  destruct (qleb 0 x_k); [|reflexivity].
  rewrite Hmate. fields.
  rewrite (getitem_nth _ i 0) by lia. fields.
  rewrite (getitem_nth _ mate 0) by lia. fields.
  rewrite (getitem_nth _ k 0) by lia. fields.
  rewrite (getitem_nth _ k EmptyString) by lia. fields.
  rewrite vec_sub_scaled_ok by (rewrite column_length; exact Hb). fields.
  assert (Hnd : NoDup [i; mate]).
  { constructor; [intros [E|[]]; now apply Hm2|]. constructor; [intros []|constructor]. }
  assert (HR : forall r, In r [i; mate] -> r < nrows (A s)).
  { intros r [<-|[<-|[]]]; assumption. }
  rewrite del_row_entries_drop;
    [|exact Hnd
     |intros r Hr; apply HR in Hr; fields;
      rewrite vec_sub_length by (rewrite column_length; exact Hb); lia].
  fields.
  rewrite (getitem_nth _ k 0%Q) by lia. fields.
  destruct (qnonzero (nth k (c s) 0%Q)) eqn:Ec; fields;
    rewrite np_delete_rows_in_range by exact HR; fields;
    rewrite np_delete_cols_in_range by (intros j [<-|[]]; exact Hk1); fields;
    rewrite (py_del_drop _ k 0) by lia; fields;
    rewrite (bounds_np_delete_one k (lb s)) by lia;
    rewrite (bounds_np_delete_one k (ub s)) by lia; fields;
    rewrite (py_del_drop _ k 0) by lia; fields;
    rewrite (py_del_drop _ k 0) by lia; fields;
    f_equal; f_equal;
    unfold singleton_journal, singleton_substitution; fold x_k; rewrite Ec;
    apply lp_state_ext; fields; reflexivity.
Qed.

Lemma insert_desc_length (x : nat) (l : list nat) :
  length (insert_desc x l) = S (length l).
Proof.
  induction l as [|y l IH]; cbn; [reflexivity|].
  destruct (y <=? x); cbn; [reflexivity|]. now rewrite IH.
Qed.

Lemma sorted_desc_length (l : list nat) : length (sorted_desc l) = length l.
Proof.
  induction l as [|x l IH]; [reflexivity|].
  change (sorted_desc (x :: l)) with (insert_desc x (sorted_desc l)).
  rewrite insert_desc_length, IH. reflexivity.
Qed.

(** Deleting [n] distinct positions in range shortens a list by [n]. *)
Lemma drop_from_length_NoDup {T : Type} (idxs : list nat) (l : list T) :
  NoDup idxs -> (forall i, In i idxs -> i < length l) ->
  length (drop_from 0 idxs l) + length idxs = length l.
Proof.
  intros Hnd Hr.
  rewrite <- (drop_from_sorted_desc idxs l), <- (sorted_desc_length idxs).
  assert (Hd : descending (sorted_desc idxs)) by now apply sorted_desc_descending.
  assert (Hr' : forall i, In i (sorted_desc idxs) -> i < length l).
  { intros i Hi. apply Hr. now apply sorted_desc_In. }
  clear Hnd Hr. revert l Hr'.
  induction (sorted_desc idxs) as [|x D IH]; intros l Hr.
  - rewrite drop_from_nil. cbn. lia.
  - destruct Hd as [Hx Hd].
    rewrite <- (drop_from_largest_first x D l 0 Hx).
    pose proof (drop_from_length_in_range x l 0 (Nat.le_0_l x)
                  (Hr x (or_introl eq_refl))) as Hl.
    assert (Hr1 : forall i, In i D -> i < length (drop_from 0 [x] l)).
    { intros i Hi. specialize (Hx i Hi).
      pose proof (Hr x (or_introl eq_refl)). lia. }
    specialize (IH Hd (drop_from 0 [x] l) Hr1). cbn [length]. lia.
Qed.

(** The substitution takes two rows and one column away and keeps the
    vectors in step with the matrix. *)
Lemma singleton_substitution_consistent (i mate k : nat) (s : lp_state) :
  dimensions_consistent s = true ->
  i < nrows (A s) -> mate < nrows (A s) -> mate <> i -> k < ncols (A s) ->
  dimensions_consistent (singleton_substitution i mate k s) = true
  /\ S (S (nrows (A (singleton_substitution i mate k s)))) = nrows (A s)
  /\ S (ncols (A (singleton_substitution i mate k s))) = ncols (A s).
Proof.
  intros Hd Hi Hm Hne Hk.
  pose proof (dimensions_consistent_spec s Hd)
    as (H1 & H2 & H3 & H4 & H5 & H6 & H7 & H8 & H9).
  set (x_k := qdiv (nth i (b s) 0%Q) (nth k (nth i (mrows (A s)) []) 0%Q)).
  assert (Hd0 : dimensions_consistent (set_b (vec_sub (b s) (column k (A s)) x_k) s)
                = true).
  { apply dimensions_consistent_intro; state_fields; unfold nrows in *; try assumption.
    rewrite vec_sub_length; [exact H1|]. rewrite column_length. exact H1. }
  split; [|split].
  - apply (deletion_consistent [i; mate] [k]
             (set_b (vec_sub (b s) (column k (A s)) x_k) s)); try exact Hd0;
      reflexivity.
  - unfold singleton_substitution, nrows. cbn [A mrows]. rewrite length_map.
    pose proof (drop_from_length_NoDup [i; mate] (mrows (A s))) as Hl.
    cbn [length] in Hl. unfold nrows in *. rewrite <- Hl; [lia| |].
    + constructor; [intros [E|[]]; now apply Hne|].
      constructor; [intros []|constructor].
    + intros r [<-|[<-|[]]]; assumption.
  - unfold singleton_substitution. cbn [A ncols].
    pose proof (drop_from_length_in_range k (seq 0 (ncols (A s))) 0) as Hx.
    rewrite length_seq in Hx. apply Hx; lia.
Qed.

(** What one pass does on a consistent state: nothing when there is no
    singleton equality; a warning and nothing else when the fixed value is
    negative; otherwise two rows and one column fewer. *)
Lemma singleton_equalities_pass_cases (sol : list (string * jvalue)) (s : lp_state) :
  dimensions_consistent s = true ->
  (first_true (fst (equality_rows 1 s)) = None
   /\ singleton_equalities_pass sol s = Ok (false, sol, s))
  \/ (negative_fixed_value s = true
      /\ singleton_equalities_pass sol s = Ok (true, sol, warn Infeasibility s))
  \/ (negative_fixed_value s = false
      /\ exists sol1 s1,
        singleton_equalities_pass sol s = Ok (true, sol1, s1)
        /\ dimensions_consistent s1 = true
        /\ S (S (nrows (A s1))) = nrows (A s)
        /\ S (ncols (A s1)) = ncols (A s)).
Proof.
  intro Hd.
  destruct (equality_rows 1 s) as [valid mates] eqn:He. cbn [fst].
  destruct (first_true valid) as [i|] eqn:Hv.
  - right.
    destruct (singleton_equalities_pass_result sol s valid mates i Hd He Hv)
      as (mate & k & rest & Hmate & Hm & Hne & Hi & Hnz & Hk & Hpass).
    unfold negative_fixed_value. rewrite He. cbn [fst]. rewrite Hv, Hnz.
    rewrite Hpass.
    destruct (qleb 0 (qdiv (nth i (b s) 0%Q) (nth k (nth i (mrows (A s)) []) 0%Q))).
    + right. split; [reflexivity|]. do 2 eexists. split; [reflexivity|].
      exact (singleton_substitution_consistent i mate k s Hd Hi Hm Hne Hk).
    + left. split; reflexivity.
  - left. split; [reflexivity|].
    unfold singleton_equalities_pass. rewrite He, Hv. reflexivity.
Qed.

(** Once the fixed value is negative the loop never leaves the state. *)
Lemma singleton_equalities_loop_stuck (fuel : nat) :
  forall sol s,
    dimensions_consistent s = true ->
    negative_fixed_value s = true ->
    singleton_equalities_loop fuel sol s = OutOfFuel.
Proof.
  induction fuel as [|fuel IH]; intros sol s Hd Hn; [reflexivity|].
  cbn [singleton_equalities_loop].
  destruct (singleton_equalities_pass_cases sol s Hd)
    as [[Hnone _]|[[_ Hpass]|[Hfalse _]]].
  - unfold negative_fixed_value in Hn. rewrite Hnone in Hn. discriminate.
  - rewrite Hpass. cbn [bind]. apply IH; [exact Hd|exact Hn].
  - congruence.
Qed.

(** The loop on a consistent state with at most [n] rows: it ends within
    [n + 1] passes whatever larger fuel it is given, or it never ends. *)
Lemma singleton_equalities_loop_dichotomy :
  forall n s sol,
    dimensions_consistent s = true ->
    nrows (A s) <= n ->
    (exists sol' s',
        (forall fuel, n < fuel ->
                      singleton_equalities_loop fuel sol s = Ok (sol', s'))
        /\ dimensions_consistent s' = true
        /\ first_true (fst (equality_rows 1 s')) = None
        /\ nrows (A s') + 2 * ncols (A s) = nrows (A s) + 2 * ncols (A s'))
    \/ (forall fuel, singleton_equalities_loop fuel sol s = OutOfFuel).
Proof.
  induction n as [|n IH]; intros s sol Hd Hn;
    destruct (singleton_equalities_pass_cases sol s Hd)
      as [[Hnone Hpass]|[[Hneg Hpass]|(_ & sol1 & s1 & Hpass & Hd1 & Hr1 & Hc1)]].
  - left. exists sol, s. repeat split; auto.
    intros [|fuel] Hf; [lia|]. cbn [singleton_equalities_loop].
    now rewrite Hpass.
  - right. intro fuel. now apply singleton_equalities_loop_stuck.
  - lia.
  - left. exists sol, s. repeat split; auto.
    intros [|fuel] Hf; [lia|]. cbn [singleton_equalities_loop].
    now rewrite Hpass.
  - right. intro fuel. now apply singleton_equalities_loop_stuck.
  - destruct (IH s1 sol1 Hd1 ltac:(lia))
      as [(sol' & s' & Hrun & Hd' & Hnone & Hcount)|Hstuck].
    + left. exists sol', s'. repeat split; auto; [|lia].
      intros [|fuel] Hf; [lia|]. cbn [singleton_equalities_loop].
      rewrite Hpass. cbn [bind]. apply Hrun. lia.
    + right. intros [|fuel]; [reflexivity|]. cbn [singleton_equalities_loop].
      rewrite Hpass. cbn [bind]. apply Hstuck.
Qed.

(** [eliminate_singleton_equalities] on a state whose vectors match the
    matrix never raises.  When the first singleton equality fixes its
    variable at a negative value, the loop never ends.  In general the rule
    either returns, within one pass per row plus one, a state whose vectors
    still match the matrix, with no singleton equality left and twice as
    many rows as columns deleted, or it never returns however many passes
    it is given. *)
Theorem eliminate_singleton_equalities_returns_or_never_ends (s : lp_state) :
  dimensions_consistent s = true ->
  (negative_fixed_value s = true ->
   forall fuel, eliminate_singleton_equalities fuel s = OutOfFuel)
  /\ ((exists s',
          (forall fuel, nrows (A s) < fuel ->
                        eliminate_singleton_equalities fuel s = Ok s')
          /\ dimensions_consistent s' = true
          /\ first_true (fst (equality_rows 1 s')) = None
          /\ nrows (A s') + 2 * ncols (A s) = nrows (A s) + 2 * ncols (A s'))
      \/ (forall fuel, eliminate_singleton_equalities fuel s = OutOfFuel)).
Proof.
  intro Hd. split.
  - intros Hneg fuel. unfold eliminate_singleton_equalities.
    now rewrite singleton_equalities_loop_stuck.
  - destruct (singleton_equalities_loop_dichotomy (nrows (A s)) s [] Hd (Nat.le_refl _))
      as [(sol' & s' & Hrun & Hd' & Hnone & Hcount)|Hstuck].
    + left. eexists. split; [|split; [|split]].
      * intros fuel Hf. unfold eliminate_singleton_equalities.
        rewrite (Hrun fuel Hf). cbn [bind]. reflexivity.
      * exact Hd'.
      * exact Hnone.
      * exact Hcount.
    + right. intro fuel. unfold eliminate_singleton_equalities.
      now rewrite Hstuck.
Qed.

Lemma eliminate_singleton_equalities_returns_or_never_ends_witness :
  (forall fuel,
      eliminate_singleton_equalities fuel negative_singleton_state = OutOfFuel)
  /\ exists s',
       eliminate_singleton_equalities 4 positive_singleton_state = Ok s'
       /\ dimensions_consistent s' = true
       /\ nrows (A s') = 1 /\ ncols (A s') = 1.
Proof.
  split.
  - apply (eliminate_singleton_equalities_returns_or_never_ends
             negative_singleton_state eq_refl). reflexivity.
  - destruct (eliminate_singleton_equalities_returns_or_never_ends
                positive_singleton_state eq_refl)
      as [_ [(s' & Hrun & Hd' & _ & Hcount)|Hstuck]].
    + exists s'. split; [apply Hrun; cbn; lia|]. split; [exact Hd'|].
      specialize (Hrun 4 ltac:(cbn; lia)).
      assert (E : eliminate_singleton_equalities 4 positive_singleton_state
                  = Ok s') by exact Hrun.
      vm_compute in E. injection E as <-. split; reflexivity.
    + specialize (Hstuck 4). vm_compute in Hstuck. discriminate Hstuck.
Defined.

(** One pass of [eliminate_singleton_equalities] on a state whose vectors
    match the matrix, when some row has one nonzero and a negative
    counterpart: for the first such row [i], its mate and its nonzero column
    [k], the value is [x_k = b[i] / A[i,k]].  If [x_k >= 0] the pass records
    [solution[name_k] = x_k], replaces [b] by [b - A[:,k] * x_k], subtracts
    [c[k] * x_k] from the constant when [c[k] != 0], deletes rows [i] and
    mate and column [k] everywhere, and journals their original indices
    under the variable's name.  If [x_k < 0] it emits one infeasibility
    warning and changes nothing else.  In both cases it asks for another
    pass. *)
Theorem singleton_equality_pass_substitutes_the_fixed_value
  (sol : list (string * jvalue)) (s : lp_state) (i : nat) :
  dimensions_consistent s = true ->
  first_true (fst (equality_rows 1 s)) = Some i ->
  exists mate k,
    get_mate (snd (equality_rows 1 s)) i = Ok mate
    /\ mate < nrows (A s) /\ mate <> i
    /\ first_nonzero (nth i (mrows (A s)) []) = Ok k
    /\ k < ncols (A s)
    /\ singleton_equalities_pass sol s
       = if qleb 0 (qdiv (nth i (b s) 0%Q) (nth k (nth i (mrows (A s)) []) 0%Q))
         then Ok (true,
                  dict_set (nth k (variable_names s) EmptyString)
                    (JNum (qdiv (nth i (b s) 0%Q)
                             (nth k (nth i (mrows (A s)) []) 0%Q))) sol,
                  singleton_journal (nth k (variable_names s) EmptyString)
                    (nth k (original_column_index s) 0)
                    [nth i (original_row_index s) 0;
                     nth mate (original_row_index s) 0]
                    (singleton_substitution i mate k s))
         else Ok (true, sol, warn Infeasibility s).
Proof.
  intros Hd Hv.
  destruct (equality_rows 1 s) as [valid mates] eqn:He. cbn [fst snd] in *.
  destruct (singleton_equalities_pass_result sol s valid mates i Hd He Hv)
    as (mate & k & rest & Hmate & Hm & Hne & Hi & Hnz & Hk & Hpass).
  exists mate, k. repeat (split; [assumption|]).
  split; [unfold first_nonzero; now rewrite Hnz|].
  split; [exact Hk|exact Hpass].
Qed.

Lemma singleton_equality_pass_substitutes_the_fixed_value_witness :
  exists s1,
    singleton_equalities_pass [] positive_singleton_state
    = Ok (true, [(x0, JNum 1)], s1)
    /\ mrows (A s1) = [[1]]%Q /\ b s1 = [4]%Q /\ co s1 = (-1)%Q.
Proof.
  destruct (singleton_equality_pass_substitutes_the_fixed_value []
              positive_singleton_state 0 eq_refl eq_refl)
    as (mate & k & Hmate & _ & _ & Hk & _ & Hpass).
  vm_compute in Hmate. injection Hmate as <-.
  vm_compute in Hk. injection Hk as <-.
  eexists. split; [rewrite Hpass; vm_compute; reflexivity|].
  vm_compute. repeat split; reflexivity.
Defined.

(** ** What a rule writes into the journal *)

Lemma record_change_other (key : string) (rest : list string) (v : jvalue)
  (s : lp_state) (k1 : string) :
  k1 <> key ->
  dict_get k1 (change_dictionary (record_change (key :: rest) v s))
  = dict_get k1 (change_dictionary s).
Proof.
  intro Hne. unfold record_change. cbn [change_dictionary set_change_dictionary].
  destruct rest; cbn [journal_set]; now apply dict_get_set_other.
Qed.

Lemma for_each_same_journal {T : Type} (body : T -> lp_state -> result lp_state)
  (l : list T) (s s' : lp_state) :
  (forall x a a', body x a = Ok a' -> change_dictionary a' = change_dictionary a) ->
  for_each l body s = Ok s' -> change_dictionary s' = change_dictionary s.
Proof.
  intro Hb.
  apply (for_each_inv (fun s' => change_dictionary s' = change_dictionary s));
    [|reflexivity].
  intros x a a' Ha H. rewrite (Hb x a a' H). exact Ha.
Qed.

Ltac journal_fields :=
  cbn [change_dictionary set_A set_b set_c set_co set_lb set_ub set_cons_senses
       set_variable_names set_original_row_index set_original_column_index
       set_operation_table set_warnings record_operation warn warn_all].

Ltac same_journal_loops :=
  repeat match goal with
  | H : del_row_entries _ _ = Ok _ |- _ =>
      unfold del_row_entries in H
  | H : del_column_entries _ _ = Ok _ |- _ =>
      unfold del_column_entries in H
  | H : for_each _ _ ?s0 = Ok ?s1 |- _ =>
      apply for_each_same_journal in H;
      [| let H' := fresh in
         intros ? ? ? H'; bind_inv H'; subst; journal_fields; reflexivity ]
  end.

Ltac journal_frame H :=
  bind_inv H; subst;
  repeat match goal with
         | H' : context [if ?t then _ else _] |- _ => destruct t
         | |- context [if ?t then _ else _] => destruct t
         end;
  same_journal_loops; journal_fields;
  unfold path2, path3;
  repeat (rewrite record_change_other by assumption; journal_fields);
  repeat match goal with
         | E : change_dictionary _ = change_dictionary _ |- _ =>
             rewrite E; clear E; journal_fields
         end;
  try reflexivity.

Lemma kton_eliminate_row_same_journal first col i s s' :
  kton_eliminate_row first col i s = Ok s' ->
  change_dictionary s' = change_dictionary s.
Proof. unfold kton_eliminate_row. intro H. bind_inv H. subst. reflexivity. Qed.

Section JournalFrame.

Variable k1 : string.

Lemma eliminate_zero_rows_frame s s' :
  k1 <> "eliminate_zero_rows"%string ->
  eliminate_zero_rows s = Ok s' ->
  dict_get k1 (change_dictionary s') = dict_get k1 (change_dictionary s).
Proof. intros Hne H. unfold eliminate_zero_rows in H. journal_frame H. Qed.

Lemma eliminate_zero_columns_frame s s' :
  k1 <> "eliminate_zero_columns"%string ->
  eliminate_zero_columns s = Ok s' ->
  dict_get k1 (change_dictionary s') = dict_get k1 (change_dictionary s).
Proof. intros Hne H. unfold eliminate_zero_columns in H. journal_frame H. Qed.

Lemma eliminate_singleton_inequalities_frame s s' :
  k1 <> "eliminate_singleton_inequalities"%string ->
  eliminate_singleton_inequalities s = Ok s' ->
  dict_get k1 (change_dictionary s') = dict_get k1 (change_dictionary s).
Proof. intros Hne H. unfold eliminate_singleton_inequalities in H. journal_frame H. Qed.

Lemma eliminate_dual_singleton_inequalities_frame s s' :
  k1 <> "eliminate_dual_singleton_inequalities"%string ->
  eliminate_dual_singleton_inequalities s = Ok s' ->
  dict_get k1 (change_dictionary s') = dict_get k1 (change_dictionary s).
Proof.
  intros Hne H. unfold eliminate_dual_singleton_inequalities in H. journal_frame H.
Qed.

Lemma eliminate_redundant_columns_frame s s' :
  k1 <> "eliminate_redundant_columns"%string ->
  eliminate_redundant_columns s = Ok s' ->
  dict_get k1 (change_dictionary s') = dict_get k1 (change_dictionary s).
Proof. intros Hne H. unfold eliminate_redundant_columns in H. journal_frame H. Qed.

Lemma eliminate_implied_bounds_frame s s' :
  k1 <> "eliminate_implied_bounds"%string ->
  eliminate_implied_bounds s = Ok s' ->
  dict_get k1 (change_dictionary s') = dict_get k1 (change_dictionary s).
Proof.
  intros Hne H. unfold eliminate_implied_bounds, eliminate_implied_bounds_with in H.
  journal_frame H.
Qed.

Lemma eliminate_redundant_rows_frame ld s s' :
  k1 <> "eliminate_redundant_rows"%string ->
  eliminate_redundant_rows ld s = Ok s' ->
  dict_get k1 (change_dictionary s') = dict_get k1 (change_dictionary s).
Proof. intros Hne H. unfold eliminate_redundant_rows in H. journal_frame H. Qed.

Lemma singleton_equalities_pass_frame sol s found sol' s' :
  k1 <> "eliminate_singleton_equalities"%string ->
  singleton_equalities_pass sol s = Ok (found, sol', s') ->
  dict_get k1 (change_dictionary s') = dict_get k1 (change_dictionary s).
Proof.
  intros Hne H. unfold singleton_equalities_pass in H.
  destruct (equality_rows 1 s) as [valid_rows indices_list].
  journal_frame H.
Qed.

Lemma singleton_equalities_loop_frame fuel :
  k1 <> "eliminate_singleton_equalities"%string ->
  forall sol s sol' s',
    singleton_equalities_loop fuel sol s = Ok (sol', s') ->
    dict_get k1 (change_dictionary s') = dict_get k1 (change_dictionary s).
Proof.
  intro Hne. induction fuel as [|fuel IH]; intros sol s sol' s' H; cbn in H;
    [discriminate|].
  apply bind_Ok in H as ([[found sol1] s1] & E & H).
  apply (singleton_equalities_pass_frame _ _ _ _ _ Hne) in E.
  destruct found.
  - rewrite <- E. eapply IH; eauto.
  - injection H as -> ->. exact E.
Qed.

Lemma eliminate_singleton_equalities_frame fuel s s' :
  k1 <> "eliminate_singleton_equalities"%string ->
  eliminate_singleton_equalities fuel s = Ok s' ->
  dict_get k1 (change_dictionary s') = dict_get k1 (change_dictionary s).
Proof.
  intros Hne H. unfold eliminate_singleton_equalities in H.
  apply bind_Ok in H as ([sol s1] & E & H).
  apply (singleton_equalities_loop_frame _ Hne) in E.
  injection H as <-. journal_fields. unfold path2.
  rewrite record_change_other by assumption. exact E.
Qed.

Lemma kton_equalities_pass_frame kk sol s found sol' s' :
  k1 <> "eliminate_kton_equalities"%string ->
  kton_equalities_pass kk sol s = Ok (found, sol', s') ->
  dict_get k1 (change_dictionary s') = dict_get k1 (change_dictionary s).
Proof.
  intros Hne H. unfold kton_equalities_pass in H.
  destruct (equality_rows kk s) as [valid_rows indices_list].
  bind_inv H; subst; [|reflexivity].
  match goal with
  | H : for_each _ _ _ = Ok _ |- _ =>
      apply for_each_same_journal in H;
      [| intros ? ? ? H'; destruct (_ =? _);
         [injection H' as <-; reflexivity
         | eapply kton_eliminate_row_same_journal; eauto] ]
  end.
  journal_fields. unfold path2, path3.
  repeat (rewrite record_change_other by assumption; journal_fields).
  match goal with
  | E : change_dictionary _ = change_dictionary _ |- _ => rewrite E
  end.
  reflexivity.
Qed.

Lemma kton_equalities_loop_frame fuel kk :
  k1 <> "eliminate_kton_equalities"%string ->
  forall sol s s',
    kton_equalities_loop fuel kk sol s = Ok s' ->
    dict_get k1 (change_dictionary s') = dict_get k1 (change_dictionary s).
Proof.
  intro Hne. induction fuel as [|fuel IH]; intros sol s s' H; cbn in H;
    [discriminate|].
  apply bind_Ok in H as ([[found sol1] s1] & E & H).
  apply (kton_equalities_pass_frame _ _ _ _ _ _ Hne) in E.
  destruct found.
  - rewrite <- E. eapply IH; eauto.
  - injection H as ->. exact E.
Qed.

Lemma eliminate_kton_equalities_frame fuel kk s s' :
  k1 <> "eliminate_kton_equalities"%string ->
  eliminate_kton_equalities fuel kk s = Ok s' ->
  dict_get k1 (change_dictionary s') = dict_get k1 (change_dictionary s).
Proof.
  intros Hne H. unfold eliminate_kton_equalities in H.
  apply bind_Ok in H as (s1 & E & H).
  apply (kton_equalities_loop_frame _ _ Hne) in E.
  injection H as <-. exact E.
Qed.

End JournalFrame.

Section JournalOfARun.

Variable linear_dependency : matrix -> list Q -> list (list nat) * list bool.
Variable normalize_features : matrix -> list Q -> matrix.
Variable matrix_sparsification : Q -> matrix -> matrix -> matrix.

Lemma apply_rule_frame (fuel : nat) (p : PresolveComillas) (r : rule)
  (s s' : lp_state) (key : string) :
  apply_rule linear_dependency normalize_features matrix_sparsification fuel p r s
  = Ok s' ->
  key <> rule_key r ->
  dict_get key (change_dictionary s') = dict_get key (change_dictionary s).
Proof.
  intros H Hne. destruct r; cbn [apply_rule rule_key] in *.
  - unfold reduction_small_coefficients in H. injection H as <-. reflexivity.
  - eapply eliminate_implied_bounds_frame; eauto.
  - eapply eliminate_redundant_rows_frame; eauto.
  - eapply eliminate_kton_equalities_frame; eauto.
  - eapply eliminate_singleton_equalities_frame; eauto.
  - eapply eliminate_singleton_inequalities_frame; eauto.
  - eapply eliminate_dual_singleton_inequalities_frame; eauto.
  - eapply eliminate_redundant_columns_frame; eauto.
  - eapply eliminate_zero_rows_frame; eauto.
  - eapply eliminate_zero_columns_frame; eauto.
Qed.


Lemma run_rules_frame (fuel : nat) (p : PresolveComillas) (key : string)
  (rs : list rule) :
  (forall r, In r rs -> key <> rule_key r) ->
  forall s s',
    for_each rs
      (apply_rule linear_dependency normalize_features matrix_sparsification fuel p)
      s = Ok s' ->
    dict_get key (change_dictionary s') = dict_get key (change_dictionary s).
Proof.
  induction rs as [|r rs IH]; intros Hk s s' H; cbn [for_each] in H.
  - now injection H as <-.
  - apply bind_Ok in H as (s1 & E & H).
    rewrite (IH (fun r' Hr' => Hk r' (or_intror Hr')) s1 s' H).
    apply (apply_rule_frame _ _ _ _ _ _ E). apply Hk. now left.
Qed.

Lemma run_rules_extend (fuel : nat) (p : PresolveComillas) (rs : list rule) :
  forall s s',
    for_each rs
      (apply_rule linear_dependency normalize_features matrix_sparsification fuel p)
      s = Ok s' ->
    exists t, operation_table s' = operation_table s ++ t.
Proof.
  induction rs as [|r rs IH]; intros s s' H; cbn [for_each] in H.
  - injection H as <-. exists []. now rewrite app_nil_r.
  - apply bind_Ok in H as (s1 & E & H).
    apply apply_rule_effect in E as (s0 & (_ & _ & Ht) & _ & ->).
    destruct (IH _ _ H) as (t & Et). rewrite Et.
    cbn [record_operation set_operation_table operation_table]. rewrite Ht.
    rewrite <- app_assoc. eauto.
Qed.

(** The journal of a completed run has entries under the keys of the
    enabled rules only: a key that is the key of no enabled rule is
    absent from the returned [change_dictionary]. *)
Theorem journal_holds_enabled_rules_only (fuel : nat) (p : PresolveComillas)
  (out : presolve_output) (key : string) :
  orchestrator_presolve_operations linear_dependency normalize_features
    matrix_sparsification fuel p = Ok out ->
  (forall r, enabled p r = true -> key <> rule_key r) ->
  dict_get key (output_journal out) = None.
Proof.
  intros H Hk. rewrite orchestrator_is_rule_order in H.
  unfold orchestrator_by_rule_order in H.
  apply bind_Ok in H as (s0 & E0 & H). apply bind_Ok in H as (s1 & E1 & H).
  injection H as <-.
  change (output_journal (output_of s1)) with (change_dictionary s1).
  rewrite (run_rules_frame fuel p key _ (fun r Hr => Hk r (proj2 (proj1 (filter_In _ _ _) Hr)))
             s0 s1 E1).
  unfold load_model_matrices in E0. destruct (model p); [|discriminate].
  injection E0 as <-. reflexivity.
Qed.

(** The operation table of a completed run starts with the size of the
    model that was loaded and ends with the size of what is returned: its
    first entry is [("Initial", len(cons_senses), len(variable_names), nnz)]
    of the input, its last entry carries the lengths of the returned
    [cons_senses] and [variable_names] and the nonzeros of the returned
    matrix. *)
Theorem operation_table_starts_at_input_ends_at_output (fuel : nat)
  (p : PresolveComillas) (m : model_matrices) (out : presolve_output) :
  model p = Some m ->
  orchestrator_presolve_operations linear_dependency normalize_features
    matrix_sparsification fuel p = Ok out ->
  (exists t,
      output_table out
      = ("Initial"%string, length (model_cons_senses m),
         length (model_variable_names m), nnz (model_A m)) :: t)
  /\ (exists t label,
         output_table out
         = t ++ [(label, length (model_cons_senses (model_of_output out)),
                  length (model_variable_names (model_of_output out)),
                  nnz (model_A (model_of_output out)))]).
Proof.
  intros Hm H. rewrite orchestrator_is_rule_order in H.
  unfold orchestrator_by_rule_order in H.
  apply bind_Ok in H as (s0 & E0 & H). apply bind_Ok in H as (s1 & E1 & H).
  injection H as <-.
  change (output_table (output_of s1)) with (operation_table s1).
  change (model_of_output (output_of s1)) with (model_of_state s1).
  split.
  - destruct (run_rules_extend _ _ _ _ _ E1) as (t & Et). rewrite Et.
    unfold load_model_matrices in E0. rewrite Hm in E0. injection E0 as <-.
    exists t. reflexivity.
  - destruct (load_model_matrices_tracks _ _ E0) as [Htr _].
    pose proof (run_rules_tracks linear_dependency normalize_features
                  matrix_sparsification fuel p _ s0 s1 Htr E1) as [_ Hlast].
    exact Hlast.
Qed.


End JournalOfARun.


Lemma journal_holds_enabled_rules_only_witness :
  exists out,
    orchestrator_presolve_operations no_linear_dependency normalize_nothing
      sparsify_nothing 3
      (zero_rules_only (model_of_state zero_column_state) true true 5) = Ok out
    /\ dict_get "eliminate_kton_equalities" (output_journal out) = None.
Proof.
  assert (E : exists out,
             orchestrator_presolve_operations no_linear_dependency normalize_nothing
               sparsify_nothing 3
               (zero_rules_only (model_of_state zero_column_state) true true 5)
             = Ok out)
    by (vm_compute; eexists; reflexivity).
  destruct E as [out E]. exists out. split; [exact E|].
  apply (journal_holds_enabled_rules_only _ _ _ _ _ _ _ E).
  intros r Hr. destruct r; cbn in Hr; try discriminate Hr; cbn; discriminate.
Defined.

Lemma operation_table_starts_at_input_ends_at_output_witness :
  exists out t,
    orchestrator_presolve_operations no_linear_dependency normalize_nothing
      sparsify_nothing 3
      (zero_rules_only (model_of_state zero_column_state) true true 5) = Ok out
    /\ output_table out = ("Initial"%string, 2, 2, 2) :: t.
Proof.
  assert (E : exists out,
             orchestrator_presolve_operations no_linear_dependency normalize_nothing
               sparsify_nothing 3
               (zero_rules_only (model_of_state zero_column_state) true true 5)
             = Ok out)
    by (vm_compute; eexists; reflexivity).
  destruct E as [out E].
  destruct (operation_table_starts_at_input_ends_at_output
              no_linear_dependency normalize_nothing sparsify_nothing 3
              (zero_rules_only (model_of_state zero_column_state) true true 5)
              (model_of_state zero_column_state) out eq_refl E) as [(t & Ht) _].
  exists out, t. split; [exact E|exact Ht].
Defined.

(** ** The dual-singleton rule *)

Lemma qltb_asym (x y : Q) : qltb x y && qltb y x = false.
Proof.
  destruct (qltb x y) eqn:E1; [|reflexivity].
  destruct (qltb y x) eqn:E2; [|reflexivity].
  apply qltb_lt in E1, E2. exfalso. apply (Qlt_irrefl x). eapply Qlt_trans; eauto.
Qed.

Lemma qltb_not_eq_l (x y : Q) : qltb x y && qeqb x y = false.
Proof.
  destruct (qltb x y) eqn:E1; [|reflexivity].
  destruct (qeqb x y) eqn:E2; [|reflexivity].
  apply qltb_lt in E1. unfold qeqb in E2. apply Qeq_bool_iff in E2.
  rewrite E2 in E1. exfalso. now apply (Qlt_irrefl y).
Qed.

Lemma qltb_not_eq_r (x y : Q) : qltb x y && qeqb y x = false.
Proof.
  destruct (qltb x y) eqn:E1; [|reflexivity].
  destruct (qeqb y x) eqn:E2; [|reflexivity].
  apply qltb_lt in E1. unfold qeqb in E2. apply Qeq_bool_iff in E2.
  rewrite E2 in E1. exfalso. now apply (Qlt_irrefl x).
Qed.







(** ** The singleton-inequality rule *)

Lemma pivot_column_spec (s : lp_state) (i : nat) :
  i < nrows (A s) ->
  (forall r, In r (mrows (A s)) -> length r = ncols (A s)) ->
  singleton_inequality s i = true ->
  first_nonzero (nth i (mrows (A s)) []) = Ok (pivot_column s i)
  /\ pivot_column s i < ncols (A s).
Proof.
  unfold singleton_inequality, pivot_column. intros Hi Hw H.
  apply andb_true_iff in H as [H _]. apply Nat.eqb_eq in H.
  destruct (first_nonzero_spec (nth i (mrows (A s)) []))
    as (k & rest & Hnz & Hk & Hk1 & _); [lia|].
  rewrite Hnz. cbn [hd]. rewrite (Hw (nth i (mrows (A s)) [])) in Hk1 by now apply nth_In.
  auto.
Qed.

(** The marks [singleton_inequalities_scan] builds. *)
Lemma singleton_inequalities_scan_result (s : lp_state) :
  dimensions_consistent s = true ->
  singleton_inequalities_scan s
  = Ok (mkMarks (singleton_rows_to_delete s) (singleton_columns_to_delete s)
          (originals (original_row_index s)
             (filter (singleton_row_journalled s) (seq 0 (nrows (A s)))))
          (originals (original_column_index s) (singleton_columns_to_delete s))
          (map (fun _ => Infeasibility)
             (filter (singleton_row_warned s) (seq 0 (nrows (A s)))))).
Proof.
  intro Hd.
  pose proof (dimensions_consistent_spec s Hd)
    as (H1 & H2 & H3 & H4 & H5 & H6 & H7 & H8 & H9).
  unfold singleton_inequalities_scan.
  pose proof (detector_lengths (A s) (b s) H1) as [Hl1 _].
  assert (Hvalid :
            forall i, i < nrows (A s) ->
              nth i (logical_and
                       (map (fun n => n =? 1) (map count_nonzero (mrows (A s))))
                       (map negb
                          (fst (find_corresponding_negative_rows_with_indices
                                  (A s) (b s)))))
                false
              = singleton_inequality s i).
  { intros i Hi. rewrite logical_and_nth_eq. unfold singleton_inequality.
    unfold nrows in *.
    rewrite (map_nth_in_range _ _ _ _ 0) by (rewrite length_map; exact Hi).
    rewrite (map_nth_in_range _ _ _ _ []) by exact Hi.
    rewrite (map_nth_in_range negb _ _ _ false) by lia.
    reflexivity. }
  destruct (find_corresponding_negative_rows_with_indices (A s) (b s))
    as [has_pair indices]. cbn [fst snd] in *.
  set (valid_rows := logical_and _ _) in *.
  assert (Hlen : length valid_rows = nrows (A s)).
  { unfold valid_rows, nrows in *.
    rewrite logical_and_length, !length_map. lia. }
  set (body := fun (i : nat) (m : marks) => _).
  destruct (for_each_range
              (fun n m =>
                 m = mkMarks
                       (filter (singleton_row_deleted s) (seq 0 n))
                       (map (pivot_column s)
                          (filter (singleton_row_fixes_variable s) (seq 0 n)))
                       (originals (original_row_index s)
                          (filter (singleton_row_journalled s) (seq 0 n)))
                       (originals (original_column_index s)
                          (map (pivot_column s)
                             (filter (singleton_row_fixes_variable s) (seq 0 n))))
                       (map (fun _ => Infeasibility)
                          (filter (singleton_row_warned s) (seq 0 n))))
              body (nrows (A s)) 0 no_marks) as (m & E & Hm).
  - reflexivity.
  - intros i m Hi ->. unfold body.
    rewrite (getitem_nth valid_rows i false) by lia. cbn [bind].
    rewrite Hvalid by lia. rewrite !filter_seq_succ.
    change (singleton_row_deleted s i)
      with (singleton_inequality s i
            && ((qltb 0 (row_pivot s i) && qltb (nth i (b s) 0%Q) 0)
                || (qltb 0 (row_pivot s i) && qeqb (nth i (b s) 0%Q) 0)
                || (qltb (row_pivot s i) 0 && qeqb (nth i (b s) 0%Q) 0))).
    change (singleton_row_journalled s i)
      with (singleton_inequality s i
            && ((qltb 0 (row_pivot s i) && qltb (nth i (b s) 0%Q) 0)
                || (qltb (row_pivot s i) 0 && qeqb (nth i (b s) 0%Q) 0))).
    change (singleton_row_fixes_variable s i)
      with (singleton_inequality s i
            && qltb (row_pivot s i) 0 && qeqb (nth i (b s) 0%Q) 0).
    change (singleton_row_warned s i)
      with (singleton_inequality s i
            && qltb (row_pivot s i) 0 && qltb 0 (nth i (b s) 0%Q)).
    destruct (singleton_inequality s i) eqn:Es; cbn [andb].
    + destruct (pivot_column_spec s i ltac:(lia) H9 Es) as [Hfirst Hcol].
      rewrite (getitem_nth (mrows (A s)) i []) by (unfold nrows in *; lia).
      cbn [bind]. rewrite Hfirst. cbn [bind].
      assert (Hwi : length (nth i (mrows (A s)) []) = ncols (A s)).
      { apply H9, nth_In. unfold nrows in *. lia. }
      rewrite (getitem_nth (nth i (mrows (A s)) []) _ 0%Q) by lia.
      cbn [bind]. fold (row_pivot s i).
      rewrite (getitem_nth (b s) i 0%Q) by lia. cbn [bind].
      rewrite (getitem_nth (original_row_index s) i 0) by lia.
      rewrite (getitem_nth (original_column_index s) (pivot_column s i) 0) by lia.
      pose proof (qltb_asym 0 (row_pivot s i)) as X1.
      pose proof (qltb_asym (nth i (b s) 0%Q) 0) as X2.
      pose proof (qltb_not_eq_l (nth i (b s) 0%Q) 0) as X3.
      pose proof (qltb_not_eq_r 0 (nth i (b s) 0%Q)) as X4.
      destruct (qltb 0 (row_pivot s i)), (qltb (nth i (b s) 0%Q) 0),
        (qltb (row_pivot s i) 0), (qltb 0 (nth i (b s) 0%Q)),
        (qeqb (nth i (b s) 0%Q) 0);
        cbn [andb orb] in *; try discriminate;
        cbn [bind]; eexists; (split; [reflexivity|]);
        marks_fields; unfold originals;
        rewrite ?map_app, ?app_nil_r; reflexivity.
    + eexists. split; [reflexivity|]. now rewrite !app_nil_r.
  - rewrite E, Hm. reflexivity.
Qed.

Lemma singleton_rows_to_delete_in_range (s : lp_state) (i : nat) :
  In i (singleton_rows_to_delete s) -> i < nrows (A s).
Proof.
  unfold singleton_rows_to_delete. intro H. apply filter_In in H as [H _].
  apply in_seq in H. lia.
Qed.

Lemma singleton_columns_to_delete_in_range (s : lp_state) (j : nat) :
  dimensions_consistent s = true ->
  In j (singleton_columns_to_delete s) -> j < ncols (A s).
Proof.
  intros Hd H. apply dimensions_consistent_spec in Hd as (_ & _ & _ & _ & _ & _ & _ & _ & H9).
  unfold singleton_columns_to_delete in H.
  apply in_map_iff in H as (i & <- & Hi). apply filter_In in Hi as [Hr Hi].
  apply in_seq in Hr.
  unfold singleton_row_fixes_variable in Hi.
  apply andb_true_iff in Hi as [Hi _]. apply andb_true_iff in Hi as [Hi _].
  apply pivot_column_spec; [lia|exact H9|exact Hi].
Qed.

(** The column-deleting loop of [eliminate_singleton_inequalities], with
    [del self.lb[index]] and [del self.ub[index]] on Python lists, over a
    strictly descending list of indices in range. *)
Lemma singleton_inequalities_delete_loop (idxs : list nat) :
  forall s l u,
    lb s = PyList l -> ub s = PyList u ->
    descending idxs ->
    (forall j, In j idxs ->
               j < length (c s) /\ j < length (variable_names s)
               /\ j < length l /\ j < length u
               /\ j < length (original_column_index s)) ->
    for_each idxs
      (fun index s =>
         c' <- py_del index (c s) ;;
         lb' <- bounds_del index (lb s) ;;
         ub' <- bounds_del index (ub s) ;;
         n' <- py_del index (variable_names s) ;;
         o' <- py_del index (original_column_index s) ;;
         Ok (set_original_column_index o'
               (set_variable_names n' (set_ub ub' (set_lb lb' (set_c c' s))))))
      s
    = Ok (set_original_column_index (drop_from 0 idxs (original_column_index s))
            (set_variable_names (drop_from 0 idxs (variable_names s))
               (set_ub (PyList (drop_from 0 idxs u))
                  (set_lb (PyList (drop_from 0 idxs l))
                     (set_c (drop_from 0 idxs (c s)) s))))).
Proof.
  induction idxs as [|x D IH]; intros s l u Hl Hu Hd Hr; cbn [for_each].
  - rewrite !drop_from_nil, <- Hl, <- Hu. destruct s; reflexivity.
  - destruct Hd as [Hx Hd].
    destruct (Hr x (or_introl eq_refl)) as (H1 & H2 & H3 & H4 & H5).
    rewrite Hl, Hu. cbn [bounds_del].
    rewrite (py_del_drop (c s) x 0 H1), (py_del_drop (variable_names s) x 0 H2),
      (py_del_drop (original_column_index s) x 0 H5),
      (py_del_drop l x 0 H3), (py_del_drop u x 0 H4).
    cbn [bind Nat.add].
    rewrite (IH _ (drop_from 0 [x] l) (drop_from 0 [x] u)); [|reflexivity..|exact Hd|].
    + cbn. rewrite !drop_from_largest_first by exact Hx. reflexivity.
    + intros j Hj. specialize (Hx j Hj). cbn.
      pose proof (drop_from_length_in_range x (c s) 0 (Nat.le_0_l x) H1).
      pose proof (drop_from_length_in_range x (variable_names s) 0 (Nat.le_0_l x) H2).
      pose proof (drop_from_length_in_range x l 0 (Nat.le_0_l x) H3).
      pose proof (drop_from_length_in_range x u 0 (Nat.le_0_l x) H4).
      pose proof (drop_from_length_in_range x (original_column_index s) 0
                    (Nat.le_0_l x) H5).
      lia.
Qed.

(** [eliminate_singleton_inequalities] on a state whose vectors match the
    matrix and whose bounds are Python lists, when no two singleton rows
    with [A < 0] and [b = 0] sit on the same variable: the rule returns; it
    deletes every singleton row without a negative counterpart that has
    ([A > 0], [b <= 0]) or ([A < 0], [b = 0]), and the variable of every such
    row with [A < 0] and [b = 0], from the matrix and from all the parallel
    vectors; the vectors still match the matrix; it warns once per row with
    [A < 0] and [b > 0]; the journal lists the original indices of the
    deleted columns, and of the deleted rows except those with [A > 0] and
    [b = 0]. *)
Theorem eliminate_singleton_inequalities_on_list_bounds (s : lp_state)
  (l u : list Q) :
  dimensions_consistent s = true ->
  lb s = PyList l -> ub s = PyList u ->
  NoDup (singleton_columns_to_delete s) ->
  exists s',
    eliminate_singleton_inequalities s = Ok s'
    /\ dimensions_consistent s' = true
    /\ mrows (A s')
       = map (drop_from 0 (singleton_columns_to_delete s))
           (drop_from 0 (singleton_rows_to_delete s) (mrows (A s)))
    /\ b s' = drop_from 0 (singleton_rows_to_delete s) (b s)
    /\ c s' = drop_from 0 (singleton_columns_to_delete s) (c s)
    /\ lb s' = PyList (drop_from 0 (singleton_columns_to_delete s) l)
    /\ ub s' = PyList (drop_from 0 (singleton_columns_to_delete s) u)
    /\ variable_names s'
       = drop_from 0 (singleton_columns_to_delete s) (variable_names s)
    /\ journal_get
         (path2 "eliminate_singleton_inequalities" "deleted_variables_indices")
         (change_dictionary s')
       = Some (JList (originals (original_column_index s)
                        (singleton_columns_to_delete s)))
    /\ journal_get
         (path2 "eliminate_singleton_inequalities" "deleted_rows_indices")
         (change_dictionary s')
       = Some (JList (originals (original_row_index s)
                        (filter (singleton_row_journalled s)
                           (seq 0 (nrows (A s))))))
    /\ warnings s'
       = warnings s
         ++ map (fun _ => Infeasibility)
              (filter (singleton_row_warned s) (seq 0 (nrows (A s)))).
Proof.
  intros Hd Hl Hu Hnd.
  pose proof (dimensions_consistent_spec s Hd)
    as (H1 & H2 & H3 & H4 & H5 & H6 & H7 & H8 & H9).
  pose proof (singleton_rows_to_delete_in_range s) as HR.
  pose proof (singleton_columns_to_delete_in_range s) as HC.
  rewrite Hl in H5. rewrite Hu in H6. cbn [items] in H5, H6.
  unfold eliminate_singleton_inequalities.
  rewrite (singleton_inequalities_scan_result s Hd). cbn [bind].
  cbn [to_delete_constraint to_delete_variable to_delete_constraint_original
       to_delete_variable_original emitted].
  state_fields.
  rewrite np_delete_rows_in_range by exact HR. cbn [bind].
  rewrite np_delete_cols_in_range by (intros j Hj; now apply HC). cbn [bind mrows ncols].
  rewrite del_row_entries_drop;
    [|apply NoDup_filter, seq_NoDup
     |intros i Hi; apply HR in Hi; cbn; unfold nrows in *; lia].
  cbn [bind].
  rewrite (singleton_inequalities_delete_loop _ _ l u);
    [|exact Hl|exact Hu|now apply sorted_desc_descending
     |intros j Hj; apply sorted_desc_In, HC in Hj; [cbn; lia|exact Hd]].
  cbn [bind]. eexists. split; [reflexivity|].
  state_fields. rewrite !drop_from_sorted_desc.
  split.
  - apply (deletion_consistent (singleton_rows_to_delete s)
             (singleton_columns_to_delete s) s); try exact Hd; state_fields;
      rewrite ?Hl, ?Hu; reflexivity.
  - rewrite journal_get_set2.
    rewrite journal_get_set2_other, journal_get_set2 by discriminate.
    repeat split; reflexivity.
Qed.

Lemma eliminate_singleton_inequalities_on_list_bounds_witness :
  exists s',
    eliminate_singleton_inequalities list_bounds_state = Ok s'
    /\ dimensions_consistent s' = true
    /\ mrows (A s') = [[1]]%Q /\ b s' = [5]%Q /\ lb s' = PyList [0]%Q.
Proof.
  destruct (eliminate_singleton_inequalities_on_list_bounds
              list_bounds_state [0; 0]%Q [10; 10]%Q eq_refl eq_refl eq_refl)
    as (s' & E & Hd & HA & Hb & _ & Hlb & _).
  - vm_compute. constructor; [intros []|constructor].
  - exists s'. split; [exact E|]. split; [exact Hd|].
    split; [rewrite HA; vm_compute; reflexivity|].
    split; [rewrite Hb; vm_compute; reflexivity|rewrite Hlb; vm_compute; reflexivity].
Defined.

Lemma sorted_desc_cons (l : list nat) :
  l <> [] -> exists x D, sorted_desc l = x :: D /\ In x l.
Proof.
  intro H. destruct (sorted_desc l) as [|x D] eqn:E.
  - apply sorted_desc_nil_inv in E. contradiction.
  - exists x, D. split; [reflexivity|]. apply sorted_desc_In. rewrite E. now left.
Qed.

(** [eliminate_singleton_inequalities] on a state whose vectors match the
    matrix: as soon as some singleton row has [A < 0] and [b = 0] while [lb]
    or [ub] is a NumPy array, [del self.lb[index]] (or [del self.ub[index]])
    raises [ValueError]. *)
Theorem eliminate_singleton_inequalities_raises_on_array_bounds (s : lp_state) :
  dimensions_consistent s = true ->
  singleton_columns_to_delete s <> [] ->
  (exists l, lb s = NdArray l) \/ (exists u, ub s = NdArray u) ->
  eliminate_singleton_inequalities s = Raise ValueError.
Proof.
  intros Hd Hne Harr.
  pose proof (dimensions_consistent_spec s Hd)
    as (H1 & H2 & H3 & H4 & H5 & H6 & H7 & H8 & H9).
  pose proof (singleton_rows_to_delete_in_range s) as HR.
  pose proof (singleton_columns_to_delete_in_range s) as HC.
  unfold eliminate_singleton_inequalities.
  rewrite (singleton_inequalities_scan_result s Hd). cbn [bind].
  cbn [to_delete_constraint to_delete_variable to_delete_constraint_original
       to_delete_variable_original emitted].
  state_fields.
  rewrite np_delete_rows_in_range by exact HR. cbn [bind].
  rewrite np_delete_cols_in_range by (intros j Hj; now apply HC). cbn [bind mrows ncols].
  rewrite del_row_entries_drop;
    [|apply NoDup_filter, seq_NoDup
     |intros i Hi; apply HR in Hi; cbn; unfold nrows in *; lia].
  cbn [bind].
  destruct (sorted_desc_cons _ Hne) as (x & D & -> & Hx).
  apply HC in Hx; [|exact Hd].
  cbn [for_each]. state_fields.
  rewrite (py_del_drop (c s) x 0) by lia. cbn [bind].
  destruct Harr as [[l Hl]|[u Hu]].
  - rewrite Hl. reflexivity.
  - rewrite Hu. destruct (lb s) as [l|l]; [|reflexivity].
    cbn [bounds_del items] in *. rewrite (py_del_drop l x 0) by lia. reflexivity.
Qed.

Lemma eliminate_singleton_inequalities_raises_on_array_bounds_witness :
  dimensions_consistent array_bounds_state = true
  /\ eliminate_singleton_inequalities array_bounds_state = Raise ValueError.
Proof.
  split; [reflexivity|].
  apply eliminate_singleton_inequalities_raises_on_array_bounds.
  - reflexivity.
  - vm_compute. discriminate.
  - left. eexists. reflexivity.
Defined.

(** ** The redundant-row rule *)

Section RedundantRows.

Variable linear_dependency : matrix -> list Q -> list (list nat) * list bool.



End RedundantRows.


(** ** Runs that always return *)

Lemma when_total (flag : bool) (rule : lp_state -> result lp_state) (s : lp_state) :
  (exists s', rule s = Ok s' /\ dimensions_consistent s' = true) ->
  dimensions_consistent s = true ->
  exists s', when flag rule s = Ok s' /\ dimensions_consistent s' = true.
Proof.
  intros H Hd. destruct flag; cbn [when]; [exact H|]. exists s. auto.
Qed.

Section StructuralRules.

Variable linear_dependency : matrix -> list Q -> list (list nat) * list bool.
Variable normalize_features : matrix -> list Q -> matrix.
Variable matrix_sparsification : Q -> matrix -> matrix -> matrix.

(** With only k-ton elimination ([k >= 1]), redundant-column elimination
    and the two zero rules switched on, in any combination, a run on a
    model whose vectors match its matrix returns as soon as each loop is
    given more passes than the model has rows: no rule raises, no loop runs
    on, and the vectors of the returned model match its matrix. *)
Theorem orchestrator_returns_on_structural_rules (fuel : nat) (m : model_matrices)
  (kton : bool) (kk : nat) (redundant_columns zero_rows zero_columns : bool) :
  model_consistent m = true ->
  0 < kk ->
  nrows (model_A m) < fuel ->
  exists out,
    orchestrator_presolve_operations linear_dependency normalize_features
      matrix_sparsification fuel
      (structural_rules_only m kton kk redundant_columns zero_rows zero_columns)
    = Ok out
    /\ model_consistent (model_of_output out) = true.
Proof.
  intros Hm Hk Hf.
  unfold orchestrator_presolve_operations, load_model_matrices.
  cbn [model structural_rules_only].
  match goal with
  | |- exists out, bind (bind (Ok ?s) _) _ = _ /\ _ =>
      assert (Hd0 : dimensions_consistent s = true) by exact Hm;
      assert (Hr0 : nrows (A s) < fuel) by exact Hf;
      remember s as s0 eqn:Es0; clear Es0
  | |- exists out, bind (Ok ?s) _ = _ /\ _ =>
      assert (Hd0 : dimensions_consistent s = true) by exact Hm;
      assert (Hr0 : nrows (A s) < fuel) by exact Hf;
      remember s as s0 eqn:Es0; clear Es0
  end.
  cbn [bind when structural_rules_only perform_reduction_small_coefficients
       perform_eliminate_implied_bounds perform_eliminate_redundant_rows
       perform_eliminate_kton_equalities perform_eliminate_singleton_equalities
       perform_eliminate_singleton_inequalities
       perform_eliminate_dual_singleton_inequalities
       perform_eliminate_redundant_columns perform_eliminate_zero_rows
       perform_eliminate_zero_columns k].
  assert (H1 : exists s1,
             when kton (eliminate_kton_equalities fuel kk) s0 = Ok s1
             /\ dimensions_consistent s1 = true).
  { destruct kton; cbn [when]; [|eauto].
    destruct (kton_equalities_loop_terminates kk Hk (nrows (A s0)) s0 [] fuel Hd0
                (Nat.le_refl _) Hr0) as (s1 & E & Hd1 & _).
    unfold eliminate_kton_equalities. rewrite E. cbn [bind].
    eexists. split; [reflexivity|exact Hd1]. }
  destruct H1 as (s1 & E1 & Hd1). rewrite E1. cbn [bind].
  assert (H2 : exists s2,
             when redundant_columns eliminate_redundant_columns s1 = Ok s2 /\ dimensions_consistent s2 = true).
  { destruct redundant_columns; cbn [when]; [|eauto].
    destruct (eliminate_redundant_columns_result s1 Hd1) as (s2 & C & E & Hd2 & _).
    eauto. }
  destruct H2 as (s2 & E2 & Hd2). rewrite E2. cbn [bind].
  assert (H3 : exists s3,
             when zero_rows eliminate_zero_rows s2 = Ok s3
             /\ dimensions_consistent s3 = true).
  { destruct zero_rows; cbn [when]; [|eauto].
    destruct (eliminate_zero_rows_after s2 Hd2) as (s3 & E & Hd3 & _). eauto. }
  destruct H3 as (s3 & E3 & Hd3). rewrite E3. cbn [bind].
  assert (H4 : exists s4,
             when zero_columns eliminate_zero_columns s3 = Ok s4
             /\ dimensions_consistent s4 = true).
  { destruct zero_columns; cbn [when]; [|eauto].
    destruct (eliminate_zero_columns_after s3 Hd3) as (s4 & E & Hd4 & _). eauto. }
  destruct H4 as (s4 & E4 & Hd4). rewrite E4. cbn [bind].
  eexists. split; [reflexivity|].
  change (model_of_output (output_of s4)) with (model_of_state s4).
  pose proof (dimensions_consistent_spec s4 Hd4)
    as (_ & _ & H3' & _ & _ & _ & _ & H8' & _).
  unfold model_consistent.
  apply (dimensions_consistent_ext s4); try reflexivity; [exact Hd4| |].
  - cbn. rewrite length_seq. now rewrite H3'.
  - cbn. rewrite length_seq. now rewrite H8'.
Qed.

End StructuralRules.

Lemma orchestrator_returns_on_structural_rules_witness :
  exists out,
    orchestrator_presolve_operations no_linear_dependency normalize_nothing
      sparsify_nothing 4
      (structural_rules_only (model_of_state kton_scenario_state) true 2 true true true)
    = Ok out
    /\ model_consistent (model_of_output out) = true
    /\ output_dimensions out = (2, 2).
Proof.
  destruct (orchestrator_returns_on_structural_rules no_linear_dependency
              normalize_nothing sparsify_nothing 4
              (model_of_state kton_scenario_state) true 2 true true true)
    as (out & E & Hc).
  - reflexivity.
  - lia.
  - cbn. lia.
  - exists out. split; [exact E|]. split; [exact Hc|].
    vm_compute in E. injection E as <-. reflexivity.
Defined.

(** ** Deletion-only rules return a submodel *)

Lemma drop_from_map {T U : Type} (f : T -> U) (idxs : list nat) (l : list T) :
  forall pos, drop_from pos idxs (map f l) = map f (drop_from pos idxs l).
Proof.
  induction l as [|x l IH]; intro pos; cbn; [reflexivity|].
  destruct (in_idx pos idxs); cbn; now rewrite IH.
Qed.

Lemma select_drop_from {T : Type} (d : T) (D idxs : list nat) (l : list T) :
  drop_from 0 D (select d idxs l) = select d (drop_from 0 D idxs) l.
Proof. unfold select. apply drop_from_map. Qed.

Lemma select_seq {T : Type} (d : T) (l : list T) :
  select d (seq 0 (length l)) l = l.
Proof.
  unfold select. apply (list_eq_nth d); [now rewrite length_map, length_seq|].
  intros r Hr. rewrite length_map, length_seq in Hr.
  rewrite (map_nth_in_range _ _ _ _ 0) by (rewrite length_seq; exact Hr).
  now rewrite seq_nth.
Qed.

Lemma seq_ascending (n : nat) : forall a, ascending (seq a n).
Proof.
  induction n as [|n IH]; intro a; cbn; [exact I|].
  split; [|apply IH]. intros y Hy. apply in_seq in Hy. lia.
Qed.

Lemma drop_from_ascending (idxs l : list nat) :
  forall pos, ascending l -> ascending (drop_from pos idxs l).
Proof.
  induction l as [|x l IH]; intros pos H; cbn; [exact I|].
  destruct H as [Hx H]. destruct (in_idx pos idxs); [now apply IH|].
  cbn. split; [|now apply IH]. intros y Hy. apply Hx.
  eapply drop_from_In; eauto.
Qed.

Lemma deleted_tracks (m : model_matrices) (R C : list nat) (s s' : lp_state) :
  tracks m s -> deleted R C s s' -> tracks m s'.
Proof.
  intros ((TA & Tn & Tb & Tc & Tlb & Tub & Tcs & Tvn & Tco & Tos) & Ha1 & Ha2 & Hr1 & Hr2)
         (DA & Dn & Db & Dcs & Dor & Dc & Dlb & Dub & Dvn & Doc & Dco & Dos).
  cbn [model_of_state model_A model_b model_c model_lb model_ub model_cons_senses
       model_variable_names model_co model_of_sense] in *.
  split; [|split; [|split; [|split]]].
  - unfold submodel.
    cbn [model_of_state model_A model_b model_c model_lb model_ub model_cons_senses
         model_variable_names model_co model_of_sense].
    rewrite DA, Dn, Db, Dcs, Dor, Dc, Dlb, Dub, Dvn, Doc, Dco, Dos.
    rewrite TA, Tb, Tc, Tlb, Tub, Tcs, Tvn, Tco, Tos.
    rewrite !select_drop_from.
    repeat split; try reflexivity.
    + rewrite drop_from_map, map_map.
      rewrite select_drop_from. apply map_ext. intro r. apply select_drop_from.
    + apply drop_from_same_length. rewrite length_seq. exact Tn.
  - rewrite Dor. now apply drop_from_ascending.
  - rewrite Doc. now apply drop_from_ascending.
  - rewrite Dor. intros i Hi. apply Hr1. eapply drop_from_In; eauto.
  - rewrite Doc. intros j Hj. apply Hr2. eapply drop_from_In; eauto.
Qed.

Lemma deleted_consistent (R C : list nat) (s s' : lp_state) :
  dimensions_consistent s = true -> deleted R C s s' ->
  dimensions_consistent s' = true.
Proof.
  intros Hd (DA & Dn & Db & Dcs & Dor & Dc & Dlb & Dub & Dvn & Doc & _).
  now apply (deletion_consistent R C s).
Qed.

Lemma record_operation_deleted (label : string) (R C : list nat) (s s' : lp_state) :
  deleted R C s s' -> deleted R C s (record_operation label s').
Proof. intro H. exact H. Qed.

Lemma eliminate_zero_rows_deleted (s : lp_state) :
  dimensions_consistent s = true ->
  exists s', eliminate_zero_rows s = Ok s'
             /\ deleted (zero_rows_to_delete s) [] s s'.
Proof.
  intro Hd. eexists. split; [apply eliminate_zero_rows_result; exact Hd|].
  unfold deleted. state_fields. cbn [items].
  rewrite !drop_from_nil, map_drop_from_nil, length_seq.
  repeat split; reflexivity.
Qed.

Lemma eliminate_zero_columns_deleted (s : lp_state) :
  dimensions_consistent s = true ->
  exists s', eliminate_zero_columns s = Ok s'
             /\ deleted [] (zero_columns_to_delete s) s s'.
Proof.
  intro Hd. eexists. split; [apply eliminate_zero_columns_result; exact Hd|].
  unfold deleted. state_fields.
  rewrite !items_bounds_after_delete, !drop_from_nil.
  repeat split; reflexivity.
Qed.

Lemma eliminate_redundant_columns_deleted (s : lp_state) :
  dimensions_consistent s = true ->
  exists s' C, eliminate_redundant_columns s = Ok s'
               /\ deleted (redundant_column_rows s) C s s'.
Proof.
  intro Hd.
  destruct (eliminate_redundant_columns_result s Hd)
    as (s' & C & E & Hd' & Hnd & HC & HA & Hb & Hc & Hlb & Hub & Hvn & Hj1 & Hj2
        & Hw & Hcs & Hor & Hoc & Hn & Hco & Hos).
  exists s', C. split; [exact E|].
  unfold deleted. rewrite Hlb, Hub. cbn [items].
  repeat split; try assumption; reflexivity.
Qed.

Lemma load_tracks (m : model_matrices) (label : string) :
  model_consistent m = true ->
  tracks m
    (record_operation label
       (mkState (model_A m) (model_b m) (model_c m) (model_co m) (model_lb m)
          (model_ub m) (model_of_sense m) (model_cons_senses m)
          (model_variable_names m) (seq 0 (nrows (model_A m)))
          (seq 0 (ncols (model_A m))) [] [] [])).
Proof.
  intro Hm. unfold model_consistent in Hm.
  apply dimensions_consistent_spec in Hm
    as (H1 & H2 & H3 & H4 & H5 & H6 & H7 & H8 & H9).
  cbn [A b c lb ub cons_senses variable_names original_row_index
       original_column_index] in *.
  unfold tracks. state_fields.
  split; [|split; [apply seq_ascending|split; [apply seq_ascending|split]]].
  - unfold submodel.
    cbn [model_of_state model_A model_b model_c model_lb model_ub model_cons_senses
         model_variable_names model_co model_of_sense].
    state_fields. unfold nrows in *.
    assert (Hsel : forall (T : Type) (d : T) (l : list T) (n : nat),
               length l = n -> l = select d (seq 0 n) l)
      by (intros T d l n <-; symmetry; apply select_seq).
    repeat split; try (apply Hsel; assumption); try reflexivity.
    + rewrite <- (Hsel _ [] (mrows (model_A m)) _ eq_refl).
      rewrite <- (map_id (mrows (model_A m))) at 1.
      apply map_ext_in. intros r Hr. apply Hsel. now apply H9.
    + now rewrite length_seq.
  - intros i Hi. apply in_seq in Hi. lia.
  - intros j Hj. apply in_seq in Hj. lia.
Qed.

Lemma when_deletes (flag : bool) (rule : lp_state -> result lp_state)
  (m : model_matrices) (s : lp_state) :
  (dimensions_consistent s = true ->
   exists s' R C, rule s = Ok s' /\ deleted R C s s') ->
  dimensions_consistent s = true -> tracks m s ->
  exists s', when flag rule s = Ok s'
             /\ dimensions_consistent s' = true /\ tracks m s'.
Proof.
  intros H Hd Ht. destruct flag; cbn [when]; [|eauto].
  destruct (H Hd) as (s' & R & C & E & Hdel).
  exists s'. split; [exact E|]. split.
  - eapply deleted_consistent; eauto.
  - eapply deleted_tracks; eauto.
Qed.

Section DeletionRules.

Variable linear_dependency : matrix -> list Q -> list (list nat) * list bool.
Variable normalize_features : matrix -> list Q -> matrix.
Variable matrix_sparsification : Q -> matrix -> matrix -> matrix.

(** With only redundant-column elimination and the two zero rules switched
    on, in any combination, a run on a model whose vectors match its matrix
    returns a submodel of the input: a selection of its rows and of its
    columns, in their original order, with the coefficients, right-hand
    sides, costs, bounds, senses, names, constant and objective sense
    unchanged. *)
Theorem deletion_rules_return_a_submodel (fuel : nat) (m : model_matrices)
  (kk : nat) (redundant_columns zero_rows zero_columns : bool) :
  model_consistent m = true ->
  exists out rows cols,
    orchestrator_presolve_operations linear_dependency normalize_features
      matrix_sparsification fuel
      (structural_rules_only m false kk redundant_columns zero_rows zero_columns)
    = Ok out
    /\ submodel rows cols m (model_of_output out)
    /\ ascending rows /\ ascending cols
    /\ (forall i, In i rows -> i < nrows (model_A m))
    /\ (forall j, In j cols -> j < ncols (model_A m)).
Proof.
  intros Hm.
  unfold orchestrator_presolve_operations, load_model_matrices.
  cbn [model structural_rules_only].
  match goal with
  | |- exists out rows cols, bind (bind (Ok ?s) _) _ = _ /\ _ =>
      assert (Hd0 : dimensions_consistent s = true) by exact Hm;
      assert (Ht0 : tracks m s) by (apply load_tracks; exact Hm);
      remember s as s0 eqn:Es0; clear Es0
  | |- exists out rows cols, bind (Ok ?s) _ = _ /\ _ =>
      assert (Hd0 : dimensions_consistent s = true) by exact Hm;
      assert (Ht0 : tracks m s) by (apply load_tracks; exact Hm);
      remember s as s0 eqn:Es0; clear Es0
  end.
  cbn [bind when structural_rules_only perform_reduction_small_coefficients
       perform_eliminate_implied_bounds perform_eliminate_redundant_rows
       perform_eliminate_kton_equalities perform_eliminate_singleton_equalities
       perform_eliminate_singleton_inequalities
       perform_eliminate_dual_singleton_inequalities
       perform_eliminate_redundant_columns perform_eliminate_zero_rows
       perform_eliminate_zero_columns k].
  destruct (when_deletes redundant_columns eliminate_redundant_columns m s0)
    as (s1 & E1 & Hd1 & Ht1); [|exact Hd0|exact Ht0|].
  { intro Hd. destruct (eliminate_redundant_columns_deleted s0 Hd) as (s' & C & E & H).
    eauto. }
  rewrite E1. cbn [bind].
  destruct (when_deletes zero_rows eliminate_zero_rows m s1)
    as (s2 & E2 & Hd2 & Ht2); [|exact Hd1|exact Ht1|].
  { intro Hd. destruct (eliminate_zero_rows_deleted s1 Hd) as (s' & E & H). eauto. }
  rewrite E2. cbn [bind].
  destruct (when_deletes zero_columns eliminate_zero_columns m s2)
    as (s3 & E3 & Hd3 & Ht3); [|exact Hd2|exact Ht2|].
  { intro Hd. destruct (eliminate_zero_columns_deleted s2 Hd) as (s' & E & H). eauto. }
  rewrite E3. cbn [bind].
  exists (output_of s3), (original_row_index s3), (original_column_index s3).
  split; [reflexivity|].
  change (model_of_output (output_of s3)) with (model_of_state s3).
  exact Ht3.
Qed.

End DeletionRules.

Lemma deletion_rules_return_a_submodel_witness :
  exists out,
    orchestrator_presolve_operations no_linear_dependency normalize_nothing
      sparsify_nothing 1
      (structural_rules_only (model_of_state zero_sum_equality_state) false 5
         true true true)
    = Ok out
    /\ submodel [2] [2] (model_of_state zero_sum_equality_state)
         (model_of_output out).
Proof.
  destruct (deletion_rules_return_a_submodel no_linear_dependency normalize_nothing
              sparsify_nothing 1 (model_of_state zero_sum_equality_state) 5
              true true true eq_refl)
    as (out & rows & cols & E & _).
  exists out. split; [exact E|].
  vm_compute in E. injection E as <-.
  unfold submodel. cbn. repeat split; reflexivity.
Defined.

(** ** Independence of the constraint senses *)

Lemma agree_refl {T : Type} (R : T -> T -> Prop) (r : result T) :
  (forall t, R t t) -> agree R r r.
Proof. intro H. destruct r; cbn; auto. Qed.

Lemma bind_agree {T U : Type} (R : T -> T -> Prop) (R' : U -> U -> Prop)
  (m1 m2 : result T) (f1 f2 : T -> result U) :
  agree R m1 m2 ->
  (forall t1 t2, R t1 t2 -> agree R' (f1 t1) (f2 t2)) ->
  agree R' (bind m1 f1) (bind m2 f2).
Proof. destruct m1, m2; cbn; intros H Hf; try contradiction; auto. Qed.

Lemma for_each_agree {T St : Type} (R : St -> St -> Prop)
  (body1 body2 : T -> St -> result St) (l : list T) :
  (forall x a1 a2, R a1 a2 -> agree R (body1 x a1) (body2 x a2)) ->
  forall a1 a2, R a1 a2 -> agree R (for_each l body1 a1) (for_each l body2 a2).
Proof.
  intro Hb. induction l as [|x l IH]; cbn [for_each]; intros a1 a2 Ha.
  - exact Ha.
  - eapply bind_agree; [apply Hb; exact Ha|]. intros; apply IH; assumption.
Qed.

Lemma py_del_agree {T : Type} (i : nat) (l1 l2 : list T) :
  length l1 = length l2 ->
  agree (fun a1 a2 => length a1 = length a2) (py_del i l1) (py_del i l2).
Proof.
  revert i l2. induction l1 as [|x l1 IH]; intros i [|y l2] H; try discriminate.
  - destruct i; reflexivity.
  - destruct i; cbn; [now injection H|].
    injection H as H. specialize (IH i l2 H).
    destruct (py_del i l1), (py_del i l2); cbn in *; auto.
Qed.

Lemma same_but_senses_refl s : same_but_senses s s.
Proof. exists (cons_senses s). split; [destruct s|]; reflexivity. Qed.

(** Updates of a state unfold as soon as they are applied, so that fields
    of an updated state reduce to fields of the original. *)
Arguments set_A v s /.
Arguments set_b v s /.
Arguments set_c v s /.
Arguments set_co v s /.
Arguments set_lb v s /.
Arguments set_ub v s /.
Arguments set_cons_senses v s /.
Arguments set_variable_names v s /.
Arguments set_original_row_index v s /.
Arguments set_original_column_index v s /.
Arguments set_change_dictionary v s /.
Arguments set_operation_table v s /.
Arguments set_warnings v s /.
Arguments warn w s /.
Arguments warn_all ws s /.
Arguments record_change path v s /.
Arguments record_operation label s /.

(** Projections of updated states are reduced on the spot, so that states
    stay flat records. *)
Ltac norm :=
  cbn [bind agree fst snd
       A b c co lb ub of_sense cons_senses variable_names original_row_index
       original_column_index change_dictionary operation_table warnings
       set_A set_b set_c set_co set_lb set_ub set_cons_senses set_variable_names
       set_original_row_index set_original_column_index set_change_dictionary
       set_operation_table set_warnings warn warn_all record_change
       record_operation] in *.

Ltac same_senses :=
  norm;
  match goal with
  | Hlen : length ?cs = length _ |- same_but_senses _ _ =>
      exists cs; split; [norm; try rewrite Hlen; reflexivity | norm; assumption]
  end.

Ltac open_pair :=
  let cs := fresh "cs" in
  let Hlen := fresh "Hlen" in
  let t := fresh "t" in
  intros t ? (cs & -> & Hlen); destruct t; norm.

Ltac agree_conv :=
  repeat (norm;
  match goal with
  | |- context [if qnonzero ?x then mkState _ _ _ _ _ _ _ _ _ _ _ _ _ _ else _] =>
      destruct (qnonzero x)
  | |- agree _ (bind ?m1 _) (bind ?m2 _) =>
      constr_eq m1 m2; destruct m1 as [?| |]; norm; [ | reflexivity | exact I]
  | |- agree _ (match ?x with _ => _ end) (match ?y with _ => _ end) =>
      constr_eq x y; destruct x
  | |- agree _ (Raise _) (Raise _) => reflexivity
  | |- agree _ OutOfFuel OutOfFuel => exact I
  end).

(** [del self.cons_senses[i]] on the two sense vectors *)
Ltac agree_senses_del :=
  match goal with
  | Hlen : length ?l2 = length ?l1
    |- agree _ (bind (py_del ?i ?l1) _) (bind (py_del ?i ?l2) _) =>
      let Hd := fresh "Hd" in
      pose proof (py_del_agree i l1 l2 (eq_sym Hlen)) as Hd;
      destruct (py_del i l1) as [?|?|], (py_del i l2) as [?|?|];
      cbn [agree] in Hd; try contradiction; norm; auto; clear Hlen;
      apply eq_sym in Hd
  end.

Lemma del_row_entries_agree idxs s1 s2 :
  same_but_senses s1 s2 ->
  agree same_but_senses (del_row_entries idxs s1) (del_row_entries idxs s2).
Proof.
  unfold del_row_entries. apply for_each_agree.
  clear. intro index. open_pair. agree_conv. agree_senses_del. agree_conv.
  same_senses.
Qed.

Ltac agree_loop :=
  match goal with
  | |- agree _ (bind (del_row_entries _ _) _) (bind (del_row_entries _ _) _) =>
      eapply (bind_agree same_but_senses);
      [ apply del_row_entries_agree; same_senses | open_pair ]
  | |- agree _ (bind (for_each _ _ _) _) (bind (for_each _ _ _) _) =>
      eapply (bind_agree same_but_senses);
      [ apply for_each_agree;
        [ intro; open_pair; agree_conv; same_senses | same_senses ]
      | open_pair ]
  end.

Ltac agree_rule := repeat (agree_conv; try agree_loop); try same_senses.

Lemma eliminate_zero_rows_agree s1 s2 :
  same_but_senses s1 s2 ->
  agree same_but_senses (eliminate_zero_rows s1) (eliminate_zero_rows s2).
Proof.
  revert s1 s2. open_pair. unfold eliminate_zero_rows, zero_rows_scan. agree_rule.
Qed.

Lemma del_column_entries_agree idxs s1 s2 :
  same_but_senses s1 s2 ->
  agree same_but_senses (del_column_entries idxs s1) (del_column_entries idxs s2).
Proof.
  unfold del_column_entries. apply for_each_agree.
  intro index. open_pair. agree_conv. same_senses.
Qed.

Lemma eliminate_zero_columns_agree s1 s2 :
  same_but_senses s1 s2 ->
  agree same_but_senses (eliminate_zero_columns s1) (eliminate_zero_columns s2).
Proof.
  revert s1 s2. open_pair. unfold eliminate_zero_columns, zero_columns_scan.
  agree_rule.
Qed.

Lemma eliminate_singleton_inequalities_agree s1 s2 :
  same_but_senses s1 s2 ->
  agree same_but_senses (eliminate_singleton_inequalities s1)
    (eliminate_singleton_inequalities s2).
Proof.
  revert s1 s2. open_pair.
  unfold eliminate_singleton_inequalities, singleton_inequalities_scan. agree_rule.
Qed.

Lemma eliminate_implied_bounds_agree s1 s2 :
  same_but_senses s1 s2 ->
  agree same_but_senses (eliminate_implied_bounds s1) (eliminate_implied_bounds s2).
Proof.
  revert s1 s2. open_pair.
  unfold eliminate_implied_bounds, eliminate_implied_bounds_with,
    implied_bounds_scan, get_row_activities, row_activity.
  agree_rule.
Qed.

Ltac agree_columns :=
  eapply (bind_agree same_but_senses);
  [ apply del_column_entries_agree; same_senses | open_pair ].

Lemma eliminate_dual_singleton_inequalities_agree s1 s2 :
  same_but_senses s1 s2 ->
  agree same_but_senses (eliminate_dual_singleton_inequalities s1)
    (eliminate_dual_singleton_inequalities s2).
Proof.
  revert s1 s2. open_pair.
  unfold eliminate_dual_singleton_inequalities, dual_singleton_inequalities_scan.
  agree_conv. agree_loop. agree_columns. agree_rule.
Qed.

Lemma eliminate_redundant_columns_agree s1 s2 :
  same_but_senses s1 s2 ->
  agree same_but_senses (eliminate_redundant_columns s1)
    (eliminate_redundant_columns s2).
Proof.
  revert s1 s2. open_pair.
  unfold eliminate_redundant_columns, redundant_columns_scan.
  agree_conv. agree_loop. agree_conv. agree_columns. agree_rule.
Qed.

Lemma eliminate_redundant_rows_agree ld s1 s2 :
  same_but_senses s1 s2 ->
  agree same_but_senses (eliminate_redundant_rows ld s1)
    (eliminate_redundant_rows ld s2).
Proof.
  revert s1 s2. open_pair. unfold eliminate_redundant_rows, redundant_rows_scan.
  agree_rule.
Qed.

Lemma reduction_small_coefficients_agree nf ms s1 s2 :
  same_but_senses s1 s2 ->
  agree same_but_senses (reduction_small_coefficients nf ms s1)
    (reduction_small_coefficients nf ms s2).
Proof.
  revert s1 s2. open_pair. unfold reduction_small_coefficients. same_senses.
Qed.

Ltac same_pass_done :=
  norm; unfold same_pass; (split; [reflexivity|]); same_senses.

Lemma singleton_equalities_pass_agree sol s1 s2 :
  same_but_senses s1 s2 ->
  agree same_pass (singleton_equalities_pass sol s1) (singleton_equalities_pass sol s2).
Proof.
  revert s1 s2. open_pair. unfold singleton_equalities_pass, equality_rows.
  agree_conv; try agree_loop; agree_conv; same_pass_done.
Qed.

Lemma singleton_equalities_loop_agree fuel :
  forall sol s1 s2,
    same_but_senses s1 s2 ->
    agree (fun r1 r2 => fst r1 = fst r2 /\ same_but_senses (snd r1) (snd r2))
      (singleton_equalities_loop fuel sol s1) (singleton_equalities_loop fuel sol s2).
Proof.
  induction fuel as [|fuel IH]; intros sol s1 s2 Hs; cbn [singleton_equalities_loop];
    [exact I|].
  eapply bind_agree; [apply singleton_equalities_pass_agree; exact Hs|].
  intros [[f1 sol1] t1] [[f2 sol2] t2] [Hf Ht]. cbn in Hf, Ht.
  injection Hf as -> ->. destruct f2; [apply IH; exact Ht|].
  cbn. auto.
Qed.

Lemma eliminate_singleton_equalities_agree fuel s1 s2 :
  same_but_senses s1 s2 ->
  agree same_but_senses (eliminate_singleton_equalities fuel s1)
    (eliminate_singleton_equalities fuel s2).
Proof.
  intro Hs. unfold eliminate_singleton_equalities.
  eapply bind_agree; [apply singleton_equalities_loop_agree; exact Hs|].
  intros [sol1 t1] [sol2 t2] [Hf Ht]. cbn in Hf, Ht. subst sol2.
  revert t1 t2 Ht. open_pair. same_senses.
Qed.

Lemma kton_eliminate_row_agree first col i s1 s2 :
  same_but_senses s1 s2 ->
  agree same_but_senses (kton_eliminate_row first col i s1)
    (kton_eliminate_row first col i s2).
Proof.
  revert s1 s2. open_pair. unfold kton_eliminate_row. agree_conv. same_senses.
Qed.

Lemma kton_equalities_pass_agree kk sol s1 s2 :
  same_but_senses s1 s2 ->
  agree same_pass (kton_equalities_pass kk sol s1) (kton_equalities_pass kk sol s2).
Proof.
  revert s1 s2. open_pair. unfold kton_equalities_pass, equality_rows.
  agree_conv; [|same_pass_done].
  eapply (bind_agree same_but_senses).
  - apply for_each_agree; [|same_senses].
    intros i a1 a2 Ha. destruct (i =? n); [exact Ha|].
    apply kton_eliminate_row_agree; exact Ha.
  - open_pair. agree_conv. agree_senses_del. agree_conv. same_pass_done.
Qed.

Lemma kton_equalities_loop_agree fuel kk :
  forall sol s1 s2,
    same_but_senses s1 s2 ->
    agree same_but_senses (kton_equalities_loop fuel kk sol s1)
      (kton_equalities_loop fuel kk sol s2).
Proof.
  induction fuel as [|fuel IH]; intros sol s1 s2 Hs; cbn [kton_equalities_loop];
    [exact I|].
  eapply bind_agree; [apply kton_equalities_pass_agree; exact Hs|].
  intros [[f1 sol1] t1] [[f2 sol2] t2] [Hf Ht]. cbn in Hf, Ht.
  injection Hf as -> ->. destruct f2; [apply IH; exact Ht|].
  cbn. auto.
Qed.

Lemma eliminate_kton_equalities_agree fuel kk s1 s2 :
  same_but_senses s1 s2 ->
  agree same_but_senses (eliminate_kton_equalities fuel kk s1)
    (eliminate_kton_equalities fuel kk s2).
Proof.
  intro Hs. unfold eliminate_kton_equalities.
  eapply bind_agree; [apply kton_equalities_loop_agree; exact Hs|].
  open_pair. same_senses.
Qed.

Section Independence.

Variable linear_dependency : matrix -> list Q -> list (list nat) * list bool.
Variable normalize_features : matrix -> list Q -> matrix.
Variable matrix_sparsification : Q -> matrix -> matrix -> matrix.

Local Notation orchestrate :=
  (orchestrator_presolve_operations linear_dependency normalize_features
     matrix_sparsification).
Local Notation rule_step :=
  (apply_rule linear_dependency normalize_features matrix_sparsification).

Lemma apply_rule_agree fuel p r s1 s2 :
  same_but_senses s1 s2 ->
  agree same_but_senses (rule_step fuel p r s1) (rule_step fuel p r s2).
Proof.
  destruct r; cbn [apply_rule].
  - apply reduction_small_coefficients_agree.
  - apply eliminate_implied_bounds_agree.
  - apply eliminate_redundant_rows_agree.
  - apply eliminate_kton_equalities_agree.
  - apply eliminate_singleton_equalities_agree.
  - apply eliminate_singleton_inequalities_agree.
  - apply eliminate_dual_singleton_inequalities_agree.
  - apply eliminate_redundant_columns_agree.
  - apply eliminate_zero_rows_agree.
  - apply eliminate_zero_columns_agree.
Qed.

Lemma output_of_agree s1 s2 :
  same_but_senses s1 s2 -> same_output_but_senses (output_of s1) (output_of s2).
Proof.
  intros (cs & -> & Hlen). destruct s1. unfold same_output_but_senses, output_of.
  cbn in *. rewrite Hlen. reflexivity.
Qed.

(** C10 *)
Theorem results_independent_of_cons_senses
  (fuel : nat) (p : PresolveComillas) (m : model_matrices)
  (cs : list constraint_sense) :
  model p = Some m ->
  length cs = length (model_cons_senses m) ->
  (forall r s1 s2,
      same_but_senses s1 s2 ->
      agree same_but_senses (rule_step fuel p r s1) (rule_step fuel p r s2))
  /\ agree same_output_but_senses
       (orchestrate fuel p)
       (orchestrate fuel (with_model (model_with_senses cs m) p)).
Proof.
  intros Hm Hlen. split; [intros r s1 s2; apply apply_rule_agree|].
  rewrite !orchestrator_is_rule_order. unfold orchestrator_by_rule_order.
  eapply (bind_agree same_but_senses).
  - unfold load_model_matrices. rewrite Hm. cbn [model with_model agree].
    exists cs. split; [|exact Hlen]. cbn. rewrite Hlen. reflexivity.
  - intros s1 s2 Hs.
    eapply (bind_agree same_but_senses).
    + replace (filter (enabled (with_model (model_with_senses cs m) p)) rule_order)
        with (filter (enabled p) rule_order) by reflexivity.
      apply for_each_agree; [|exact Hs].
      intros r a1 a2 Ha.
      change (rule_step fuel (with_model (model_with_senses cs m) p) r a2)
        with (rule_step fuel p r a2).
      apply apply_rule_agree; exact Ha.
    + intros t1 t2 Ht. cbn [agree]. apply output_of_agree; exact Ht.
Qed.

End Independence.

Lemma results_independent_of_cons_senses_witness :
  agree same_output_but_senses
    (run_presolve 5 (only_singleton_inequalities exposed_singleton_model))
    (run_presolve 5
       (with_model (model_with_senses [SenseGe; SenseEq] exposed_singleton_model)
          (only_singleton_inequalities exposed_singleton_model))).
Proof.
  exact (proj2 (results_independent_of_cons_senses no_linear_dependency
                  normalize_nothing sparsify_nothing 5
                  (only_singleton_inequalities exposed_singleton_model)
                  exposed_singleton_model [SenseGe; SenseEq] eq_refl eq_refl)).
Defined.
